(** * VitePress build pipeline and client router: a shallow embedding

    The development follows the TypeScript sources: the shared helpers
    (title templating, head merging, HTML detection), the rewrite and
    dynamic-route resolvers, the dead-link pass of the Markdown compiler,
    the bundle post-processing hook and the client router.

    A JavaScript string is a Rocq [string], one character per code unit.
    A JavaScript object used as a dictionary is a [gmap string _]; where
    the enumeration order of its keys matters the keys are kept in a list.
    Library calls whose code is not part of the repository (URL parsing,
    [path-to-regexp], the file system, dynamic [import]) are section
    variables. *)

From Stdlib Require Import String Ascii List Bool Arith Lia.
From Stdlib Require Import DecimalString.
From stdpp Require Import gmap strings sorting.
Import ListNotations.

(** ** JavaScript string primitives *)

Module JS.

(** [s.startsWith(p)] *)
Fixpoint startsWith (s p : string) {struct p} : bool :=
  match p with
  | EmptyString => true
  | String a p' =>
      match s with
      | EmptyString => false
      | String b s' => if Ascii.eqb a b then startsWith s' p' else false
      end
  end.

(** [s.includes(p)] *)
Fixpoint includes (s p : string) : bool :=
  match s with
  | EmptyString => startsWith EmptyString p
  | String _ s' => startsWith s p || includes s' p
  end.

(** [s.slice(n)] for [n >= 0] *)
Fixpoint drop (n : nat) (s : string) : string :=
  match n with
  | O => s
  | S k => match s with EmptyString => EmptyString | String _ s' => drop k s' end
  end.

(** [s.slice(0, n)] for [n >= 0] *)
Fixpoint take (n : nat) (s : string) : string :=
  match n with
  | O => EmptyString
  | S k => match s with EmptyString => EmptyString | String c s' => String c (take k s') end
  end.

(** [s.endsWith(p)] *)
Definition endsWith (s p : string) : bool :=
  (String.length p <=? String.length s) &&
  String.eqb (drop (String.length s - String.length p) s) p.

(** [s.slice(0, -k)] for [k > 0] *)
Definition dropEnd (k : nat) (s : string) : string :=
  take (String.length s - k) s.

Definition isUpper (c : ascii) : bool :=
  (65 <=? nat_of_ascii c) && (nat_of_ascii c <=? 90).

Definition isLower (c : ascii) : bool :=
  (97 <=? nat_of_ascii c) && (nat_of_ascii c <=? 122).

Definition isDigit (c : ascii) : bool :=
  (48 <=? nat_of_ascii c) && (nat_of_ascii c <=? 57).

(** the class [\w] of a regular expression *)
Definition isWord (c : ascii) : bool :=
  isUpper c || isLower c || isDigit c || Ascii.eqb c "_"%char.

Definition lowerChar (c : ascii) : ascii :=
  if isUpper c then ascii_of_nat (nat_of_ascii c + 32) else c.

(** [s.toLowerCase()] *)
Fixpoint toLowerCase (s : string) : string :=
  match s with
  | EmptyString => EmptyString
  | String c s' => String (lowerChar c) (toLowerCase s')
  end.

(** [s.split(sep).pop()] for a one-character separator: the part after the
    last separator, the whole string when there is none. [cur] is the piece
    being read. *)
Fixpoint splitPop (sep : ascii) (cur s : string) : string :=
  match s with
  | EmptyString => cur
  | String c s' =>
      if Ascii.eqb c sep then splitPop sep EmptyString s'
      else splitPop sep (cur +:+ String c EmptyString) s'
  end.

(** [s.split(sep)] for a one-character separator *)
Fixpoint splitOn (sep : ascii) (cur s : string) : list string :=
  match s with
  | EmptyString => [cur]
  | String c s' =>
      if Ascii.eqb c sep then cur :: splitOn sep EmptyString s'
      else splitOn sep (cur +:+ String c EmptyString) s'
  end.

(** [String.prototype.replace] with a global regular expression.
    [matchAt s] is the length of the match of the expression anchored at the
    head of [s], if any (all expressions used here match at least one
    character); [subst before matched after] is the text put in its place.
    [pre] is the part of the subject already scanned, [skip] the number of
    characters of the current match still to be passed over. *)
Fixpoint replaceGo (matchAt : string -> option nat)
    (subst : string -> string -> string -> string)
    (pre : string) (skip : nat) (s : string) : string :=
  match s with
  | EmptyString => EmptyString
  | String c s' =>
      match skip with
      | S k => replaceGo matchAt subst (pre +:+ String c EmptyString) k s'
      | O =>
          match matchAt s with
          | Some (S n) =>
              subst pre (take (S n) s) (drop (S n) s)
              +:+ replaceGo matchAt subst (pre +:+ String c EmptyString) n s'
          | _ =>
              String c (replaceGo matchAt subst (pre +:+ String c EmptyString) 0 s')
          end
      end
  end.

Definition replaceAll (matchAt : string -> option nat)
    (subst : string -> string -> string -> string) (s : string) : string :=
  replaceGo matchAt subst EmptyString 0 s.

(** The expansion of a replacement string (GetSubstitution of ECMA-262) for
    an expression without capture groups: [$$] is a dollar sign, [$&] the
    matched text, [$`] the text before the match, [$'] the text after it;
    a dollar sign followed by anything else stands for itself. *)
Fixpoint getSubstitution (before matched after : string) (r : string) : string :=
  match r with
  | EmptyString => EmptyString
  | String c r' =>
      if Ascii.eqb c "$"%char then
        match r' with
        | String d r'' =>
            if Ascii.eqb d "$"%char then
              String "$"%char (getSubstitution before matched after r'')
            else if Ascii.eqb d "&"%char then
              matched +:+ getSubstitution before matched after r''
            else if Ascii.eqb d "`"%char then
              before +:+ getSubstitution before matched after r''
            else if Ascii.eqb d "'"%char then
              after +:+ getSubstitution before matched after r''
            else String c (getSubstitution before matched after r')
        | EmptyString => String c EmptyString
        end
      else String c (getSubstitution before matched after r')
  end.

(** no match of the expression starts at a position of [pre], when [rest]
    follows it *)
Fixpoint noMatchWithin (matchAt : string -> option nat) (pre rest : string) : bool :=
  match pre with
  | EmptyString => true
  | String c pre' =>
      match matchAt (pre +:+ rest) with
      | Some _ => false
      | None => noMatchWithin matchAt pre' rest
      end
  end.

(** a literal pattern, as a matcher *)
Definition literal (p : string) (s : string) : option nat :=
  if startsWith s p then Some (String.length p) else None.

(** decimal rendering of a number, as in a template literal *)
Definition numberToString (n : nat) : string :=
  NilZero.string_of_uint (Nat.to_uint n).

(** [s.replace(/\.js$/, r)] and its like: a literal suffix, anchored at the
    end of the subject, replaced when present *)
Definition replaceSuffix (suffix r s : string) : string :=
  if endsWith s suffix then dropEnd (String.length suffix) s +:+ r else s.

(** [s.replace(/^p/, r)]: a literal prefix replaced when present *)
Definition replacePrefix (p r s : string) : string :=
  if startsWith s p then r +:+ drop (String.length p) s else s.

(** a double quote and a line feed, as one-character strings *)
Definition dq : string := String (ascii_of_nat 34) EmptyString.
Definition newline : string := String (ascii_of_nat 10) EmptyString.

End JS.

(** ** The logger *)

Module Logger.

(** a call of [logger.warn] or [logger.info]; colours are left out *)
Inductive LogEntry :=
| Warn (message : string)
| Info (message : string).

End Logger.

(** ** Shared helpers ([shared.ts]) *)

Module Shared.

(** [string | boolean] as the type of a title template; [undefined] is the
    [None] of an option *)
Inductive TitleTemplate :=
| TString (t : string)
| TBool (b : bool).

Record PageData := {
  relativePath : string;
  filePath : string;
  title : string;
  titleTemplate : option TitleTemplate;
  description : string;
  headers : list string;
  frontmatter : list (string * string);
  lastUpdated : option nat;
  isNotFound : bool
}.

Record SiteData := {
  siteTitle : string;
  siteTitleTemplate : option TitleTemplate
}.

Definition notFoundPageData : PageData := {|
  relativePath := "404.md";
  filePath := "";
  title := "404";
  titleTemplate := None;
  description := "Not Found";
  headers := [];
  frontmatter := [("sidebar", "false"); ("layout", "page")];
  lastUpdated := Some 0;
  isNotFound := true
|}.

(** [EXTERNAL_URL_RE = /^(?:[a-z]+:|\/\/)/i] *)
Definition isLetter (c : ascii) : bool := JS.isUpper c || JS.isLower c.

Fixpoint letterRun (s : string) : nat :=
  match s with
  | String c s' => if isLetter c then S (letterRun s') else 0
  | EmptyString => 0
  end.

(** length of the match of [EXTERNAL_URL_RE] at the head of the subject *)
Definition EXTERNAL_URL_RE (s : string) : option nat :=
  let n := letterRun s in
  if (0 <? n) && JS.startsWith (JS.drop n s) ":" then Some (S n)
  else if JS.startsWith s "//" then Some 2
  else None.

Definition isExternal (path : string) : bool :=
  match EXTERNAL_URL_RE path with Some _ => true | None => false end.

(** [createTitleTemplate] *)
Definition createTitleTemplate (siteTitle : string)
    (template : option TitleTemplate) : string :=
  match template with
  | Some (TBool false) => ""
  | Some (TBool true) => " | " +:+ siteTitle
  | None => " | " +:+ siteTitle
  | Some (TString t) =>
      if String.eqb siteTitle t then "" else " | " +:+ t
  end.

(** [template.replace(/:title/g, title)] *)
Definition replaceTitle (template title : string) : string :=
  JS.replaceAll (JS.literal ":title")
    (fun before matched after => JS.getSubstitution before matched after title)
    template.

(** [createTitle] *)
Definition createTitle (siteData : SiteData) (pageData : PageData) : string :=
  let title :=
    if String.eqb (title pageData) "" then siteTitle siteData
    else title pageData in
  let template :=
    match titleTemplate pageData with
    | Some t => Some t
    | None => siteTitleTemplate siteData
    end in
  let composed :=
    let templateString := createTitleTemplate (siteTitle siteData) template in
    if String.eqb title (JS.drop 3 templateString) then title
    else title +:+ templateString in
  match template with
  | Some (TString t) =>
      if JS.includes t ":title" then replaceTitle t title else composed
  | _ => composed
  end.

(** A head tag [[type, attrs]] or [[type, attrs, content]]; the attributes
    are listed in the order of [Object.entries]. *)
Record HeadConfig := {
  tagType : string;
  tagAttrs : list (string * string);
  tagContent : option string
}.

(** [attrs[key]] *)
Fixpoint getAttr (attrs : list (string * string)) (key : string) : option string :=
  match attrs with
  | [] => None
  | (k, v) :: rest => if String.eqb k key then Some v else getAttr rest key
  end.

(** [hasTag] *)
Definition hasTag (head : list HeadConfig) (tag : HeadConfig) : bool :=
  if negb (String.eqb (tagType tag) "meta") then false
  else
    match tagAttrs tag with
    | [] => false
    | (key, value) :: _ =>
        existsb
          (fun t =>
             String.eqb (tagType t) (tagType tag) &&
             match getAttr (tagAttrs t) key with
             | Some v => String.eqb v value
             | None => false
             end)
          head
    end.

(** [mergeHead] *)
Definition mergeHead (prev curr : list HeadConfig) : list HeadConfig :=
  List.filter (fun tagAttrs => negb (hasTag curr tagAttrs)) prev ++ curr.

(** [slash] *)
Definition slash (p : string) : string :=
  JS.replaceAll (JS.literal "\") (fun _ _ _ => "/") p.

(** the built-in extension list of [treatAsHtml] *)
Definition defaultExtensions : string :=
  "3g2,3gp,aac,ai,apng,au,avif,bin,bmp,cer,class,conf,crl,css,csv,dll," +:+
  "doc,eps,epub,exe,gif,gz,ics,ief,jar,jpe,jpeg,jpg,js,json,jsonld,m4a," +:+
  "man,mid,midi,mjs,mov,mp2,mp3,mp4,mpe,mpeg,mpg,mpp,oga,ogg,ogv,ogx," +:+
  "opus,otf,p10,p7c,p7m,p7s,pdf,png,ps,qt,roff,rtf,rtx,ser,svg,t,tif," +:+
  "tiff,tr,ts,tsv,ttf,txt,vtt,wav,weba,webm,webp,woff,woff2,xhtml,xml," +:+
  "yaml,yml,zip".

(** [KNOWN_EXTENSIONS] once filled; [extraExts] is the value of the
    environment variable [VITE_EXTRA_EXTENSIONS], empty when unset *)
Definition KNOWN_EXTENSIONS (extraExts : string) : list string :=
  JS.splitOn ","%char ""
    (defaultExtensions +:+
     (if String.eqb extraExts "" then "" else "," +:+ extraExts)).

(** [treatAsHtml] *)
Definition treatAsHtml (extraExts : string) (filename : string) : bool :=
  let ext := JS.splitPop "."%char "" filename in
  negb (existsb (String.eqb (JS.toLowerCase ext)) (KNOWN_EXTENSIONS extraExts)).

End Shared.

(** ** Rewrite rules ([rewritesPlugin.ts]) *)

Module Rewrites.

Section Rules.

(** the [params] object of a successful [path-to-regexp] match *)
Variable Params : Type.

(** A compiled rule: [matchUrl] is [match(from)], [toPath] is
    [compile(`/${to}`)], which throws ([None]) when a parameter of the
    target is missing. *)
Record RewriteRule := {
  matchUrl : string -> option Params;
  toPath : Params -> option string
}.

Record RewriteMaps := {
  map : gmap string string;
  inv : gmap string string
}.

(** The inner loop over the rules for one page: the first rule that matches
    decides, the others are not consulted ([break]). The outer option is
    [None] when [toPath] throws. *)
Fixpoint rewriteTarget (rules : list RewriteRule) (page : string)
    : option (option string) :=
  match rules with
  | [] => Some None
  | r :: rest =>
      match matchUrl r page with
      | Some res =>
          match toPath r res with
          | Some p => Some (Some (JS.drop 1 p))
          | None => None
          end
      | None => rewriteTarget rest page
      end
  end.

(** the outer loop over the pages *)
Fixpoint rewriteLoop (rules : list RewriteRule) (pages : list string)
    (acc : RewriteMaps) : option RewriteMaps :=
  match pages with
  | [] => Some acc
  | page :: rest =>
      match rewriteTarget rules page with
      | None => None
      | Some None => rewriteLoop rules rest acc
      | Some (Some dest) =>
          rewriteLoop rules rest
            {| map := <[page := dest]> (map acc);
               inv := <[dest := page]> (inv acc) |}
      end
  end.

(** [resolveRewrites], on the compiled rules in the order of
    [Object.entries(userRewrites)]. The two objects it fills are maps from
    property names to strings; page and target paths are taken to be
    ordinary property names. *)
Definition resolveRewrites (pages : list string) (rewriteRules : list RewriteRule)
    : option RewriteMaps :=
  let empty := {| map := ∅; inv := ∅ |} in
  match rewriteRules with
  | [] => Some empty
  | _ => rewriteLoop rewriteRules pages empty
  end.

End Rules.

Arguments matchUrl {Params} _ _.
Arguments toPath {Params} _ _.
Arguments Build_RewriteRule {Params} _ _.
Arguments rewriteTarget {Params} _ _.
Arguments rewriteLoop {Params} _ _ _.
Arguments resolveRewrites {Params} _ _.

End Rewrites.

(** ** Page resolution ([dynamicRoutesPlugin.ts]) *)

Module DynamicRoutes.

Fixpoint wordRun (s : string) : nat :=
  match s with
  | String c s' => if JS.isWord c then S (wordRun s') else 0
  | EmptyString => 0
  end.

(** [dynamicRouteRE = /\[(\w+?)\]/g], anchored at the head of the subject:
    the length of the match *)
Definition dynamicRouteRE (s : string) : option nat :=
  match s with
  | String c s' =>
      let k := wordRun s' in
      if Ascii.eqb c "["%char && (0 <? k) && JS.startsWith (JS.drop k s') "]"
      then Some (k + 2) else None
  | EmptyString => None
  end.

(** [dynamicRouteRE.test(file)] with [lastIndex] reset to 0 *)
Fixpoint isDynamicRoute (file : string) : bool :=
  match dynamicRouteRE file with
  | Some _ => true
  | None =>
      match file with
      | EmptyString => false
      | String _ s' => isDynamicRoute s'
      end
  end.

Record UserRouteConfig := {
  params : list (string * string);
  content : option string
}.

(** the [paths] export of a paths module: missing, or the list it holds or
    returns; [None] when the generator function throws *)
Inductive PathsExport :=
| NoPaths
| Paths (result : option (list UserRouteConfig)).

Record RouteModule := {
  modPaths : PathsExport;
  dependencies : list string
}.

Record ResolvedRouteConfig := {
  route : string;
  path : string;
  fullPath : string;
  routeParams : list (string * string);
  routeContent : option string
}.

(** [userConfig.params[key]], turned into text by [replace] *)
Definition paramText (ps : list (string * string)) (key : string) : string :=
  match Shared.getAttr ps key with
  | Some v => v
  | None => "undefined"
  end.

(** [route.replace(dynamicRouteRE, (_, key) => userConfig.params[key])] *)
Definition resolvedPath (route : string) (ps : list (string * string)) : string :=
  JS.replaceAll dynamicRouteRE
    (fun _ matched _ => paramText ps (JS.dropEnd 1 (JS.drop 1 matched)))
    route.

Section Resolve.

(** [normalizePath(path.resolve(srcDir, p))] *)
Variable resolveInSrc : string -> string.
(** [normalizePath(path.resolve(dep))] *)
Variable resolveInCwd : string -> string.
Variable existsSync : string -> bool.
(** [loadConfigFromFile] on a paths file; [None] when it throws *)
Variable loadConfigFromFile : string -> option RouteModule.

Record ResolveState := {
  routeModuleCache : gmap string RouteModule;
  (** every key shares the module set of the route file it is mapped to *)
  routeFileToModulesMap : gmap string string;
  logged : list Logger.LogEntry
}.

Definition pathsFiles (fullPath : string) : list string :=
  List.map (fun ext => JS.replaceSuffix ".md" (".paths." +:+ ext) fullPath)
    ["js"; "ts"; "mjs"; "mts"].

Definition resolveRoute (route : string) (paths : list UserRouteConfig)
    : list ResolvedRouteConfig :=
  List.map
    (fun userConfig =>
       let p := resolvedPath route (params userConfig) in
       {| route := route;
          path := p;
          fullPath := resolveInSrc p;
          routeParams := params userConfig;
          routeContent := content userConfig |})
    paths.

(** [logger.warn]; the colouring of the message is left out *)
Definition warn (m : string) (st : ResolveState) : ResolveState :=
  {| routeModuleCache := routeModuleCache st;
     routeFileToModulesMap := routeFileToModulesMap st;
     logged := logged st ++ [Logger.Warn m] |}.

(** One turn of the loop of [resolveDynamicRoutes]: the routes the template
    contributes (none when it is skipped), [None] when its generator throws. *)
Definition resolveOne (route : string) (st : ResolveState)
    : option (list ResolvedRouteConfig) * ResolveState :=
  let fullPath := resolveInSrc route in
  match List.find existsSync (pathsFiles fullPath) with
  | None =>
      (Some [],
       warn ("Missing paths file for dynamic route " +:+ route +:+
             ": a corresponding " +:+ hd "" (pathsFiles fullPath) +:+
             " (or .ts/.mjs/.mts) file is needed.") st)
  | Some pathsFile =>
      let loaded :=
        match routeModuleCache st !! pathsFile with
        | Some m => Some m
        | None => loadConfigFromFile pathsFile
        end in
      match loaded with
      | None => (Some [], warn ("Failed to load " +:+ pathsFile +:+ ":") st)
      | Some m =>
          let cache := <[pathsFile := m]> (routeModuleCache st) in
          let owners :=
            foldl (fun acc dep => <[resolveInCwd dep := fullPath]> acc)
              (<[fullPath := fullPath]> (routeFileToModulesMap st))
              (dependencies m) in
          let st' :=
            {| routeModuleCache := cache;
               routeFileToModulesMap := owners;
               logged := logged st |} in
          match modPaths m with
          | NoPaths =>
              (Some [],
               warn ("Invalid paths file export in " +:+ pathsFile +:+
                     ". Missing " +:+ JS.dq +:+ "paths" +:+ JS.dq +:+
                     " property from default export.") st')
          | Paths None => (None, st')
          | Paths (Some l) => (Some (resolveRoute route l), st')
          end
      end
  end.

(** [resolveDynamicRoutes]: the routes in the order of the templates
    ([Promise.all] keeps the order, [flat] concatenates) *)
Fixpoint resolveDynamicRoutes (routes : list string) (st : ResolveState)
    : option (list ResolvedRouteConfig) * ResolveState :=
  match routes with
  | [] => (Some [], st)
  | r :: rest =>
      let '(here, st1) := resolveOne r st in
      let '(others, st2) := resolveDynamicRoutes rest st1 in
      match here, others with
      | Some a, Some b => (Some (a ++ b), st2)
      | _, _ => (None, st2)
      end
  end.

Record ResolvedPages := {
  pages : list string;
  dynamicRoutes : list ResolvedRouteConfig;
  rewrites : Rewrites.RewriteMaps
}.

(** the default comparison of [Array.prototype.sort]: code unit order *)
Definition sortFiles (files : list string) : list string :=
  merge_sort String.le files.

(** [resolvePages]. [globbed] is what [fast-glob] returned for the source
    directory, in whatever order; the result is [None] when a path generator
    or a rewrite target throws. *)
Definition resolvePages {Params : Type} (globbed : list string)
    (rewriteRules : list (Rewrites.RewriteRule Params)) (st : ResolveState)
    : option ResolvedPages * ResolveState :=
  let allMarkdownFiles := sortFiles globbed in
  let staticPages := List.filter (fun f => negb (isDynamicRoute f)) allMarkdownFiles in
  let dynamicRouteFiles := List.filter isDynamicRoute allMarkdownFiles in
  let '(resolved, st') := resolveDynamicRoutes dynamicRouteFiles st in
  match resolved with
  | None => (None, st')
  | Some routes =>
      let pages := staticPages ++ List.map path routes in
      match Rewrites.resolveRewrites pages rewriteRules with
      | None => (None, st')
      | Some rw =>
          (Some {| pages := pages; dynamicRoutes := routes; rewrites := rw |}, st')
      end
  end.

End Resolve.

End DynamicRoutes.

(** ** Dead links in the Markdown compiler ([markdownToVue.ts]) *)

Module MarkdownToVue.

Record DeadLink := {
  url : string;
  file : string
}.

(** one entry of an [ignoreDeadLinks] array; [IgnoreRegExp] carries the
    [test] method of a pattern without the global or sticky flag *)
Inductive IgnoreEntry :=
| IgnoreString (s : string)
| IgnoreRegExp (test : string -> bool)
| IgnoreFunction (f : string -> bool)
| IgnoreOther.

(** the [ignoreDeadLinks] setting; [IgnoreUnset] is [undefined] or [false] *)
Inductive IgnoreDeadLinks :=
| IgnoreUnset
| IgnoreAll
| IgnoreLocalhostLinks
| IgnoreList (entries : list IgnoreEntry).

(** [url.replace(EXTERNAL_URL_RE, '')] *)
Definition stripExternal (url : string) : string :=
  match Shared.EXTERNAL_URL_RE url with
  | Some n => JS.drop n url
  | None => url
  end.

(** [shouldIgnoreDeadLink] *)
Definition shouldIgnoreDeadLink (ignoreDeadLinks : IgnoreDeadLinks)
    (url : string) : bool :=
  match ignoreDeadLinks with
  | IgnoreUnset => false
  | IgnoreAll => true
  | IgnoreLocalhostLinks => JS.startsWith (stripExternal url) "//localhost"
  | IgnoreList entries =>
      existsb
        (fun ignore =>
           match ignore with
           | IgnoreString s => String.eqb url s
           | IgnoreRegExp test => test url
           | IgnoreFunction f => f url
           | IgnoreOther => false
           end)
        entries
  end.

Definition isLineTerminator (c : ascii) : bool :=
  Ascii.eqb c (ascii_of_nat 10) || Ascii.eqb c (ascii_of_nat 13).

Fixpoint noLineTerminator (s : string) : bool :=
  match s with
  | EmptyString => true
  | String c s' => negb (isLineTerminator c) && noLineTerminator s'
  end.

(** [url.replace(/[?#].*$/, '')]: the dot does not match a line terminator,
    so the match starts at the first [?] or [#] with none behind it *)
Fixpoint stripQueryHash (s : string) : string :=
  match s with
  | EmptyString => EmptyString
  | String c s' =>
      if (Ascii.eqb c "?"%char || Ascii.eqb c "#"%char) && noLineTerminator s'
      then EmptyString
      else String c (stripQueryHash s')
  end.

(** [url.replace(/\.(html|md)$/, '')] *)
Definition stripHtmlMd (s : string) : string :=
  if JS.endsWith s ".html" then JS.dropEnd 5 s
  else if JS.endsWith s ".md" then JS.dropEnd 3 s
  else s.

(** the link as the checker compares and reports it *)
Definition normalizeLink (url : string) : string :=
  let u := stripHtmlMd (stripQueryHash url) in
  if JS.endsWith u "/" then u +:+ "index" else u.

Section Links.

(** [VITE_EXTRA_EXTENSIONS] *)
Variable extraExts : string.
(** [new URL(url, 'http://a.com').pathname] *)
Variable pathnameOf : string -> string.
(** [path.relative(srcDir, path.resolve(dir, url))] *)
Variable relativeToSrc : string -> string.
(** [decodeURIComponent]; [None] when it throws *)
Variable decodeURIComponent : string -> option string.
(** [fs.existsSync(path.resolve(dir, publicDir, `${resolved}.html`))] *)
Variable publicHtmlExists : string -> bool.
(** the page list, extensions removed *)
Variable pages : list string.
(** [siteConfig.rewrites.inv] *)
Variable inv : gmap string string.
Variable ignoreDeadLinks : IgnoreDeadLinks.
(** [path.relative(srcDir, fileOrig)] *)
Variable fileRel : string.

(** One turn of the loop over [links]: the dead link it records, if any;
    the outer option is [None] when decoding throws. *)
Definition checkLink (link : string) : option (option DeadLink) :=
  if negb (Shared.treatAsHtml extraExts (pathnameOf link)) then Some None
  else
    let url := normalizeLink link in
    let target :=
      Shared.slash
        (if JS.startsWith url "/" then JS.drop 1 url else relativeToSrc url) in
    match decodeURIComponent target with
    | None => None
    | Some decoded =>
        let resolved :=
          match inv !! (decoded +:+ ".md") with
          | Some p =>
              if String.eqb (JS.dropEnd 3 p) "" then decoded else JS.dropEnd 3 p
          | None => decoded
          end in
        if negb (existsb (String.eqb resolved) pages)
           && negb (publicHtmlExists resolved)
           && negb (shouldIgnoreDeadLink ignoreDeadLinks url)
        then Some (Some {| url := url; file := fileRel |})
        else Some None
    end.

(** the loop over [links], appending to [deadLinks] *)
Fixpoint checkLinks (links : list string) (deadLinks : list DeadLink)
    : option (list DeadLink) :=
  match links with
  | [] => Some deadLinks
  | link :: rest =>
      match checkLink link with
      | None => None
      | Some None => checkLinks rest deadLinks
      | Some (Some d) => checkLinks rest (deadLinks ++ [d])
      end
  end.

End Links.

End MarkdownToVue.

(** ** The build plugin ([plugin.ts]) *)

Module Plugin.

Import MarkdownToVue.

Inductive Outcome :=
| Completed
| Thrown (message : string).

(** the warning of [renderStart] for the [i]-th dead link; colours left out *)
Definition deadLinkWarning (i : nat) (d : DeadLink) : string :=
  (if i =? 0 then JS.newline +:+ JS.newline else "") +:+
  "(!) Found dead link " +:+ url d +:+ " in file " +:+ file d.

Definition deadLinkHint : string :=
  JS.newline +:+
  "If this is expected, you can disable this check via config. Refer: https://vitepress.dev/reference/site-config#ignoredeadlinks" +:+
  JS.newline.

(** [renderStart]: what is logged, and how the hook ends *)
Definition renderStart (allDeadLinks : list DeadLink)
    : list Logger.LogEntry * Outcome :=
  if 0 <? length allDeadLinks then
    (imap (fun i d => Logger.Warn (deadLinkWarning i d)) allDeadLinks
       ++ [Logger.Info deadLinkHint],
     Thrown (JS.numberToString (length allDeadLinks) +:+ " dead link(s) found."))
  else ([], Completed).

Record OutputChunk := {
  name : string;
  fileName : string;
  preliminaryFileName : string;
  code : string;
  isEntry : bool;
  facadeModuleId : option string
}.

Inductive OutputItem :=
| Asset (assetFileName source : string)
| Chunk (c : OutputChunk).

(** [isPageChunk] *)
Definition isPageChunk (item : OutputItem) : bool :=
  match item with
  | Chunk c =>
      isEntry c &&
      match facadeModuleId c with
      | Some id => negb (String.eqb id "") && JS.endsWith id ".md"
      | None => false
      end
  | Asset _ _ => false
  end.

Definition isHashChar (c : ascii) : bool :=
  Ascii.eqb c "-"%char || JS.isWord c.

Fixpoint hashRun (s : string) : nat :=
  match s with
  | String c s' => if isHashChar c then S (hashRun s') else 0
  | EmptyString => 0
  end.

(** [hashRE = /\.([-\w]+)\.js$/] anchored at the head of the subject: the
    captured group *)
Definition hashAt (s : string) : option string :=
  match s with
  | String c s' =>
      let k := hashRun s' in
      if Ascii.eqb c "."%char && (0 <? k) && String.eqb (JS.drop k s') ".js"
      then Some (JS.take k s') else None
  | EmptyString => None
  end.

(** [fileName.match(hashRE)]: the captured group of the leftmost match *)
Fixpoint hashRE (s : string) : option string :=
  match hashAt s with
  | Some h => Some h
  | None =>
      match s with
      | EmptyString => None
      | String _ s' => hashRE s'
      end
  end.

Definition STATIC_START : string := "__VP_STATIC_START__".
Definition STATIC_END : string := "__VP_STATIC_END__".

Definition isQuote (c : ascii) : bool :=
  Ascii.eqb c "'"%char || Ascii.eqb c (ascii_of_nat 34) || Ascii.eqb c "`"%char.

Definition headIsQuote (s : string) : bool :=
  match s with
  | String c _ => isQuote c
  | EmptyString => false
  end.

(** the lazy tail of [staticStripRE]: any characters, then the end marker,
    then a quote character; the length up to and including the first end
    marker that a quote follows *)
Fixpoint staticEnd (s : string) : option nat :=
  if JS.startsWith s STATIC_END && headIsQuote (JS.drop 17 s) then Some 18
  else
    match s with
    | EmptyString => None
    | String _ s' => option_map S (staticEnd s')
    end.

(** [staticStripRE]: a quote character (single, double or backtick), the
    start marker, the lazy tail *)
Definition staticStripRE (s : string) : option nat :=
  match s with
  | String c s' =>
      if isQuote c && JS.startsWith s' STATIC_START
      then option_map (fun n => 20 + n) (staticEnd (JS.drop 19 s'))
      else None
  | EmptyString => None
  end.

(** [staticRestoreRE = /__VP_STATIC_(START|END)__/g] *)
Definition staticRestoreRE (s : string) : option nat :=
  if JS.startsWith s STATIC_START then Some 19
  else if JS.startsWith s STATIC_END then Some 17
  else None.

(** the text of an empty string literal *)
Definition emptyLiteral : string :=
  String (ascii_of_nat 34) (String (ascii_of_nat 34) EmptyString).

(** [code.replace(staticStripRE, `""`)] *)
Definition stripStatic (code : string) : string :=
  JS.replaceAll staticStripRE (fun _ _ _ => emptyLiteral) code.

(** [code.replace(staticRestoreRE, '')] *)
Definition restoreStatic (code : string) : string :=
  JS.replaceAll staticRestoreRE (fun _ _ _ => "") code.

Record BundleState := {
  bundle : gmap string OutputItem;
  pageToHashMap : gmap string string;
  emitted : list (string * string)
}.

(** the lean copy of a page chunk *)
Definition leanChunk (c : OutputChunk) : OutputChunk :=
  {| name := name c;
     fileName := JS.replaceSuffix ".js" ".lean.js" (fileName c);
     preliminaryFileName := JS.replaceSuffix ".js" ".lean.js" (preliminaryFileName c);
     code := stripStatic (code c);
     isEntry := isEntry c;
     facadeModuleId := facadeModuleId c |}.

(** the original chunk once its markers are removed *)
Definition restoredChunk (c : OutputChunk) : OutputChunk :=
  {| name := name c;
     fileName := fileName c;
     preliminaryFileName := preliminaryFileName c;
     code := restoreStatic (code c);
     isEntry := isEntry c;
     facadeModuleId := facadeModuleId c |}.

(** The body of the [for ... in] loop of [generateBundle] for the key
    [key]; [None] when [match] finds no hash and the [!] dereference throws. *)
Definition processChunk (key : string) (st : BundleState) : option BundleState :=
  match bundle st !! key with
  | Some (Chunk c) =>
      if isPageChunk (Chunk c) then
        match hashRE (fileName c) with
        | None => None
        | Some hash =>
            Some {| bundle :=
                      <[key := Chunk (restoredChunk c)]>
                        (<[key +:+ "-lean" := Chunk (leanChunk c)]> (bundle st));
                    pageToHashMap :=
                      <[JS.toLowerCase (name c) := hash]> (pageToHashMap st);
                    emitted := emitted st |}
        end
      else Some st
  | _ => Some st
  end.

Fixpoint processChunks (keys : list string) (st : BundleState) : option BundleState :=
  match keys with
  | [] => Some st
  | key :: rest =>
      match processChunk key st with
      | None => None
      | Some st' => processChunks rest st'
      end
  end.

(** [generateBundle]. [keys] are the keys of the bundle in the order of
    [for ... in], taken when the loop starts: keys added by the loop are not
    visited. *)
Definition generateBundle (ssr : bool) (keys : list string) (st : BundleState)
    : option BundleState :=
  if ssr then
    Some {| bundle := bundle st;
            pageToHashMap := pageToHashMap st;
            emitted := emitted st ++ [("package.json", "{ " +:+ JS.dq +:+ "private" +:+ JS.dq +:+ ": true, " +:+ JS.dq +:+ "type" +:+ JS.dq +:+ ": " +:+ JS.dq +:+ "module" +:+ JS.dq +:+ " }")] |}
  else processChunks keys st.

End Plugin.

(** ** The page-module loader of the client app ([client/app/index.ts]) *)

Module ClientApp.

(** [import.meta.env]: development server, server-side rendering, or the
    production client *)
Inductive Mode := Dev | Ssr | Prod.

(** the variables the loader closes over *)
Record LoaderState := {
  isInitialPageLoad : bool;
  initialPath : option string
}.

(** the state when [newRouter] returns *)
Definition newRouter (inBrowser : bool) : LoaderState :=
  {| isInitialPageLoad := inBrowser; initialPath := None |}.

(** a dynamic [import]: its specifier, and whether the development fallback
    to the other trailing-slash form is attached *)
Record Request := {
  specifier : string;
  devFallback : bool
}.

(** [pageFilePath.replace(/\.js$/, '.lean.js')] *)
Definition leanVariant (pageFilePath : string) : string :=
  JS.replaceSuffix ".js" ".lean.js" pageFilePath.

(** The loader passed to [createRouter], called for one path.
    [pageFilePath] is what [pathToFile(path)] returned ([None] for [null];
    the empty string is as good as [null] to the test of the loader),
    [now] is [Date.now()]. The result is the import started, if any, and the
    state left behind. *)
Definition loadPageModule (inBrowser : bool) (mode : Mode)
    (pageFilePath : option string) (now : nat) (st : LoaderState)
    : option Request * LoaderState :=
  let '(pageModule, st1) :=
    match pageFilePath with
    | Some EmptyString => (None, st)
    | Some file =>
        let st0 :=
          if isInitialPageLoad st
          then {| isInitialPageLoad := isInitialPageLoad st;
                  initialPath := Some file |}
          else st in
        let file' :=
          if isInitialPageLoad st0
             || match initialPath st0 with
                | Some p => String.eqb p file
                | None => false
                end
          then leanVariant file else file in
        let req :=
          match mode with
          | Dev => {| specifier := file'; devFallback := true |}
          | Ssr => {| specifier := file' +:+ "?t=" +:+ JS.numberToString now;
                      devFallback := false |}
          | Prod => {| specifier := file'; devFallback := false |}
          end in
        (Some req, st0)
    | None => (None, st)
    end in
  (pageModule,
   if inBrowser
   then {| isInitialPageLoad := false; initialPath := initialPath st1 |}
   else st1).

(** a session: the successive calls of the loader, each with the value of
    [pathToFile] and of the clock; the requests they start, in order *)
Fixpoint session (inBrowser : bool) (mode : Mode)
    (calls : list (option string * nat)) (st : LoaderState)
    : list (option Request) :=
  match calls with
  | [] => []
  | (file, now) :: rest =>
      let '(req, st') := loadPageModule inBrowser mode file now st in
      req :: session inBrowser mode rest st'
  end.

End ClientApp.

(** ** The client router ([client/app/router.ts]) *)

Module Router.

Import Shared.

Section Router.

Variable Component : Type.
Variable inBrowser : bool.
Variable withBase : string -> string.
(** [new URL(href, fakeHost).pathname] *)
Variable pathnameOf : string -> string.
Variable fallbackComponent : option Component.

Record Route := {
  path : string;
  component : option Component;
  data : PageData
}.

Definition getDefaultRoute : Route :=
  {| path := "/"; component := None; data := notFoundPageData |}.

Record PageModule := {
  __pageData : PageData;
  default : option Component
}.

(** how the promise of [loadPageModule] settles *)
Inductive ImportResult :=
| Loaded (page : PageModule)
| LoadedNull
| Rejected (message : string).

(** how [onBeforePageLoad] settles; an absent hook proceeds *)
Inductive HookResult :=
| HookProceed
| HookFalse
| HookThrow (message : string).

(** where a call of [loadPage] is suspended, or how it ended *)
Inductive TaskState :=
| AwaitHook
| AwaitImport (pendingPath : string)
| AwaitFetch (pendingPath : string)
| AwaitRetry (pendingPath : string) (child : nat)
| Returned
| Threw (message : string).

Record Task := {
  href : string;
  scrollPosition : nat;
  isRetry : bool;
  state : TaskState
}.

(** effects other than writes to the route *)
Inductive Action :=
| ImportRequested (pendingPath : string)
| HashMapRequested
| ConsoleError (message : string)
| NextTick (pendingPath : string) (scrollPosition : nat).

Record RouterState := {
  route : Route;
  latestPendingPath : option string;
  tasks : list Task;
  actions : list Action
}.

(** the router as [createRouter] returns it *)
Definition createRouter : RouterState :=
  {| route := getDefaultRoute; latestPendingPath := None;
     tasks := []; actions := [] |}.

Inductive Event :=
| Call (href : string) (scrollPosition : nat)
| HookDone (id : nat) (r : HookResult)
| ImportDone (id : nat) (r : ImportResult)
| FetchDone (id : nat) (ok : bool)
| Resume (id : nat).

Definition withState (t : Task) (s : TaskState) : Task :=
  {| href := href t; scrollPosition := scrollPosition t;
     isRetry := isRetry t; state := s |}.

(** the task [id] moves to the state [s] *)
Definition setState (id : nat) (s : TaskState) (ts : list Task) : list Task :=
  alter (fun t => withState t s) id ts.

Definition isPending (latest : option string) (pendingPath : string) : bool :=
  match latest with
  | Some p => String.eqb p pendingPath
  | None => false
  end.

(** the [relativePath] of the not-found data *)
Definition notFoundRelativePath (pendingPath : string) : string :=
  if inBrowser then
    let withIndex :=
      if String.eqb pendingPath "" || JS.endsWith pendingPath "/"
      then pendingPath +:+ "index" else pendingPath in
    let withMd :=
      if JS.endsWith withIndex ".html"
      then JS.dropEnd 5 withIndex +:+ ".md" else withIndex +:+ ".md" in
    JS.replacePrefix "/" "" withMd
  else "404.md".

Definition notFoundData (pendingPath : string) : PageData :=
  {| relativePath := notFoundRelativePath pendingPath;
     filePath := filePath notFoundPageData;
     title := title notFoundPageData;
     titleTemplate := titleTemplate notFoundPageData;
     description := description notFoundPageData;
     headers := headers notFoundPageData;
     frontmatter := frontmatter notFoundPageData;
     lastUpdated := lastUpdated notFoundPageData;
     isNotFound := isNotFound notFoundPageData |}.

Definition routePath (pendingPath : string) : string :=
  if inBrowser then pendingPath else withBase pendingPath.

(** the end of the [catch] block: the not-found route, unless superseded *)
Definition notFound (id : nat) (pendingPath : string) (st : RouterState)
    : RouterState :=
  if isPending (latestPendingPath st) pendingPath then
    {| route := {| path := routePath pendingPath;
                   component := fallbackComponent;
                   data := notFoundData pendingPath |};
       latestPendingPath := None;
       tasks := setState id Returned (tasks st);
       actions := actions st |}
  else
    {| route := route st; latestPendingPath := latestPendingPath st;
       tasks := setState id Returned (tasks st);
       actions := actions st |}.

Definition is404 (href : string) : bool :=
  String.eqb href "/404" || String.eqb href "/404.html" || String.eqb href "/404/".

(** the [catch] block, entered with the message of the error *)
Definition onError (id : nat) (t : Task) (pendingPath message : string)
    (st : RouterState) : RouterState :=
  let logged :=
    if negb (JS.includes message "fetch" || JS.includes message "Page not found")
       && negb (is404 (href t))
    then actions st ++ [ConsoleError message] else actions st in
  if negb (isRetry t) then
    {| route := route st; latestPendingPath := latestPendingPath st;
       tasks := setState id (AwaitFetch pendingPath) (tasks st);
       actions := logged ++ [HashMapRequested] |}
  else
    notFound id pendingPath
      {| route := route st; latestPendingPath := latestPendingPath st;
         tasks := tasks st; actions := logged |}.

(** [loadPage] and its continuations, one event at a time; [None] when the
    event cannot happen in the state *)
Definition step (st : RouterState) (e : Event) : option RouterState :=
  match e with
  | Call h scroll =>
      Some {| route := route st; latestPendingPath := latestPendingPath st;
              tasks := tasks st ++ [{| href := h; scrollPosition := scroll;
                                       isRetry := false; state := AwaitHook |}];
              actions := actions st |}
  | HookDone id r =>
      match tasks st !! id with
      | Some t =>
          match state t with
          | AwaitHook =>
              match r with
              | HookFalse =>
                  Some {| route := route st;
                          latestPendingPath := latestPendingPath st;
                          tasks := setState id Returned (tasks st);
                          actions := actions st |}
              | HookThrow m =>
                  Some {| route := route st;
                          latestPendingPath := latestPendingPath st;
                          tasks := setState id (Threw m) (tasks st);
                          actions := actions st |}
              | HookProceed =>
                  let pendingPath := pathnameOf (href t) in
                  Some {| route := route st;
                          latestPendingPath := Some pendingPath;
                          tasks := setState id (AwaitImport pendingPath) (tasks st);
                          actions := actions st ++ [ImportRequested pendingPath] |}
              end
          | _ => None
          end
      | None => None
      end
  | ImportDone id r =>
      match tasks st !! id with
      | Some t =>
          match state t with
          | AwaitImport pendingPath =>
              match r with
              | Loaded page =>
                  if isPending (latestPendingPath st) pendingPath then
                    match default page with
                    | Some comp =>
                        Some {| route := {| path := routePath pendingPath;
                                            component := Some comp;
                                            data := __pageData page |};
                                latestPendingPath := None;
                                tasks := setState id Returned (tasks st);
                                actions :=
                                  if inBrowser
                                  then actions st ++ [NextTick pendingPath (scrollPosition t)]
                                  else actions st |}
                    | None =>
                        Some (onError id t pendingPath
                                "Invalid route component: undefined"
                                {| route := route st; latestPendingPath := None;
                                   tasks := tasks st; actions := actions st |})
                    end
                  else
                    Some {| route := route st;
                            latestPendingPath := latestPendingPath st;
                            tasks := setState id Returned (tasks st);
                            actions := actions st |}
              | LoadedNull =>
                  Some (onError id t pendingPath
                          ("Page not found: " +:+ pendingPath) st)
              | Rejected m => Some (onError id t pendingPath m st)
              end
          | _ => None
          end
      | None => None
      end
  | FetchDone id ok =>
      match tasks st !! id with
      | Some t =>
          match state t with
          | AwaitFetch pendingPath =>
              if ok then
                Some {| route := route st;
                        latestPendingPath := latestPendingPath st;
                        tasks :=
                          setState id (AwaitRetry pendingPath (length (tasks st)))
                            (tasks st)
                          ++ [{| href := href t;
                                 scrollPosition := scrollPosition t;
                                 isRetry := true; state := AwaitHook |}];
                        actions := actions st |}
              else Some (notFound id pendingPath st)
          | _ => None
          end
      | None => None
      end
  | Resume id =>
      match tasks st !! id with
      | Some t =>
          match state t with
          | AwaitRetry pendingPath child =>
              match tasks st !! child with
              | Some c =>
                  match state c with
                  | Returned =>
                      Some {| route := route st;
                              latestPendingPath := latestPendingPath st;
                              tasks := setState id Returned (tasks st);
                              actions := actions st |}
                  | Threw _ => Some (notFound id pendingPath st)
                  | _ => None
                  end
              | None => None
              end
          | _ => None
          end
      | None => None
      end
  end.

(** a schedule: the events in the order they happen *)
Fixpoint run (st : RouterState) (es : list Event) : option RouterState :=
  match es with
  | [] => Some st
  | e :: rest =>
      match step st e with
      | Some st' => run st' rest
      | None => None
      end
  end.

Definition taskState (st : RouterState) (id : nat) : option TaskState :=
  state <$> tasks st !! id.

End Router.

Arguments Build_Route {Component} _ _ _.
Arguments path {Component} _.
Arguments component {Component} _.
Arguments data {Component} _.
Arguments getDefaultRoute {Component}.
Arguments Build_PageModule {Component} _ _.
Arguments __pageData {Component} _.
Arguments default {Component} _.
Arguments Loaded {Component} _.
Arguments LoadedNull {Component}.
Arguments Rejected {Component} _.
Arguments Build_RouterState {Component} _ _ _ _.
Arguments route {Component} _.
Arguments latestPendingPath {Component} _.
Arguments tasks {Component} _.
Arguments actions {Component} _.
Arguments createRouter {Component}.
Arguments Call {Component} _ _.
Arguments HookDone {Component} _ _.
Arguments ImportDone {Component} _ _.
Arguments FetchDone {Component} _ _.
Arguments Resume {Component} _.
Arguments notFound {Component} inBrowser withBase fallbackComponent id pendingPath st.
Arguments onError {Component} inBrowser withBase fallbackComponent id t pendingPath message st.
Arguments step {Component} inBrowser withBase pathnameOf fallbackComponent st e.
Arguments run {Component} inBrowser withBase pathnameOf fallbackComponent st es.
Arguments taskState {Component} st id.

End Router.

(** ** The statements of the specification, as definitions *)

Module SharedSpec.

Import Shared.

(** the page template, else the site template *)
Definition effectiveTemplate (site : SiteData) (page : PageData)
    : option TitleTemplate :=
  match titleTemplate page with
  | Some t => Some t
  | None => siteTitleTemplate site
  end.

(** the template with every placeholder replaced by the title, verbatim *)
Definition substituteLiteral (template title : string) : string :=
  JS.replaceAll (JS.literal ":title") (fun _ _ _ => title) template.

(** the suffix of the specification: empty for [false], the site title
    for [true] or no template, empty for the site title itself, the template
    otherwise *)
Definition titleSuffix (siteTitle : string) (template : option TitleTemplate)
    : string :=
  match template with
  | Some (TBool false) => ""
  | Some (TBool true) => " | " +:+ siteTitle
  | None => " | " +:+ siteTitle
  | Some (TString t) => if String.eqb t siteTitle then "" else " | " +:+ t
  end.

(** the title as the specification words it: the placeholder replaced by
    the page title, else the page title followed by the suffix *)
Definition claimedTitle (site : SiteData) (page : PageData) : string :=
  match effectiveTemplate site page with
  | Some (TString t) =>
      if JS.includes t ":title" then substituteLiteral t (title page)
      else title page +:+ titleSuffix (siteTitle site) (Some (TString t))
  | template => title page +:+ titleSuffix (siteTitle site) template
  end.

(** the title the code works with: the page title, the site title when the
    page has none *)
Definition effectiveTitle (site : SiteData) (page : PageData) : string :=
  if String.eqb (title page) "" then siteTitle site else title page.

Definition exampleSite (t : string) (template : option TitleTemplate) : SiteData :=
  {| siteTitle := t; siteTitleTemplate := template |}.

Definition examplePage (t : string) (template : option TitleTemplate) : PageData :=
  {| relativePath := "page.md"; filePath := "page.md"; title := t;
     titleTemplate := template; description := ""; headers := [];
     frontmatter := []; lastUpdated := None; isNotFound := false |}.

Definition isMeta (t : HeadConfig) : bool := String.eqb (tagType t) "meta".

(** a tag of the earlier list is shadowed when it is a [meta] tag with a
    first attribute, and some [meta] tag of the later list carries the same
    value under the key of that attribute *)
Definition shadowed (curr : list HeadConfig) (t : HeadConfig) : Prop :=
  tagType t = "meta" /\
  exists key value rest,
    tagAttrs t = (key, value) :: rest /\
    exists c, In c curr /\ tagType c = "meta" /\
              getAttr (tagAttrs c) key = Some value.

End SharedSpec.

Module MarkdownSpec.

Import MarkdownToVue.

(** what it is for one entry of the list to cover a link *)
Definition entryCovers (e : IgnoreEntry) (url : string) : Prop :=
  match e with
  | IgnoreString s => url = s
  | IgnoreRegExp test => test url = true
  | IgnoreFunction f => f url = true
  | IgnoreOther => False
  end.

(** the policy as the specification lists it: [true] covers every link, a
    list covers the links one of its entries covers *)
Definition claimedCovers (policy : IgnoreDeadLinks) (url : string) : Prop :=
  match policy with
  | IgnoreAll => True
  | IgnoreList entries => exists e, In e entries /\ entryCovers e url
  | _ => False
  end.

(** the policy with the [localhostLinks] setting added: it covers the links
    to a host whose name starts with [localhost] *)
Definition covers (policy : IgnoreDeadLinks) (url : string) : Prop :=
  match policy with
  | IgnoreLocalhostLinks => JS.startsWith (stripExternal url) "//localhost" = true
  | _ => claimedCovers policy url
  end.

End MarkdownSpec.

Module RewritesSpec.

Import Rewrites.

(** the round-trip law of the specification: every page that some rule
    matches is sent by the map to a path that the inverse sends back *)
Definition roundTrip {Params : Type} (rules : list (RewriteRule Params))
    (pages : list string) (rw : RewriteMaps) : Prop :=
  forall page,
    In page pages ->
    (exists r, In r rules /\ matchUrl r page <> None) ->
    exists dest, map rw !! page = Some dest /\ inv rw !! dest = Some page.

(** a rule in the manner of [(a|b).md -> index.md]: two pages, one target *)
Definition mergingRule : RewriteRule unit :=
  {| matchUrl := fun page =>
       if String.eqb page "a.md" || String.eqb page "b.md" then Some tt else None;
     toPath := fun _ => Some "/index.md" |}.

(** a rule in the manner of [packages/:pkg.md -> :pkg.md] *)
Definition renamingRule : RewriteRule string :=
  {| matchUrl := fun page =>
       if JS.startsWith page "packages/" then Some (JS.drop 9 page) else None;
     toPath := fun pkg => Some ("/" +:+ pkg) |}.

End RewritesSpec.

Module DynamicRoutesSpec.

Import DynamicRoutes.

(** a source tree with two pages and one route template, whose paths
    module lists two posts *)
Definition exampleResolveInSrc (p : string) : string := "/src/" +:+ p.

Definition exampleExistsSync (f : string) : bool :=
  String.eqb f "/src/post/[id].paths.js".

Definition exampleLoad (f : string) : option RouteModule :=
  Some {| modPaths :=
            Paths (Some [ {| params := [("id", "1")]; content := None |};
                          {| params := [("id", "2")]; content := None |} ]);
          dependencies := [] |}.

Definition exampleState : ResolveState :=
  {| routeModuleCache := ∅; routeFileToModulesMap := ∅; logged := [] |}.

(** the cache of paths modules holds nothing but what loading the file
    gives *)
Definition cacheConsistent (loadConfigFromFile : string -> option RouteModule)
    (st : ResolveState) : Prop :=
  forall f m, routeModuleCache st !! f = Some m -> loadConfigFromFile f = Some m.

(** what a route template contributes, read from the files alone *)
Definition routesOf (resolveInSrc : string -> string) (existsSync : string -> bool)
    (loadConfigFromFile : string -> option RouteModule) (route : string)
    : option (list ResolvedRouteConfig) :=
  match List.find existsSync (pathsFiles (resolveInSrc route)) with
  | None => Some []
  | Some pathsFile =>
      match loadConfigFromFile pathsFile with
      | None => Some []
      | Some m =>
          match modPaths m with
          | NoPaths => Some []
          | Paths None => None
          | Paths (Some l) => Some (resolveRoute resolveInSrc route l)
          end
      end
  end.

Fixpoint allRoutesOf (resolveInSrc : string -> string) (existsSync : string -> bool)
    (loadConfigFromFile : string -> option RouteModule) (routes : list string)
    : option (list ResolvedRouteConfig) :=
  match routes with
  | [] => Some []
  | r :: rest =>
      match routesOf resolveInSrc existsSync loadConfigFromFile r,
            allRoutesOf resolveInSrc existsSync loadConfigFromFile rest with
      | Some a, Some b => Some (a ++ b)
      | _, _ => None
      end
  end.

(** the page list of [resolvePages], when it returns one *)
Definition resolvedPageList {Params : Type} (resolveInSrc resolveInCwd : string -> string)
    (existsSync : string -> bool) (loadConfigFromFile : string -> option RouteModule)
    (globbed : list string) (rules : list (Rewrites.RewriteRule Params))
    (st : ResolveState) : option (list string) :=
  pages <$> fst (resolvePages resolveInSrc resolveInCwd existsSync
                   loadConfigFromFile globbed rules st).

End DynamicRoutesSpec.

Module PluginSpec.

Import Plugin.

(** a static region as [renderChunk] marks it: a string literal, quoted by
    [q1] and [q2], that holds the markers around the static markup *)
Definition staticRegion (q1 : ascii) (body : string) (q2 : ascii) : string :=
  String q1 (STATIC_START +:+ body +:+ STATIC_END +:+ String q2 "").

(** the keys of a bundle do not clash with the keys the hook adds *)
Definition leanKeysFree (keys : list string) : Prop :=
  forall k k', In k keys -> In k' keys -> k <> k' +:+ "-lean".

(** every page chunk listed under [keys] has a file name with a hash *)
Definition pageChunksHashed (keys : list string) (b : gmap string OutputItem) : Prop :=
  forall k c, In k keys -> b !! k = Some (Chunk c) ->
              isPageChunk (Chunk c) = true -> hashRE (fileName c) <> None.

(** no other page chunk listed under [keys] has the name of [c], up to case *)
Definition nameUnique (keys : list string) (b : gmap string OutputItem)
    (key : string) (c : OutputChunk) : Prop :=
  forall k' c', In k' keys -> k' <> key -> b !! k' = Some (Chunk c') ->
                isPageChunk (Chunk c') = true ->
                JS.toLowerCase (name c') <> JS.toLowerCase (name c).

(** what the loop leaves behind, relative to the state [st] it started in *)
Definition loopResult (keys : list string) (st st' : BundleState) : Prop :=
  (forall x, (forall k, In k keys -> x <> k /\ x <> k +:+ "-lean") ->
             bundle st' !! x = bundle st !! x) /\
  (forall n, (forall k c, In k keys -> bundle st !! k = Some (Chunk c) ->
                          isPageChunk (Chunk c) = true -> JS.toLowerCase (name c) <> n) ->
             pageToHashMap st' !! n = pageToHashMap st !! n) /\
  (forall k c, In k keys -> bundle st !! k = Some (Chunk c) ->
               isPageChunk (Chunk c) = true ->
               bundle st' !! k = Some (Chunk (restoredChunk c)) /\
               bundle st' !! (k +:+ "-lean") = Some (Chunk (leanChunk c)) /\
               (nameUnique keys (bundle st) k c ->
                forall h, hashRE (fileName c) = Some h ->
                          pageToHashMap st' !! JS.toLowerCase (name c) = Some h)) /\
  (forall k, In k keys ->
             (forall c, bundle st !! k = Some (Chunk c) -> isPageChunk (Chunk c) = false) ->
             bundle st' !! k = bundle st !! k) /\
  emitted st' = emitted st.

(** a page chunk with one static region, and a shared chunk *)
Definition examplePageChunk : OutputChunk :=
  {| name := "Guide_Intro.md";
     fileName := "assets/Guide_Intro.md.Dq3x-_9z.js";
     preliminaryFileName := "assets/Guide_Intro.md.!~{001}~.js";
     code := "const _hoisted_1 = createStaticVNode("
             +:+ staticRegion (ascii_of_nat 34) "<h1>Intro</h1>" (ascii_of_nat 34)
             +:+ ", 1)";
     isEntry := true;
     facadeModuleId := Some "/src/guide/intro.md" |}.

Definition exampleBundle : gmap string OutputItem :=
  <["assets/Guide_Intro.md.Dq3x-_9z.js" := Chunk examplePageChunk]>
    (<["assets/style.css" := Asset "assets/style.css" "body{}"]> ∅).

Definition exampleKeys : list string :=
  ["assets/Guide_Intro.md.Dq3x-_9z.js"; "assets/style.css"].

End PluginSpec.

Module ClientAppSpec.

Import ClientApp.

(** the import of a given variant of a page module *)
Definition requestFor (mode : Mode) (variant : string) (now : nat) : Request :=
  match mode with
  | Dev => {| specifier := variant; devFallback := true |}
  | Ssr => {| specifier := variant +:+ "?t=" +:+ JS.numberToString now;
              devFallback := false |}
  | Prod => {| specifier := variant; devFallback := false |}
  end.

(** the variant the specification asks for at position [i] of a session
    whose first load was for the module [first] *)
Definition expectedVariant (first : string) (i : nat) (file : string) : string :=
  if (i =? 0) || String.eqb file first then leanVariant file else file.

(** what a call requests once the first load is over; [first] is the
    module of that load, if it had one *)
Definition laterRequest (mode : Mode) (first : option string)
    (call : option string * nat) : option Request :=
  match fst call with
  | None => None
  | Some EmptyString => None
  | Some file =>
      Some (requestFor mode
              (match first with
               | Some f => if String.eqb f file then leanVariant file else file
               | None => file
               end)
              (snd call))
  end.

End ClientAppSpec.

Module RouterSpec.

Import Shared Router.

Section Claims.

Context {Component : Type}.
Variable inBrowser : bool.
Variable withBase : string -> string.
Variable pathnameOf : string -> string.
Variable fallbackComponent : option Component.

(** the ordering guarantee of the specification: once a later call for
    another path has registered, the import of an earlier call that
    resolves leaves the route alone *)
Definition supersededCallsAreDiscarded : Prop :=
  forall es st id id' p p' (m : PageModule Component) st',
    run inBrowser withBase pathnameOf fallbackComponent createRouter es = Some st ->
    taskState st id = Some (AwaitImport p) ->
    id < id' ->
    taskState st id' = Some (AwaitImport p') ->
    p <> p' ->
    step inBrowser withBase pathnameOf fallbackComponent st
      (ImportDone id (Loaded m)) = Some st' ->
    route st' = route st.

(** the recovery rule of the specification: a first load that failed is
    retried, however the request for the hash map ends *)
Definition failedLoadAlwaysRetried : Prop :=
  forall es (st : RouterState Component) id p ok st',
    run inBrowser withBase pathnameOf fallbackComponent createRouter es = Some st ->
    taskState st id = Some (AwaitFetch p) ->
    step inBrowser withBase pathnameOf fallbackComponent st (FetchDone id ok)
    = Some st' ->
    exists retry, tasks st' !! length (tasks st) = Some retry /\ isRetry retry = true.

(** the route of a page that was not found *)
Definition notFoundRoute (pendingPath : string) : Route Component :=
  {| path := routePath inBrowser withBase pendingPath;
     component := fallbackComponent;
     data := notFoundData inBrowser pendingPath |}.

(** the route of a loaded page *)
Definition loadedRoute (pendingPath : string) (comp : Component)
    (page : PageModule Component) : Route Component :=
  {| path := routePath inBrowser withBase pendingPath;
     component := Some comp;
     data := __pageData page |}.

End Claims.

(** a load that fails: the import resolves to nothing, or rejects *)
Definition isFailure {Component : Type} (r : ImportResult Component) : Prop :=
  match r with
  | Loaded _ => False
  | _ => True
  end.

(** the requests among the effects: imports and fetches of the hash map *)
Definition isRequest (a : Action) : bool :=
  match a with
  | ImportRequested _ => true
  | HashMapRequested => true
  | _ => false
  end.

Definition requests (l : list Action) : list Action := List.filter isRequest l.

Definition examplePageA : PageModule string :=
  {| __pageData := SharedSpec.examplePage "A" None; default := Some "A.vue" |}.

End RouterSpec.

(** * The rest of the cited files

    The functions around the ones above: the other string helpers of
    [shared.ts], the address helpers of the client router, the second
    import of the development loader, the hooks that hand the parameters of
    a dynamic route to the Markdown compiler, the small helpers of the
    development server, the local search index and the preview server, the
    head tags and links of the page renderer, the accounts of a run of the
    router, the merging of configurations, and the search for the chunks
    that are loaded with the entry. *)

(** ** More string primitives *)

Module JSString.

(** [s.charAt(i)]: the character as a string, empty out of range *)
Definition charAt (s : string) (i : nat) : string :=
  match String.get i s with
  | Some c => String c EmptyString
  | None => EmptyString
  end.

(** [c.repeat(n)] for a one-character string *)
Fixpoint repeat (c : ascii) (n : nat) : string :=
  match n with
  | O => EmptyString
  | S k => String c (repeat c k)
  end.

(** the subject is [name], or ends with a slash and [name]: whether
    [(^|\/)name$] matches, for a [name] without special characters *)
Definition endsWithSegment (s name : string) : bool :=
  String.eqb s name || JS.endsWith s ("/" +:+ name).

(** [String.prototype.replace] with an expression that is not global: the
    leftmost match is replaced and the rest is copied. [matchAt] is as for
    [JS.replaceGo], and may match the empty string. *)
Fixpoint replaceFirstGo (matchAt : string -> option nat)
    (subst : string -> string -> string -> string) (pre s : string) : string :=
  match matchAt s with
  | Some n => subst pre (JS.take n s) (JS.drop n s) +:+ JS.drop n s
  | None =>
      match s with
      | EmptyString => EmptyString
      | String c s' =>
          String c (replaceFirstGo matchAt subst (pre +:+ String c EmptyString) s')
      end
  end.

Definition replaceFirst (matchAt : string -> option nat)
    (subst : string -> string -> string -> string) (s : string) : string :=
  replaceFirstGo matchAt subst EmptyString s.

(** [s.indexOf(p)] *)
Fixpoint indexOf (p s : string) : option nat :=
  if JS.startsWith s p then Some 0
  else
    match s with
    | EmptyString => None
    | String _ s' => option_map S (indexOf p s')
    end.

End JSString.

(** ** File names and expression text ([shared.ts]) *)

Module FileNames.

(** the class of [INVALID_CHAR_REGEX]: the control characters, DEL and
    twenty punctuation marks *)
Definition isInvalidChar (c : ascii) : bool :=
  (nat_of_ascii c <=? 31) || (nat_of_ascii c =? 127) ||
  existsb (Ascii.eqb c)
    [ascii_of_nat 34; "#"; "$"; "&"; "*"; "+"; ","; ":"; ";"; "<"; "="; ">";
     "?"; "["; "]"; "^"; "`"; "{"; "|"; "}"]%char.

(** [INVALID_CHAR_REGEX], anchored at the head of the subject *)
Definition INVALID_CHAR_REGEX (s : string) : option nat :=
  match s with
  | String c _ => if isInvalidChar c then Some 1 else None
  | EmptyString => None
  end.

(** [DRIVE_LETTER_REGEX.exec(name)]: the text matched *)
Definition DRIVE_LETTER_REGEX (name : string) : option string :=
  match name with
  | String c (String d _) =>
      if Shared.isLetter c && Ascii.eqb d ":"%char
      then Some (String c (String d EmptyString)) else None
  | _ => None
  end.

Fixpoint dropUnderscores (s : string) : string :=
  match s with
  | String c s' => if Ascii.eqb c "_"%char then dropUnderscores s' else s
  | EmptyString => EmptyString
  end.

(** [s.replace(/(^|\/)_+(?=[^/]*$)/, '$1')]. [atStart] tells that the
    subject is read from its start or from behind a slash, where the group
    has just matched; the run of underscores is then dropped if no slash
    follows, and the rest is copied, the expression not being global. *)
Fixpoint trimUnderscores (atStart : bool) (s : string) : string :=
  match s with
  | EmptyString => EmptyString
  | String c s' =>
      if atStart && Ascii.eqb c "_"%char && negb (JS.includes s "/")
      then dropUnderscores s
      else String c (trimUnderscores (Ascii.eqb c "/"%char) s')
  end.

(** [sanitizeFileName] *)
Definition sanitizeFileName (name : string) : string :=
  let driveLetter :=
    match DRIVE_LETTER_REGEX name with
    | Some m => m
    | None => ""
    end in
  driveLetter +:+
  trimUnderscores true
    (JS.replaceAll INVALID_CHAR_REGEX (fun _ _ _ => "_")
       (JS.drop (String.length driveLetter) name)).

(** the class of the first expression of [escapeRegExp] *)
Definition isRegExpSpecial (c : ascii) : bool :=
  existsb (Ascii.eqb c)
    ["|"; "\"; "{"; "}"; "("; ")"; "["; "]"; "^"; "$"; "+"; "*"; "?"; "."]%char.

Definition SPECIAL_RE (s : string) : option nat :=
  match s with
  | String c _ => if isRegExpSpecial c then Some 1 else None
  | EmptyString => None
  end.

(** [escapeRegExp] *)
Definition escapeRegExp (str : string) : string :=
  JS.replaceAll (JS.literal "-")
    (fun before matched after => JS.getSubstitution before matched after "\x2d")
    (JS.replaceAll SPECIAL_RE
       (fun before matched after => JS.getSubstitution before matched after "\$&")
       str).

End FileNames.

Module FileNamesSpec.

Import FileNames.

(** every character of the string is outside the invalid class *)
Fixpoint allValid (s : string) : bool :=
  match s with
  | EmptyString => true
  | String c s' => negb (isInvalidChar c) && allValid s'
  end.

(** the characters of the string are neither special nor hyphens *)
Fixpoint isPlain (s : string) : bool :=
  match s with
  | EmptyString => true
  | String c s' =>
      negb (isRegExpSpecial c) && negb (Ascii.eqb c "-"%char) && isPlain s'
  end.

(** what the two replacements of [escapeRegExp] put for one character *)
Definition escapeChar (c : ascii) : string :=
  if isRegExpSpecial c then String "\"%char (String c "")
  else if Ascii.eqb c "-"%char then "\x2d"
  else String c "".

Fixpoint escapeChars (s : string) : string :=
  match s with
  | EmptyString => EmptyString
  | String c s' => escapeChar c +:+ escapeChars s'
  end.

(** the invalid characters replaced one by one *)
Fixpoint sanitizeChars (s : string) : string :=
  match s with
  | EmptyString => EmptyString
  | String c s' =>
      String (if isInvalidChar c then "_"%char else c) (sanitizeChars s')
  end.

End FileNamesSpec.

(** ** The site data ([config.ts]) *)

Module SiteConfig.

(** the [base] of [resolveSiteData]:
    [userConfig.base ? userConfig.base.replace(/([^/])$/, '$1/') : '/'];
    [None] is an absent [base], and the empty string is as good as none *)
Definition resolveBase (base : option string) : string :=
  match base with
  | None => "/"
  | Some EmptyString => "/"
  | Some b => if JS.endsWith b "/" then b else b +:+ "/"
  end.

End SiteConfig.

(** ** Addresses in the client router ([client/app/router.ts]) *)

Module RouterPaths.

Import JSString.

(** what [new URL(href, fakeHost)] gives *)
Record URL := {
  pathname : string;
  search : string;
  hash : string
}.

(** [pathname.replace(/(^|\/)index(\.html)?$/, '$1')] *)
Definition stripIndex (pathname : string) : string :=
  if endsWithSegment pathname "index.html" then JS.dropEnd 10 pathname
  else if endsWithSegment pathname "index" then JS.dropEnd 5 pathname
  else pathname.

(** the pathname [normalizeHref] leaves in the URL *)
Definition normalizePathname (cleanUrls : bool) (pathname : string) : string :=
  let p := stripIndex pathname in
  if cleanUrls then JS.replaceSuffix ".html" "" p
  else if negb (JS.endsWith p "/") && negb (JS.endsWith p ".html")
       then p +:+ ".html" else p.

(** [normalizeHref], on the parsed URL *)
Definition normalizeHref (cleanUrls : bool) (url : URL) : string :=
  normalizePathname cleanUrls (pathname url) +:+ search url +:+ hash url.

(** [path.replace(/(?:(^|\/)index)?\.md$/, '$1')] *)
Definition stripIndexMd (path : string) : string :=
  if endsWithSegment path "index.md" then JS.dropEnd 8 path
  else if JS.endsWith path ".md" then JS.dropEnd 3 path
  else path.

(** [pathname.replace(/(?:(^|\/)index)?\.html$/, '')]: the slash before
    [index] goes as well *)
Definition stripIndexHtml (pathname : string) : string :=
  if endsWithSegment pathname "index.html" then JS.dropEnd 11 pathname
  else if JS.endsWith pathname ".html" then JS.dropEnd 5 pathname
  else pathname.

(** the [actualPathname] of the callback that [loadPage] hands to
    [nextTick] *)
Definition actualPathname (base : string) (cleanUrls : bool)
    (relativePath : string) : string :=
  let p := base +:+ stripIndexMd relativePath in
  if negb cleanUrls && negb (JS.endsWith p "/") then p +:+ ".html" else p.

(** [s.slice(base.length - 1)]; for an empty [base] the index is [-1] and
    the slice is the last character *)
Definition sliceBase (base s : string) : string :=
  match String.length base with
  | O => JS.drop (String.length s - 1) s
  | S k => JS.drop k s
  end.

(** [shouldHotReload]: [payloadPath] is [payload.path], [locationPathname]
    is [location.pathname], [base] is [siteDataRef.value.base] *)
Definition shouldHotReload (base locationPathname payloadPath : string) : bool :=
  String.eqb (stripIndexMd payloadPath)
    (sliceBase base (stripIndexHtml locationPathname)).

End RouterPaths.

(** ** The second import of the development loader ([client/app/index.ts]) *)

Module ClientAppDev.

Import RouterPaths.

(** the path of the second import, from the pathname of the first *)
Definition devFallbackPathname (pathname : string) : string :=
  if JS.endsWith pathname "/index.md" then JS.dropEnd 9 pathname +:+ ".md"
  else JS.dropEnd 3 pathname +:+ "/index.md".

(** the specifier of the second import; [url] is
    [new URL(pageFilePath, 'http://a.com')] *)
Definition devFallback (url : URL) : string :=
  devFallbackPathname (pathname url) +:+ search url +:+ hash url.

End ClientAppDev.

(** ** The parameters of a dynamic route, from the plugin to the compiler
    ([dynamicRoutesPlugin.ts], [markdownToVue.ts]) *)

Module RouteParams.

Import JSString DynamicRoutes.

Definition PARAMS_START : string := "__VP_PARAMS_START".
Definition PARAMS_END : string := "__VP_PARAMS_END__".

(** the class [\s], among the characters below 256 *)
Definition isSpace (c : ascii) : bool :=
  existsb (Nat.eqb (nat_of_ascii c)) [9; 10; 11; 12; 13; 32; 160].

Fixpoint spaceRun (s : string) : nat :=
  match s with
  | String c s' => if isSpace c then S (spaceRun s') else 0
  | EmptyString => 0
  end.

(** [/<!--\s*@content\s*-->/], anchored at the head of the subject *)
Definition contentMarkerRE (s : string) : option nat :=
  if JS.startsWith s "<!--" then
    let s1 := JS.drop 4 s in
    let k1 := spaceRun s1 in
    if JS.startsWith (JS.drop k1 s1) "@content" then
      let s2 := JS.drop 8 (JS.drop k1 s1) in
      let k2 := spaceRun s2 in
      if JS.startsWith (JS.drop k2 s2) "-->" then Some (4 + k1 + 8 + k2 + 3)
      else None
    else None
  else None.

(** how a call of the [load] hook ends: it leaves the module to others, it
    throws, or it returns the source of the page *)
Inductive LoadResult :=
| NotHandled
| LoadThrows
| Source (code : string).

(** the module sets of [fileToModulesMap]: [owners] sends a key to the
    route file whose set it shares, [members] holds the set of each route
    file *)
Record ModuleSets := {
  owners : gmap string string;
  members : gmap string (gset string)
}.

Section Load.

(** [normalizePath(path.resolve(config.srcDir, route))] *)
Variable resolveInSrc : string -> string.
(** [fs.readFileSync(routeFile, 'utf-8')] *)
Variable readFileSync : string -> string.
(** [JSON.stringify(params)] *)
Variable stringify : list (string * string) -> string.

(** the source of the page of a route: the parameters between their
    markers, then the template, with the content put in *)
Definition pageSource (matched : ResolvedRouteConfig) : string :=
  let routeFile := resolveInSrc (route matched) in
  let baseContent := readFileSync routeFile in
  let baseContent :=
    match routeContent matched with
    | Some content =>
        if String.eqb content "" then baseContent
        else replaceFirst contentMarkerRE
               (fun before matched after =>
                  JS.getSubstitution before matched after content)
               baseContent
    | None => baseContent
    end in
  PARAMS_START +:+ stringify (routeParams matched) +:+ PARAMS_END +:+ baseContent.

(** the [load] hook of [dynamicRoutesPlugin] *)
Definition load (routes : list ResolvedRouteConfig) (id : string)
    (sets : ModuleSets) : LoadResult * ModuleSets :=
  match List.find (fun r => String.eqb (fullPath r) id) routes with
  | None => (NotHandled, sets)
  | Some matched =>
      let routeFile := resolveInSrc (route matched) in
      match owners sets !! routeFile with
      | None => (LoadThrows, sets)
      | Some owner =>
          (Source (pageSource matched),
           {| owners := owners sets;
              members :=
                <[owner := default ∅ (members sets !! owner) ∪ {[id]}]>
                  (members sets) |})
      end
  end.

End Load.

(** the first step of the function that [createMarkdownToVueRenderFn]
    returns: [src.replace(/^__VP_PARAMS_START([^]+?)__VP_PARAMS_END__/, ...)].
    The result is the text handed to [JSON.parse], if the expression
    matched, and the source without the match. *)
Definition extractParams (src : string) : option string * string :=
  if JS.startsWith src PARAMS_START then
    match JS.drop 17 src with
    | String c rest =>
        match indexOf PARAMS_END rest with
        | Some k => (Some (String c (JS.take k rest)), JS.drop (k + 17) rest)
        | None => (None, src)
        end
    | EmptyString => (None, src)
    end
  else (None, src).

End RouteParams.

Module RouteParamsSpec.

Import DynamicRoutes RouteParams.

(** one page of the route [post/[id].md], its module set, and a stand-in
    for [JSON.stringify] *)
Definition exampleRoute : ResolvedRouteConfig :=
  {| route := "post/[id].md"; path := "post/1.md"; fullPath := "/src/post/1.md";
     routeParams := [("id", "1")]; routeContent := None |}.

Definition exampleSets : ModuleSets :=
  {| owners := {["/src/post/[id].md" := "/src/post/[id].md"]}; members := ∅ |}.

Definition exampleStringify (ps : list (string * string)) : string :=
  "{" +:+ String.concat "," (map (fun kv => fst kv +:+ ":" +:+ snd kv) ps) +:+ "}".

End RouteParamsSpec.

(** ** The development server ([plugin.ts]) *)

Module DevServer.

(** the part of [s] before the first [c]: [s.replace(/c.*$/s, '')], where
    the dot matches every character *)
Fixpoint upTo (c : ascii) (s : string) : string :=
  match s with
  | EmptyString => EmptyString
  | String a s' => if Ascii.eqb a c then EmptyString else String a (upTo c s')
  end.

(** [cleanUrl] *)
Definition cleanUrl (url : string) : string :=
  upTo "?"%char (upTo "#"%char url).

End DevServer.

(** ** The local search index ([localSearchPlugin.ts]) *)

Module LocalSearch.

Import JSString.

(** the tail [[^>]*>] of a tag: the length up to and including the first
    [>] *)
Fixpoint tagEnd (s : string) : option nat :=
  match s with
  | EmptyString => None
  | String c s' => if Ascii.eqb c ">"%char then Some 1 else option_map S (tagEnd s')
  end.

(** [/<[^>]*>/g], anchored at the head of the subject *)
Definition tagRE (s : string) : option nat :=
  match s with
  | String c s' => if Ascii.eqb c "<"%char then option_map S (tagEnd s') else None
  | EmptyString => None
  end.

(** [clearHtmlTags] *)
Definition clearHtmlTags (str : string) : string :=
  JS.replaceAll tagRE (fun _ _ _ => "") str.

(** [getSearchableText] *)
Definition getSearchableText (content : string) : string :=
  clearHtmlTags content.

Section DocId.

(** [slash(path.relative(siteConfig.srcDir, file))] *)
Variable relativeToSrc : string -> string.
(** [siteConfig.rewrites.map] *)
Variable rewritesMap : gmap string string.
(** [slash(path.join(siteConfig.site.base, relFile))] *)
Variable joinBase : string -> string.
Variable cleanUrls : bool.

(** [getDocId] *)
Definition getDocId (file : string) : string :=
  let relFile := relativeToSrc file in
  let relFile :=
    match rewritesMap !! relFile with
    | Some r => if String.eqb r "" then relFile else r
    | None => relFile
    end in
  let id := joinBase relFile in
  let id := if endsWithSegment id "index.md" then JS.dropEnd 8 id else id in
  JS.replaceSuffix ".md" (if cleanUrls then "" else ".html") id.

End DocId.

End LocalSearch.

Module LocalSearchSpec.

(** no [<] of the string has a [>] behind it *)
Fixpoint noTag (s : string) : bool :=
  match s with
  | EmptyString => true
  | String c s' =>
      (if Ascii.eqb c "<"%char then negb (JS.includes s' ">") else true)
      && noTag s'
  end.

End LocalSearchSpec.

(** ** The preview server ([serve.ts]) *)

Module Serve.

Import JSString.

(** the first loop of [trimChar]: [None] when the fuel runs out *)
Fixpoint trimStart (fuel : nat) (str char : string) : option string :=
  match fuel with
  | O => None
  | S f =>
      if String.eqb (charAt str 0) char then trimStart f (JS.drop 1 str) char
      else Some str
  end.

(** the second loop; [str.length - 1] is [-1] for the empty string, where
    [charAt] gives the empty string as it does at 0, and [substring(0, -1)]
    the empty string *)
Fixpoint trimEnd (fuel : nat) (str char : string) : option string :=
  match fuel with
  | O => None
  | S f =>
      if String.eqb (charAt str (String.length str - 1)) char
      then trimEnd f (JS.take (String.length str - 1) str) char
      else Some str
  end.

(** [trimChar] *)
Definition trimChar (fuel : nat) (str char : string) : option string :=
  match trimStart fuel str char with
  | Some s => trimEnd fuel s char
  | None => None
  end.

End Serve.

(** ** Rendering a page ([render.ts]) *)

Module Render.

Import Shared.

(** a [meta] tag whose [name] attribute is [name] *)
Definition isMetaNamed (name : string) (t : HeadConfig) : bool :=
  String.eqb (tagType t) "meta" &&
  match getAttr (tagAttrs t) "name" with
  | Some v => String.eqb v name
  | None => false
  end.

(** [filterOutHeadDescription] *)
Definition filterOutHeadDescription (head : list HeadConfig) : list HeadConfig :=
  List.filter (fun t => negb (isMetaNamed "description" t)) head.

(** [isDescriptionOverridden] *)
Definition isDescriptionOverridden (head : list HeadConfig) : bool :=
  existsb (isMetaNamed "description") head.

(** [isMetaViewportOverridden] *)
Definition isMetaViewportOverridden (head : list HeadConfig) : bool :=
  existsb (isMetaNamed "viewport") head.

(** [[...new Set(l)]]: the first occurrence of each element, in order;
    [seen] are the elements already in the set *)
Fixpoint dedupe (seen l : list string) : list string :=
  match l with
  | [] => []
  | x :: rest =>
      if existsb (String.eqb x) seen then dedupe seen rest
      else x :: dedupe (x :: seen) rest
  end.

(** [sanitizeFileName(page.replace(/\//g, '_'))] *)
Definition pageName (page : string) : string :=
  FileNames.sanitizeFileName
    (JS.replaceAll (JS.literal "/") (fun _ _ _ => "_") page).

(** [pageClientJsFileName]; a page without a hash gets the text
    [undefined] in its place *)
Definition pageClientJsFileName (assetsDir page : string)
    (pageToHashMap : gmap string string) : string :=
  let pageHash :=
    match pageToHashMap !! JS.toLowerCase (pageName page) with
    | Some h => h
    | None => "undefined"
    end in
  assetsDir +:+ "/" +:+ pageName page +:+ "." +:+ pageHash +:+ ".lean.js".

(** what [resolvePageImports] reads of a chunk of the client build *)
Record ChunkImports := {
  facade : option string;
  imports : list string;
  dynamicImports : list string
}.

Section Links.

(** [config.rewrites.inv] *)
Variable inv : gmap string string.
(** the source path of a page: resolved in the source directory, followed
    through symbolic links where that is asked for, and normalized *)
Variable srcPathOf : string -> string.

(** [resolvePageImports]; [None] when no chunk has the page as its facade
    and reading its imports throws *)
Definition resolvePageImports (page : string) (output : list ChunkImports)
    (appChunk : ChunkImports) : option (list string) :=
  let page :=
    match inv !! page with
    | Some p => if String.eqb p "" then page else p
    | None => page
    end in
  let srcPath := srcPathOf page in
  match List.find
          (fun chunk =>
             match facade chunk with
             | Some id => String.eqb id srcPath
             | None => false
             end)
          output with
  | Some pageChunk =>
      Some (imports appChunk ++ dynamicImports appChunk
            ++ imports pageChunk ++ dynamicImports pageChunk)
  | None => None
  end.

(** the links of [renderPage]: those to preload and those to prefetch.
    [result] is the output of the client build and [appChunk] its entry, if
    there are any; [shouldPreload] is the hook of the configuration. The
    result is [None] when [resolvePageImports] throws. *)
Definition pageLinks (mpa hasCustom404 : bool) (page : string)
    (result : option (list ChunkImports)) (appChunk : option ChunkImports)
    (pageClientJs : string) (shouldPreload : option (string -> string -> bool))
    : option (list string * list string) :=
  let preloadLinks :=
    if mpa || (negb hasCustom404 && String.eqb page "404.md") then Some []
    else
      match result, appChunk with
      | Some output, Some app =>
          match resolvePageImports page output app with
          | Some l => Some (dedupe [] (l ++ [pageClientJs]))
          | None => None
          end
      | _, _ => Some []
      end in
  match preloadLinks with
  | None => None
  | Some links =>
      match shouldPreload with
      | Some f =>
          Some (List.filter (fun link => f link page) links,
                List.filter (fun link => negb (f link page)) links)
      | None => Some (links, [])
      end
  end.

End Links.

(** [toHeadTags] *)
Definition toHeadTags (base : string) (files : list string) (rel : string)
    : list HeadConfig :=
  List.map
    (fun file =>
       {| tagType := "link";
          tagAttrs :=
            [("rel", rel);
             ("href", (if isExternal file then "" else base) +:+ file)];
          tagContent := None |})
    files.

(** [headBeforeTransform]: the tags added by the build, the links, and the
    head of the site merged with the head of the page *)
Definition headBeforeTransform (additionalHeadTags preloadHeadTags
    prefetchHeadTags siteHead pageHead : list HeadConfig) : list HeadConfig :=
  additionalHeadTags ++ preloadHeadTags ++ prefetchHeadTags ++
  mergeHead siteHead (filterOutHeadDescription pageHead).

End Render.

Module RenderSpec.

Import Shared Plugin Render.

Definition exampleDescription (text : string) : HeadConfig :=
  {| tagType := "meta";
     tagAttrs := [("name", "description"); ("content", text)];
     tagContent := None |}.

(** the entry chunk and the chunk of the page [guide/intro.md] *)
Definition exampleAppChunk : ChunkImports :=
  {| facade := Some "/app/index.js";
     imports := ["assets/framework.js"]; dynamicImports := [] |}.

Definition exampleIntroChunk : ChunkImports :=
  {| facade := Some "/src/guide/intro.md";
     imports := ["assets/framework.js"; "assets/theme.js"];
     dynamicImports := [] |}.

(** a bundle whose page chunk carries the name [renderPage] computes for
    the page [guide/intro.md] *)
Definition linkedPageChunk : OutputChunk :=
  {| name := "guide_intro.md";
     fileName := "assets/guide_intro.md.Dq3x-_9z.js";
     preliminaryFileName := "assets/guide_intro.md.!~{001}~.js";
     code := "export default {}";
     isEntry := true;
     facadeModuleId := Some "/src/guide/intro.md" |}.

Definition linkedBundle : gmap string OutputItem :=
  <["assets/guide_intro.md.Dq3x-_9z.js" := Chunk linkedPageChunk]>
    (<["assets/style.css" := Asset "assets/style.css" "body{}"]> ∅).

Definition linkedKeys : list string :=
  ["assets/guide_intro.md.Dq3x-_9z.js"; "assets/style.css"].

End RenderSpec.

(** ** What a run of the router asks for ([client/app/router.ts]) *)

Module RouterTrace.

Import Shared Router.

(** the path a suspended call of [loadPage] holds in [pendingPath] *)
Definition pendingPathOf (s : TaskState) : option string :=
  match s with
  | AwaitImport p => Some p
  | AwaitFetch p => Some p
  | AwaitRetry p _ => Some p
  | _ => None
  end.

Definition isImportRequested (a : Action) : bool :=
  match a with
  | ImportRequested _ => true
  | _ => false
  end.

Definition isHashMapRequested (a : Action) : bool :=
  match a with
  | HashMapRequested => true
  | _ => false
  end.

(** the number of elements that pass a test *)
Definition count {A : Type} (f : A -> bool) (l : list A) : nat :=
  length (List.filter f l).

(** a first attempt that may still come to fetch the hash map *)
Definition mayFetch (t : Task) : bool :=
  negb (isRetry t) &&
  match state t with
  | AwaitHook => true
  | AwaitImport _ => true
  | _ => false
  end.

Definition inFetch (t : Task) : bool :=
  match state t with
  | AwaitFetch _ => true
  | _ => false
  end.

Definition inHook (t : Task) : bool :=
  match state t with
  | AwaitHook => true
  | _ => false
  end.

Section Trace.

Context {Component : Type}.
Variable inBrowser : bool.
Variable withBase : string -> string.
Variable pathnameOf : string -> string.

(** the addresses [loadPage] was called with from outside *)
Definition calledHrefs (es : list (Event Component)) : list string :=
  flat_map (fun e => match e with Call h _ => [h] | _ => [] end) es.

(** what an event other than a call does to the call [t] it continues: the
    state the call moves to, the calls it starts, and the effects *)
Inductive Effect (t : Task) : TaskState -> list Task -> list Action -> Prop :=
| HookEnds s :
    state t = AwaitHook -> s = Returned \/ (exists m, s = Threw m) ->
    Effect t s [] []
| HookProceeds :
    state t = AwaitHook ->
    Effect t (AwaitImport (pathnameOf (href t))) []
      [ImportRequested (pathnameOf (href t))]
| ImportEnds p acts :
    state t = AwaitImport p ->
    Forall (fun a => RouterSpec.isRequest a = false) acts ->
    Effect t Returned [] acts
| ImportFails p acts :
    state t = AwaitImport p -> isRetry t = false ->
    Forall (fun a => RouterSpec.isRequest a = false) acts ->
    Effect t (AwaitFetch p) [] (acts ++ [HashMapRequested])
| FetchOk p child :
    state t = AwaitFetch p ->
    Effect t (AwaitRetry p child)
      [{| href := href t; scrollPosition := scrollPosition t;
          isRetry := true; state := AwaitHook |}] []
| FetchFails p :
    state t = AwaitFetch p -> Effect t Returned [] []
| Resumes p child :
    state t = AwaitRetry p child -> Effect t Returned [] [].

(** what an event other than a call changes: it continues one call *)
Definition continues (st st' : RouterState Component) : Prop :=
  exists id t s extra acts,
    tasks st !! id = Some t /\
    tasks st' = setState id s (tasks st) ++ extra /\
    actions st' = actions st ++ acts /\
    Effect t s extra acts /\
    (route st' = route st \/
     exists p, pendingPathOf (state t) = Some p /\
       path (route st') = routePath inBrowser withBase p).

(** every call was made for one of the addresses [hrefs], every pending
    path is the pathname of the address of its call, and the route is the
    initial one or shows the pathname of one of the addresses *)
Definition fromCalls (hrefs : list string) (st : RouterState Component)
    : Prop :=
  (forall id t, tasks st !! id = Some t ->
     In (href t) hrefs /\
     forall p, pendingPathOf (state t) = Some p -> p = pathnameOf (href t)) /\
  (route st = getDefaultRoute \/
   exists h, In h hrefs /\
     path (route st) = routePath inBrowser withBase (pathnameOf h)).

(** the accounts of a run after [calls] calls from outside *)
Definition balanced (calls : nat) (st : RouterState Component) : Prop :=
  count isHashMapRequested (actions st) + count mayFetch (tasks st) <= calls /\
  count isRetry (tasks st) + count inFetch (tasks st)
  <= count isHashMapRequested (actions st) /\
  count isImportRequested (actions st) + count inHook (tasks st)
  <= length (tasks st) /\
  length (tasks st) <= calls + count isRetry (tasks st).

End Trace.

End RouterTrace.

(** ** Merging configurations ([node/config.ts]) *)

Module Config.

(** a configuration value: [VObject] is what [isObject] accepts, with its
    own enumerable keys in order; [VAtom] is any other value that is
    neither [null], [undefined] nor an array *)
#[warnings="-register-all"] Inductive Value :=
| VUndefined
| VNull
| VAtom (text : string)
| VArray (items : list Value)
| VObject (fields : list (string * Value)).

(** [obj[key]] *)
Fixpoint getField (key : string) (fields : list (string * Value)) : Value :=
  match fields with
  | [] => VUndefined
  | (k, x) :: rest => if String.eqb k key then x else getField key rest
  end.

(** [obj[key] = v] *)
Fixpoint setField (key : string) (v : Value) (fields : list (string * Value))
    : list (string * Value) :=
  match fields with
  | [] => [(key, v)]
  | (k, x) :: rest =>
      if String.eqb k key then (k, v) :: rest
      else (k, x) :: setField key v rest
  end.

Section Merge.

Variable mergeViteConfig :
  list (string * Value) -> list (string * Value) -> Value.

(** the body of the loop over the keys of [b]; [mergeConfig] is the
    recursive call, which takes the object [value] whole *)
Definition mergeKey
    (mergeConfig : list (string * Value) -> Value -> list (string * Value))
    (isRoot : bool) (merged : list (string * Value)) (entry : string * Value)
    : list (string * Value) :=
  let '(key, value) := entry in
  match value with
  | VUndefined => merged
  | VNull => merged
  | _ =>
      let existing := getField key merged in
      match existing, value with
      | VArray e, VArray v => setField key (VArray (e ++ v)) merged
      | VObject e, VObject v =>
          if isRoot && String.eqb key "vite"
          then setField key (mergeViteConfig e v) merged
          else setField key (VObject (mergeConfig e value)) merged
      | _, _ => setField key value merged
      end
  end.

(** [mergeConfig] by recursion on the object [b]: [merged] starts as the
    copy of [a] *)
Fixpoint mergeInto (a : list (string * Value)) (b : Value) (isRoot : bool)
    {struct b} : list (string * Value) :=
  match b with
  | VObject fields =>
      fold_left (mergeKey (fun e v => mergeInto e v false) isRoot) fields a
  | _ => a
  end.

Definition mergeConfig (a b : list (string * Value)) (isRoot : bool)
    : list (string * Value) :=
  mergeInto a (VObject b) isRoot.

End Merge.

End Config.

Module ConfigSpec.

Import Config.

(** [v.k1.k2...], [undefined] where a step meets no object *)
Fixpoint getPath (v : Value) (path : list string) : Value :=
  match path with
  | [] => v
  | k :: rest =>
      match v with
      | VObject fields => getPath (getField k fields) rest
      | _ => VUndefined
      end
  end.

(** the objects met along [path] list no key twice *)
Fixpoint distinctAlong (v : Value) (path : list string) : Prop :=
  match v with
  | VObject fields =>
      List.NoDup (map fst fields) /\
      match path with
      | [] => True
      | k :: rest => distinctAlong (getField k fields) rest
      end
  | _ => True
  end.

Section Merged.

Variable mergeViteConfig :
  list (string * Value) -> list (string * Value) -> Value.

(** the value of a key after the loop, from its values in [a] and in [b] *)
Definition mergedValue (isRoot : bool) (key : string) (existing value : Value)
    : Value :=
  match value with
  | VUndefined => existing
  | VNull => existing
  | _ =>
      match existing, value with
      | VArray e, VArray v => VArray (e ++ v)
      | VObject e, VObject v =>
          if isRoot && String.eqb key "vite" then mergeViteConfig e v
          else VObject (mergeConfig mergeViteConfig e v false)
      | _, _ => value
      end
  end.

End Merged.

(** a base configuration and one that extends it *)
Definition exampleBase : list (string * Value) :=
  [("title", VAtom "Base");
   ("head", VArray [VAtom "icon"]);
   ("themeConfig", VObject [("logo", VAtom "/base.svg"); ("nav", VArray [])])].

Definition exampleChild : list (string * Value) :=
  [("head", VArray [VAtom "font"]);
   ("title", VNull);
   ("themeConfig", VObject [("logo", VAtom "/child.svg")])].

End ConfigSpec.

(** ** Chunks loaded with the entry ([build/bundle.ts]) *)

Module Chunks.

(** what [staticImportedByEntry] reads of the module info of the bundler *)
Record ModuleInfo := {
  isEntry : bool;
  importers : list string
}.

Section StaticImports.

(** [ctx.getModuleInfo] *)
Variable getModuleInfo : string -> option ModuleInfo.
(** [entryRE.test], if an expression is given *)
Variable entryRE : option (string -> bool).

(** [entryRE ? entryRE.test(id) : mod.isEntry] *)
Definition isEntryModule (id : string) (info : ModuleInfo) : bool :=
  match entryRE with
  | Some test => test id
  | None => isEntry info
  end.

(** [importers.some(check)], with the cache handed from one call of [check]
    to the next; it stops at the first importer for which the answer is
    [true] *)
Fixpoint someImporter
    (check : string -> gmap string bool -> option (bool * gmap string bool))
    (importers : list string) (cache : gmap string bool)
    : option (bool * gmap string bool) :=
  match importers with
  | [] => Some (false, cache)
  | importer :: rest =>
      match check importer cache with
      | Some (true, cache') => Some (true, cache')
      | Some (false, cache') => someImporter check rest cache'
      | None => None
      end
  end.

(** [staticImportedByEntry]: the answer and the cache it leaves; [None]
    when the fuel runs out *)
Fixpoint staticImportedByEntry (fuel : nat) (id : string)
    (cache : gmap string bool) (importStack : list string)
    : option (bool * gmap string bool) :=
  match fuel with
  | O => None
  | S f =>
      match cache !! id with
      | Some b => Some (b, cache)
      | None =>
          if existsb (String.eqb id) importStack
          then Some (false, <[id := false]> cache)
          else
            match getModuleInfo id with
            | None => Some (false, <[id := false]> cache)
            | Some info =>
                if isEntryModule id info
                then Some (true, <[id := true]> cache)
                else
                  match someImporter
                          (fun importer cache =>
                             staticImportedByEntry f importer cache
                               (importStack ++ [id]))
                          (importers info) cache with
                  | Some (someImporterIs, cache') =>
                      Some (someImporterIs, <[id := someImporterIs]> cache')
                  | None => None
                  end
            end
      end
  end.

End StaticImports.

End Chunks.

Module ChunksSpec.

Import Chunks.

Section Graph.

Variable getModuleInfo : string -> option ModuleInfo.
Variable entryRE : option (string -> bool).

(** a chain of importers leads from the module to an entry *)
Inductive importedByEntry : string -> Prop :=
| IsEntry id info :
    getModuleInfo id = Some info -> isEntryModule entryRE id info = true ->
    importedByEntry id
| ViaImporter id info importer :
    getModuleInfo id = Some info -> In importer (importers info) ->
    importedByEntry importer -> importedByEntry id.

(** every module the cache holds [true] for is imported by an entry *)
Definition cacheSound (cache : gmap string bool) : Prop :=
  forall id, cache !! id = Some true -> importedByEntry id.

End Graph.

(** a graph in which two modules import each other and one of them is
    imported by the entry *)
Definition exampleGraph (id : string) : option ModuleInfo :=
  if String.eqb id "entry.js" then Some {| isEntry := true; importers := [] |}
  else if String.eqb id "a.js"
       then Some {| isEntry := false; importers := ["b.js"; "entry.js"] |}
  else if String.eqb id "b.js"
       then Some {| isEntry := false; importers := ["a.js"] |}
  else None.

End ChunksSpec.

(** * Properties *)

(** ** Strings *)

Module JSFacts.

Import JS.

Lemma append_cons c s t : String c s +:+ t = String c (s +:+ t).
Proof. reflexivity. Qed.

Lemma append_nil_l s : "" +:+ s = s.
Proof. reflexivity. Qed.

Lemma append_nil_r s : s +:+ "" = s.
Proof. induction s as [|c s IH]; [reflexivity|]. rewrite append_cons, IH. reflexivity. Qed.

Lemma append_assoc s t u : (s +:+ t) +:+ u = s +:+ (t +:+ u).
Proof.
  induction s as [|c s IH]; [reflexivity|].
  rewrite !append_cons, IH. reflexivity.
Qed.

Lemma length_append s t : String.length (s +:+ t) = String.length s + String.length t.
Proof.
  induction s as [|c s IH]; [reflexivity|].
  rewrite append_cons. simpl. rewrite IH. reflexivity.
Qed.

Lemma drop_append s t : drop (String.length s) (s +:+ t) = t.
Proof. induction s as [|c s IH]; [reflexivity|]. rewrite append_cons. simpl. exact IH. Qed.

Lemma take_append s t : take (String.length s) (s +:+ t) = s.
Proof.
  induction s as [|c s IH]; [reflexivity|].
  rewrite append_cons. simpl. rewrite IH. reflexivity.
Qed.

Lemma startsWith_append p s : startsWith (p +:+ s) p = true.
Proof.
  induction p as [|c p IH]; [reflexivity|].
  rewrite append_cons. simpl. rewrite Ascii.eqb_refl. exact IH.
Qed.

Lemma endsWith_append s p : endsWith (s +:+ p) p = true.
Proof.
  unfold endsWith. rewrite length_append.
  replace (String.length s + String.length p - String.length p)
    with (String.length s) by lia.
  rewrite drop_append, String.eqb_refl, andb_true_r.
  apply Nat.leb_le. lia.
Qed.

Lemma dropEnd_append s p : dropEnd (String.length p) (s +:+ p) = s.
Proof.
  unfold dropEnd. rewrite length_append.
  replace (String.length s + String.length p - String.length p)
    with (String.length s) by lia.
  apply take_append.
Qed.

Lemma replaceSuffix_append suffix r s :
  replaceSuffix suffix r (s +:+ suffix) = s +:+ r.
Proof. unfold replaceSuffix. rewrite endsWith_append, dropEnd_append. reflexivity. Qed.

(** the scanner passes over the characters of a match *)
Lemma replaceGo_skip matchAt subst m : forall pre rest,
  replaceGo matchAt subst pre (String.length m) (m +:+ rest)
  = replaceGo matchAt subst (pre +:+ m) 0 rest.
Proof.
  induction m as [|c m IH]; intros pre rest.
  - rewrite append_nil_r. reflexivity.
  - rewrite append_cons. simpl. rewrite IH, append_assoc. reflexivity.
Qed.

Lemma replaceGo_head matchAt subst pre c s :
  replaceGo matchAt subst pre 0 (String c s)
  = match matchAt (String c s) with
    | Some (S n) =>
        subst pre (take (S n) (String c s)) (drop (S n) (String c s))
        +:+ replaceGo matchAt subst (pre +:+ String c "") n s
    | _ => String c (replaceGo matchAt subst (pre +:+ String c "") 0 s)
    end.
Proof. reflexivity. Qed.

(** a match at the head is replaced and the scan goes on behind it *)
Lemma replaceGo_match matchAt subst pre m rest :
  m <> "" ->
  matchAt (m +:+ rest) = Some (String.length m) ->
  replaceGo matchAt subst pre 0 (m +:+ rest)
  = subst pre m rest +:+ replaceGo matchAt subst (pre +:+ m) 0 rest.
Proof.
  intros Hm H. destruct m as [|c m]; [congruence|].
  pose proof (take_append (String c m) rest) as Ht.
  pose proof (drop_append (String c m) rest) as Hd.
  rewrite append_cons in *.
  change (String.length (String c m)) with (S (String.length m)) in *.
  rewrite replaceGo_head, H. cbv beta iota.
  rewrite Ht, Hd. f_equal.
  rewrite replaceGo_skip, append_assoc. reflexivity.
Qed.

(** without a match at the head the character is kept *)
Lemma replaceGo_keep matchAt subst pre c s :
  matchAt (String c s) = None ->
  replaceGo matchAt subst pre 0 (String c s)
  = String c (replaceGo matchAt subst (pre +:+ String c "") 0 s).
Proof. intros H. simpl. rewrite H. reflexivity. Qed.

(** the result depends on the substitution only through its values *)
Lemma replaceGo_ext matchAt f g :
  (forall b m a, f b m a = g b m a) ->
  forall s pre skip, replaceGo matchAt f pre skip s = replaceGo matchAt g pre skip s.
Proof.
  intros Hfg. induction s as [|c s IH]; intros pre skip; [reflexivity|].
  simpl. destruct skip as [|k]; [|apply IH].
  destruct (matchAt (String c s)) as [[|n]|]; rewrite ?Hfg, IH; reflexivity.
Qed.

Lemma includes_cons c s p :
  includes (String c s) p = startsWith (String c s) p || includes s p.
Proof. reflexivity. Qed.

Lemma startsWith_char a c s : startsWith (String c s) (String a "") = Ascii.eqb a c.
Proof. cbn [startsWith]. destruct (Ascii.eqb a c); reflexivity. Qed.

Lemma getSubstitution_cons before matched after c r :
  Ascii.eqb c "$" = false ->
  getSubstitution before matched after (String c r)
  = String c (getSubstitution before matched after r).
Proof. intros H. cbn [getSubstitution]. rewrite H. reflexivity. Qed.

(** a replacement text without a dollar sign is inserted as it is *)
Lemma getSubstitution_plain before matched after r :
  includes r "$" = false -> getSubstitution before matched after r = r.
Proof.
  induction r as [|c r IH]; intros H; [reflexivity|].
  rewrite includes_cons, startsWith_char in H.
  apply orb_false_elim in H as [Hc Hr].
  rewrite getSubstitution_cons by (rewrite Ascii.eqb_sym; exact Hc).
  f_equal. apply IH, Hr.
Qed.

Lemma drop_3_bar s : drop 3 (" | " +:+ s) = s.
Proof. reflexivity. Qed.

(** a substitution that ignores the text before the match makes the scan
    independent of what was scanned *)
Lemma replaceGo_pre matchAt subst :
  (forall b b' m a, subst b m a = subst b' m a) ->
  forall s pre pre' skip,
    replaceGo matchAt subst pre skip s = replaceGo matchAt subst pre' skip s.
Proof.
  intros Hsub. induction s as [|c s IH]; intros pre pre' skip; [reflexivity|].
  destruct skip as [|k].
  - rewrite !replaceGo_head. destruct (matchAt (String c s)) as [[|n]|].
    + f_equal. apply IH.
    + rewrite (Hsub pre pre'). f_equal. apply IH.
    + f_equal. apply IH.
  - cbn [replaceGo]. apply IH.
Qed.

(** a stretch without a match is copied *)
Lemma replaceAll_copy matchAt subst pre rest :
  (forall b b' m a, subst b m a = subst b' m a) ->
  noMatchWithin matchAt pre rest = true ->
  replaceAll matchAt subst (pre +:+ rest) = pre +:+ replaceAll matchAt subst rest.
Proof.
  intros Hsub. unfold replaceAll.
  induction pre as [|c pre IH]; intros H; [reflexivity|].
  cbn [noMatchWithin] in H. rewrite !append_cons in *.
  destruct (matchAt (String c (pre +:+ rest))) eqn:Hm; [discriminate|].
  rewrite replaceGo_keep by exact Hm. f_equal.
  rewrite (replaceGo_pre matchAt subst Hsub _ _ ""). apply IH, H.
Qed.

(** a match is replaced *)
Lemma replaceAll_match matchAt subst m rest :
  (forall b b' m a, subst b m a = subst b' m a) ->
  m <> "" ->
  matchAt (m +:+ rest) = Some (String.length m) ->
  replaceAll matchAt subst (m +:+ rest)
  = subst "" m rest +:+ replaceAll matchAt subst rest.
Proof.
  intros Hsub Hm H. unfold replaceAll.
  rewrite (replaceGo_match matchAt subst "" m rest Hm H). f_equal.
  apply (replaceGo_pre matchAt subst Hsub).
Qed.

End JSFacts.

(** ** Titles and head tags *)

Module SharedFacts.

Import Shared SharedSpec JSFacts.

Lemma replaceTitle_plain template title :
  JS.includes title "$" = false ->
  replaceTitle template title = substituteLiteral template title.
Proof.
  intros H. unfold replaceTitle, substituteLiteral, JS.replaceAll.
  apply replaceGo_ext.
  intros b m a. apply getSubstitution_plain, H.
Qed.

Lemma composed_title title suffix :
  (if String.eqb title (JS.drop 3 (" | " +:+ suffix)) then title
   else title +:+ " | " +:+ suffix)
  = if String.eqb title suffix then title else title +:+ " | " +:+ suffix.
Proof. rewrite drop_3_bar. reflexivity. Qed.

Lemma composed_empty title :
  (if String.eqb title (JS.drop 3 "") then title else title +:+ "") = title.
Proof. rewrite append_nil_r. destruct (String.eqb title (JS.drop 3 "")); reflexivity. Qed.

(** C6, as the claim states it, fails: with the site title [Site], a page
    titled [Site] and no template, the claim promises the title followed by
    the default suffix, the code returns the bare title. *)
Lemma createTitle_claim_counterexample :
  createTitle (exampleSite "Site" None) (examplePage "Site" None) = "Site" /\
  claimedTitle (exampleSite "Site" None) (examplePage "Site" None) = "Site | Site" /\
  createTitle (exampleSite "Site" None) (examplePage "Site" None)
  <> claimedTitle (exampleSite "Site" None) (examplePage "Site" None).
Proof. repeat split; try reflexivity. vm_compute. discriminate. Qed.

(** C6, amended: the title is the page title, or the site title when the
    page title is empty. If the effective template is a string containing
    [:title] and the title has no dollar sign, the result is the template
    with every placeholder replaced by the title. Otherwise the result is
    the title alone when the template is [false] or equal to the site title,
    and else the title followed by [ | ] and the site title (template [true]
    or absent) or the template, except that the title alone is returned when
    it equals what would follow the bar. The four worked examples hold. *)
Theorem createTitle_rule :
  (forall site page,
     let title := effectiveTitle site page in
     match effectiveTemplate site page with
     | Some (TString t) =>
         if JS.includes t ":title"
         then JS.includes title "$" = false ->
              createTitle site page = substituteLiteral t title
         else createTitle site page =
              if String.eqb (siteTitle site) t || String.eqb title t then title
              else title +:+ " | " +:+ t
     | Some (TBool false) => createTitle site page = title
     | _ => createTitle site page =
            if String.eqb title (siteTitle site) then title
            else title +:+ " | " +:+ siteTitle site
     end) /\
  createTitle (exampleSite "Site" None) (examplePage "Page" None) = "Page | Site" /\
  createTitle (exampleSite "Site" None) (examplePage "Page" (Some (TBool false)))
  = "Page" /\
  createTitle (exampleSite "Site" None)
    (examplePage "Page" (Some (TString ":title — Custom")))
  = "Page — Custom" /\
  createTitle (exampleSite "Site" None) (examplePage "Site" (Some (TString "Site")))
  = "Site".
Proof.
  split; [|repeat split; reflexivity].
  intros site page title.
  unfold createTitle. fold (effectiveTitle site page). fold (effectiveTemplate site page).
  fold title. destruct (effectiveTemplate site page) as [[t|[|]]|]; cbn [createTitleTemplate].
  - destruct (JS.includes t ":title").
    + intros Hplain. apply replaceTitle_plain, Hplain.
    + destruct (String.eqb (siteTitle site) t); cbn [orb].
      * apply composed_empty.
      * apply composed_title.
  - apply composed_title.
  - apply composed_empty.
  - apply composed_title.
Qed.

(** the amended rule at work on the third example of the specification *)
Lemma createTitle_rule_witness :
  createTitle (exampleSite "Site" None)
    (examplePage "Page" (Some (TString ":title — Custom")))
  = substituteLiteral ":title — Custom" "Page".
Proof.
  exact (proj1 createTitle_rule (exampleSite "Site" None)
           (examplePage "Page" (Some (TString ":title — Custom"))) eq_refl).
Defined.

Lemma hasTag_shadowed curr t : hasTag curr t = true <-> shadowed curr t.
Proof.
  unfold hasTag, shadowed.
  destruct (String.eqb (tagType t) "meta") eqn:Hmeta; cbn [negb].
  - apply String.eqb_eq in Hmeta.
    destruct (tagAttrs t) as [|[key value] rest].
    + split; [discriminate|]. intros [_ (k & v & r & Habs & _)]. discriminate.
    + rewrite existsb_exists. split.
      * intros (c & Hin & Hc). apply andb_true_iff in Hc as [Hty Hval].
        apply String.eqb_eq in Hty.
        split; [exact Hmeta|]. exists key, value, rest. split; [reflexivity|].
        exists c. split; [exact Hin|]. split; [congruence|].
        destruct (getAttr (tagAttrs c) key) as [v|]; [|discriminate].
        apply String.eqb_eq in Hval. congruence.
      * intros [_ (k & v & r & Heq & c & Hin & Hty & Hval)].
        injection Heq as <- <- <-.
        exists c. split; [exact Hin|].
        rewrite Hty, Hmeta, String.eqb_refl, Hval, String.eqb_refl. reflexivity.
  - apply String.eqb_neq in Hmeta. split; [discriminate|].
    intros [Habs _]. contradiction.
Qed.

Lemma filter_sublist {A} (f : A -> bool) l : sublist (List.filter f l) l.
Proof.
  induction l as [|x l IH]; cbn [List.filter]; [constructor|].
  destruct (f x); [apply sublist_skip|apply sublist_cons]; exact IH.
Qed.

Lemma filter_filter_implied {A} (f g : A -> bool) l :
  (forall x, f x = true -> g x = true) ->
  List.filter f (List.filter g l) = List.filter f l.
Proof.
  intros Himp. induction l as [|x l IH]; [reflexivity|].
  cbn [List.filter]. destruct (g x) eqn:Hg.
  - cbn [List.filter]. rewrite IH. reflexivity.
  - destruct (f x) eqn:Hf; [|exact IH].
    apply Himp in Hf. congruence.
Qed.



End SharedFacts.

(** ** Dead links *)

Module MarkdownFacts.

Import Shared MarkdownToVue MarkdownSpec Plugin JSFacts.

Lemma splitPop_plain sep ext : forall cur,
  JS.includes ext (String sep "") = false ->
  JS.splitPop sep cur ext = cur +:+ ext.
Proof.
  induction ext as [|c ext IH]; intros cur H.
  - rewrite append_nil_r. reflexivity.
  - rewrite includes_cons, startsWith_char in H.
    apply orb_false_elim in H as [Hc Hrest].
    cbn [JS.splitPop]. rewrite Ascii.eqb_sym, Hc, IH by exact Hrest.
    rewrite append_assoc. reflexivity.
Qed.

(** the piece after the last separator *)
Lemma splitPop_extension sep stem ext : forall cur,
  JS.includes ext (String sep "") = false ->
  JS.splitPop sep cur (stem +:+ String sep "" +:+ ext) = ext.
Proof.
  induction stem as [|c stem IH]; intros cur H.
  - rewrite append_nil_l, append_cons, append_nil_l. cbn [JS.splitPop].
    rewrite Ascii.eqb_refl. apply (splitPop_plain sep ext ""), H.
  - rewrite append_cons. cbn [JS.splitPop].
    destruct (Ascii.eqb c sep); apply IH, H.
Qed.

Lemma existsb_eqb_In x l : In x l -> existsb (String.eqb x) l = true.
Proof.
  intros H. apply existsb_exists. exists x. split; [exact H|apply String.eqb_refl].
Qed.

(** a file name that ends in a dot and a known extension is not HTML *)
Lemma treatAsHtml_known_extension extraExts stem ext :
  JS.includes ext "." = false ->
  In (JS.toLowerCase ext) (KNOWN_EXTENSIONS extraExts) ->
  treatAsHtml extraExts (stem +:+ "." +:+ ext) = false.
Proof.
  intros Hdot Hin. unfold treatAsHtml.
  rewrite (splitPop_extension "."%char stem ext "" Hdot).
  rewrite existsb_eqb_In by exact Hin. reflexivity.
Qed.

Lemma shouldIgnoreDeadLink_covers policy url :
  shouldIgnoreDeadLink policy url = true <-> covers policy url.
Proof.
  destruct policy as [| | |entries]; cbn [shouldIgnoreDeadLink covers claimedCovers].
  - split; [discriminate|contradiction].
  - split; [constructor|reflexivity].
  - reflexivity.
  - rewrite existsb_exists. split; intros (e & Hin & He); exists e; (split; [exact Hin|]).
    + destruct e; cbn [entryCovers]; try assumption; try discriminate.
      apply String.eqb_eq, He.
    + destruct e; cbn [entryCovers] in He; try assumption; try contradiction.
      apply String.eqb_eq, He.
Qed.

Section LinkFacts.

Variable extraExts : string.
Variable pathnameOf : string -> string.
Variable relativeToSrc : string -> string.
Variable decodeURIComponent : string -> option string.
Variable publicHtmlExists : string -> bool.
Variable pages : list string.
Variable inv : gmap string string.
Variable fileRel : string.

Local Abbreviation check policy :=
  (checkLink extraExts pathnameOf relativeToSrc decodeURIComponent
     publicHtmlExists pages inv policy fileRel).
Local Abbreviation checkAll policy :=
  (checkLinks extraExts pathnameOf relativeToSrc decodeURIComponent
     publicHtmlExists pages inv policy fileRel).

(** a skipped link leaves the loop as if it were not in the list *)
Lemma checkLinks_skip policy link :
  check policy link = Some None ->
  forall before after dead,
    checkAll policy (before ++ link :: after) dead
    = checkAll policy (before ++ after) dead.
Proof.
  intros Hskip before. induction before as [|l before IH]; intros after dead.
  - cbn [app checkLinks]. rewrite Hskip. reflexivity.
  - cbn [app checkLinks]. destruct (check policy l) as [[d|]|]; [apply IH|apply IH|reflexivity].
Qed.

(** what the loop records for a link that is dead when nothing is ignored *)
Lemma checkLink_ignored policy link d :
  check IgnoreUnset link = Some (Some d) ->
  url d = normalizeLink link /\
  check policy link
  = if shouldIgnoreDeadLink policy (normalizeLink link) then Some None
    else Some (Some d).
Proof.
  unfold checkLink.
  destruct (negb (treatAsHtml extraExts (pathnameOf link))); [discriminate|].
  destruct (decodeURIComponent _) as [decoded|]; [|discriminate].
  destruct (negb (existsb _ pages) && negb (publicHtmlExists _)); cbn [andb];
    [|discriminate].
  cbn [shouldIgnoreDeadLink negb]. intros [= <-]. split; [reflexivity|].
  destruct (shouldIgnoreDeadLink policy (normalizeLink link)); reflexivity.
Qed.

End LinkFacts.

(** C8, as the claim states it, fails: under the [localhostLinks] setting a
    dead link to a local server is left out of the report, although the
    setting is none of the four the claim lists. *)
Lemma ignoreDeadLinks_claim_counterexample :
  let check policy :=
    checkLink "" (fun _ => "/api") (fun u => u) Some (fun _ => false) [] ∅
      policy "index.md" "http://localhost:3000/api" in
  check IgnoreUnset
  = Some (Some {| url := "http://localhost:3000/api"; file := "index.md" |}) /\
  check IgnoreLocalhostLinks = Some None /\
  ~ claimedCovers IgnoreLocalhostLinks "http://localhost:3000/api".
Proof. cbv zeta. repeat split; try reflexivity. intros []. Qed.

(** C8, amended: [renderStart] ends the build with one error that names the
    number of dead links collected, after one warning per link, and
    completes when there is none. A link that is dead when nothing is
    ignored is left out exactly when the setting covers the link as the
    checker normalises it: [true] covers every link, [localhostLinks] the
    links to a host starting with [localhost], a string entry the link it
    equals, a pattern entry the links it matches, a predicate entry the
    links it accepts. *)
Theorem dead_links_reported_unless_ignored :
  (forall dead,
     renderStart dead
     = match dead with
       | [] => ([], Completed)
       | _ => (imap (fun i d => Logger.Warn (deadLinkWarning i d)) dead
                 ++ [Logger.Info deadLinkHint],
               Thrown (JS.numberToString (length dead) +:+ " dead link(s) found."))
       end) /\
  (forall policy url', shouldIgnoreDeadLink policy url' = true <-> covers policy url') /\
  (forall extraExts pathnameOf relativeToSrc decodeURIComponent publicHtmlExists
          pages inv fileRel policy link d,
     checkLink extraExts pathnameOf relativeToSrc decodeURIComponent
       publicHtmlExists pages inv IgnoreUnset fileRel link = Some (Some d) ->
     url d = normalizeLink link /\
     (checkLink extraExts pathnameOf relativeToSrc decodeURIComponent
        publicHtmlExists pages inv policy fileRel link = Some None
      <-> covers policy (normalizeLink link)) /\
     (checkLink extraExts pathnameOf relativeToSrc decodeURIComponent
        publicHtmlExists pages inv policy fileRel link = Some (Some d)
      <-> ~ covers policy (normalizeLink link))).
Proof.
  split; [|split].
  - intros [|d dead]; reflexivity.
  - apply shouldIgnoreDeadLink_covers.
  - intros extraExts pathnameOf relativeToSrc decodeURIComponent publicHtmlExists
      pages inv fileRel policy link d Hdead.
    destruct (checkLink_ignored extraExts pathnameOf relativeToSrc
                decodeURIComponent publicHtmlExists pages inv fileRel policy
                link d Hdead) as [Hurl Hcheck].
    split; [exact Hurl|]. rewrite Hcheck, <- shouldIgnoreDeadLink_covers.
    destruct (shouldIgnoreDeadLink policy (normalizeLink link)).
    + split; split; try reflexivity; try discriminate.
      intros H. exfalso. apply H. reflexivity.
    + split; split; try reflexivity; try discriminate.
Qed.

(** the amended statement on a dead link that a string entry covers *)
Lemma dead_links_reported_unless_ignored_witness :
  let check policy :=
    checkLink "" (fun _ => "/missing") (fun u => u) Some (fun _ => false) [] ∅
      policy "index.md" "/missing.html#top" in
  check (IgnoreList [IgnoreString "/missing"]) = Some None.
Proof.
  cbv zeta.
  apply (proj2 (proj2 dead_links_reported_unless_ignored)
           "" (fun _ => "/missing") (fun u => u) Some (fun _ => false) [] ∅
           "index.md" (IgnoreList [IgnoreString "/missing"]) "/missing.html#top"
           {| url := "/missing"; file := "index.md" |} eq_refl).
  exists (IgnoreString "/missing"). split; [left; reflexivity|reflexivity].
Defined.

(** C10: a link whose pathname ends in a dot and an extension of the
    known set (compared in lower case; an extension has no dot of its own)
    is passed over by the dead-link loop: nothing is recorded for it,
    whatever the pages, the public directory and the ignore setting are, and
    the dead links found are those of the list without it. *)
Theorem known_extension_link_skipped
    (extraExts : string) (pathnameOf relativeToSrc : string -> string)
    (decodeURIComponent : string -> option string)
    (publicHtmlExists : string -> bool) (pages : list string)
    (inv : gmap string string) (policy : IgnoreDeadLinks) (fileRel : string)
    (link stem ext : string) :
  pathnameOf link = stem +:+ "." +:+ ext ->
  JS.includes ext "." = false ->
  In (JS.toLowerCase ext) (KNOWN_EXTENSIONS extraExts) ->
  checkLink extraExts pathnameOf relativeToSrc decodeURIComponent
    publicHtmlExists pages inv policy fileRel link = Some None /\
  forall before after dead,
    checkLinks extraExts pathnameOf relativeToSrc decodeURIComponent
      publicHtmlExists pages inv policy fileRel (before ++ link :: after) dead
    = checkLinks extraExts pathnameOf relativeToSrc decodeURIComponent
        publicHtmlExists pages inv policy fileRel (before ++ after) dead.
Proof.
  intros Hpath Hdot Hknown.
  assert (checkLink extraExts pathnameOf relativeToSrc decodeURIComponent
            publicHtmlExists pages inv policy fileRel link = Some None) as Hskip.
  { unfold checkLink. rewrite Hpath.
    rewrite (treatAsHtml_known_extension extraExts stem ext Hdot Hknown).
    reflexivity. }
  split; [exact Hskip|]. apply checkLinks_skip, Hskip.
Qed.

(** an image link to a file that exists nowhere is not recorded *)
Lemma known_extension_link_skipped_witness :
  checkLink "" (fun _ => "/img/logo.PNG") (fun u => u) Some (fun _ => false) [] ∅
    IgnoreUnset "index.md" "/img/logo.PNG?v=2" = Some None.
Proof.
  apply (known_extension_link_skipped "" (fun _ => "/img/logo.PNG") (fun u => u)
           Some (fun _ => false) [] ∅ IgnoreUnset "index.md"
           "/img/logo.PNG?v=2" "/img/logo" "PNG").
  - reflexivity.
  - reflexivity.
  - vm_compute. tauto.
Defined.

End MarkdownFacts.

(** ** Rewrites *)

Module RewritesFacts.

Import Rewrites RewritesSpec.

Section RuleFacts.

Context {Params : Type}.

Implicit Types (rules : list (RewriteRule Params)) (pages : list string).

(** the first rule that matches decides the target *)
Lemma rewriteTarget_first rules page dest :
  rewriteTarget rules page = Some (Some dest) <->
  exists before r after res p,
    rules = before ++ r :: after /\
    Forall (fun r' => matchUrl r' page = None) before /\
    matchUrl r page = Some res /\ toPath r res = Some p /\ dest = JS.drop 1 p.
Proof.
  induction rules as [|r0 rules IH]; cbn [rewriteTarget].
  - split; [discriminate|]. intros (before & r & after & res & p & Heq & _).
    destruct before; discriminate.
  - destruct (matchUrl r0 page) as [res0|] eqn:Hm.
    + split.
      * destruct (toPath r0 res0) as [p0|] eqn:Hp; [|discriminate].
        intros [= <-]. exists [], r0, rules, res0, p0. repeat split; auto.
      * intros (before & r & after & res & p & Heq & Hnone & Hr & Hp & ->).
        destruct before as [|b before]; cbn [app] in Heq.
        -- injection Heq as <- <-. rewrite Hm in Hr. injection Hr as <-.
           rewrite Hp. reflexivity.
        -- injection Heq as <- ->. apply Forall_cons in Hnone as [Hb _]. congruence.
    + rewrite IH. split.
      * intros (before & r & after & res & p & -> & Hnone & Hr & Hp & ->).
        exists (r0 :: before), r, after, res, p. repeat split; auto.
      * intros (before & r & after & res & p & Heq & Hnone & Hr & Hp & ->).
        destruct before as [|b before]; cbn [app] in Heq.
        -- injection Heq as <- <-. congruence.
        -- injection Heq as <- ->. apply Forall_cons in Hnone as [_ Hrest].
           exists before, r, after, res, p. repeat split; auto.
Qed.

Lemma rewriteTarget_unmatched rules page :
  (forall r, In r rules -> matchUrl r page = None) ->
  rewriteTarget rules page = Some None.
Proof.
  induction rules as [|r0 rules IH]; intros H; [reflexivity|].
  cbn [rewriteTarget]. rewrite (H r0) by (left; reflexivity).
  apply IH. intros r Hr. apply H. right. exact Hr.
Qed.

Lemma rewriteTarget_matched rules page :
  (exists r, In r rules /\ matchUrl r page <> None) ->
  rewriteTarget rules page <> Some None.
Proof.
  induction rules as [|r0 rules IH]; intros (r & Hin & Hr).
  - destruct Hin.
  - cbn [rewriteTarget]. destruct (matchUrl r0 page) as [res|] eqn:Hm.
    + destruct (toPath r0 res); discriminate.
    + apply IH. destruct Hin as [<-|Hin]; [congruence|]. exists r. auto.
Qed.

(** targets that never throw give a result *)
Lemma rewriteTarget_total rules page :
  (forall r res, In r rules -> matchUrl r page = Some res -> toPath r res <> None) ->
  rewriteTarget rules page <> None.
Proof.
  induction rules as [|r0 rules IH]; intros H; [discriminate|].
  cbn [rewriteTarget]. destruct (matchUrl r0 page) as [res|] eqn:Hm.
  - specialize (H r0 res (or_introl eq_refl) Hm).
    destruct (toPath r0 res); [discriminate|contradiction].
  - apply IH. intros r res Hin. apply H. right. exact Hin.
Qed.

Lemma rewriteLoop_total rules pages : forall acc,
  (forall page, In page pages -> rewriteTarget rules page <> None) ->
  exists rw, rewriteLoop rules pages acc = Some rw.
Proof.
  induction pages as [|page pages IH]; intros acc H; cbn [rewriteLoop]; [eauto|].
  pose proof (H page (or_introl eq_refl)) as Hpage.
  destruct (rewriteTarget rules page) as [[dest|]|]; [| |contradiction];
    apply IH; intros q Hq; apply H; right; exact Hq.
Qed.

Lemma rewriteLoop_map_sound rules pages p d : forall acc rw,
  rewriteLoop rules pages acc = Some rw ->
  map rw !! p = Some d ->
  (In p pages /\ rewriteTarget rules p = Some (Some d)) \/ map acc !! p = Some d.
Proof.
  induction pages as [|page pages IH]; intros acc rw Hloop Hp; cbn [rewriteLoop] in Hloop.
  - injection Hloop as <-. right. exact Hp.
  - destruct (rewriteTarget rules page) as [[dest|]|] eqn:Ht; [| |discriminate].
    + destruct (IH _ _ Hloop Hp) as [[Hin Htp]|Hacc]; [left; split; [right|]; assumption|].
      cbn [map] in Hacc. destruct (decide (page = p)) as [->|Hne].
      * rewrite lookup_insert_eq in Hacc. injection Hacc as ->.
        left. split; [left; reflexivity|exact Ht].
      * rewrite lookup_insert_ne in Hacc by exact Hne. right. exact Hacc.
    + destruct (IH _ _ Hloop Hp) as [[Hin Htp]|Hacc]; [left; split; [right|]; assumption|].
      right. exact Hacc.
Qed.

Lemma rewriteLoop_map_complete rules pages p d : forall acc rw,
  rewriteLoop rules pages acc = Some rw ->
  rewriteTarget rules p = Some (Some d) ->
  In p pages \/ map acc !! p = Some d ->
  map rw !! p = Some d.
Proof.
  induction pages as [|page pages IH]; intros acc rw Hloop Htp Hp; cbn [rewriteLoop] in Hloop.
  - injection Hloop as <-. destruct Hp as [[]|Hp]. exact Hp.
  - destruct (rewriteTarget rules page) as [[dest|]|] eqn:Ht; [| |discriminate].
    + apply (IH _ _ Hloop Htp). cbn [map].
      destruct (decide (page = p)) as [->|Hne].
      * right. rewrite lookup_insert_eq. congruence.
      * rewrite lookup_insert_ne by exact Hne.
        destruct Hp as [[Heq|Hin]|Hacc]; [contradiction|left|right]; assumption.
    + apply (IH _ _ Hloop Htp).
      destruct Hp as [[Heq|Hin]|Hacc]; [congruence|left|right]; assumption.
Qed.

Lemma rewriteLoop_inv_sound rules pages p d : forall acc rw,
  rewriteLoop rules pages acc = Some rw ->
  inv rw !! d = Some p ->
  (In p pages /\ rewriteTarget rules p = Some (Some d)) \/ inv acc !! d = Some p.
Proof.
  induction pages as [|page pages IH]; intros acc rw Hloop Hd; cbn [rewriteLoop] in Hloop.
  - injection Hloop as <-. right. exact Hd.
  - destruct (rewriteTarget rules page) as [[dest|]|] eqn:Ht; [| |discriminate].
    + destruct (IH _ _ Hloop Hd) as [[Hin Htp]|Hacc]; [left; split; [right|]; assumption|].
      cbn [inv] in Hacc. destruct (decide (dest = d)) as [->|Hne].
      * rewrite lookup_insert_eq in Hacc. injection Hacc as ->.
        left. split; [left; reflexivity|exact Ht].
      * rewrite lookup_insert_ne in Hacc by exact Hne. right. exact Hacc.
    + destruct (IH _ _ Hloop Hd) as [[Hin Htp]|Hacc]; [left; split; [right|]; assumption|].
      right. exact Hacc.
Qed.

(** the inverse keeps an entry while no page is sent to its key *)
Lemma rewriteLoop_inv_keep rules pages d : forall acc rw,
  rewriteLoop rules pages acc = Some rw ->
  (forall q, In q pages -> rewriteTarget rules q <> Some (Some d)) ->
  inv rw !! d = inv acc !! d.
Proof.
  induction pages as [|page pages IH]; intros acc rw Hloop Hno; cbn [rewriteLoop] in Hloop.
  - injection Hloop as <-. reflexivity.
  - assert (forall q, In q pages -> rewriteTarget rules q <> Some (Some d)) as Hrest
      by (intros q Hq; apply Hno; right; exact Hq).
    pose proof (Hno page (or_introl eq_refl)) as Hpage.
    destruct (rewriteTarget rules page) as [[dest|]|] eqn:Ht; [| |discriminate].
    + rewrite (IH _ _ Hloop Hrest). cbn [inv].
      apply lookup_insert_ne. congruence.
    + apply (IH _ _ Hloop Hrest).
Qed.

(** the last page sent to a path owns the entry of the inverse *)
Lemma rewriteLoop_inv_last rules l1 p l2 d : forall acc rw,
  rewriteLoop rules (l1 ++ p :: l2) acc = Some rw ->
  rewriteTarget rules p = Some (Some d) ->
  (forall q, In q l2 -> rewriteTarget rules q <> Some (Some d)) ->
  inv rw !! d = Some p.
Proof.
  induction l1 as [|x l1 IH]; intros acc rw Hloop Htp Hno; cbn [app rewriteLoop] in Hloop.
  - rewrite Htp in Hloop. rewrite (rewriteLoop_inv_keep _ _ _ _ _ Hloop Hno).
    cbn [inv]. apply lookup_insert_eq.
  - destruct (rewriteTarget rules x) as [[dest|]|]; [| |discriminate];
      apply (IH _ _ Hloop Htp Hno).
Qed.

Lemma resolveRewrites_loop rules pages :
  resolveRewrites pages rules = rewriteLoop rules pages {| map := ∅; inv := ∅ |}.
Proof.
  destruct rules as [|r rules]; [|reflexivity].
  cbn [resolveRewrites]. generalize {| map := ∅; inv := ∅ |}.
  induction pages as [|page pages IH]; intros acc; [reflexivity|].
  cbn [rewriteLoop rewriteTarget]. apply IH.
Qed.

End RuleFacts.

(** C7, as the claim states it, fails: when one rule sends the pages [a.md]
    and [b.md] to the same path, the inverse keeps the later page only and
    the round trip from [a.md] ends at [b.md]. *)
Lemma resolveRewrites_round_trip_counterexample :
  exists rw,
    resolveRewrites ["a.md"; "b.md"] [mergingRule] = Some rw /\
    map rw !! "a.md" = Some "index.md" /\
    inv rw !! "index.md" = Some "b.md" /\
    ~ roundTrip [mergingRule] ["a.md"; "b.md"] rw.
Proof.
  eexists. split; [reflexivity|]. split; [reflexivity|]. split; [reflexivity|].
  intros Hrt. destruct (Hrt "a.md") as (dest & Hmap & Hinv).
  - left. reflexivity.
  - exists mergingRule. split; [left; reflexivity|discriminate].
  - vm_compute in Hmap. injection Hmap as <-. vm_compute in Hinv. discriminate.
Qed.

(** a page that no rule matches can still be a key of the inverse: here
    [b.md] is the target of [a.md] *)
Example unmatched_page_as_inverse_key :
  (inv <$> resolveRewrites ["a.md"; "b.md"]
             [{| matchUrl := fun page => if String.eqb page "a.md" then Some tt else None;
                 toPath := fun _ => Some "/b.md" |}])
  = Some {["b.md" := "a.md"]}.
Proof. reflexivity. Qed.

(** C7, amended: when no target throws, [resolveRewrites] returns the two
    mappings. The map sends a page of the list to the path that the first
    rule matching it produces, and holds nothing else (first match wins). An
    entry of the inverse always comes from the map; the page that the
    inverse gives for a path is the last page of the list sent to that path,
    so the round trip holds for every matched page when no two pages share a
    path. A page that no rule matches is no key of the map and no value of
    the inverse. *)
Theorem resolveRewrites_first_match_and_round_trip
    {Params : Type} (rules : list (RewriteRule Params)) (pages : list string) :
  (forall r page res, In r rules -> matchUrl r page = Some res -> toPath r res <> None) ->
  exists rw,
    resolveRewrites pages rules = Some rw /\
    (forall page dest,
       map rw !! page = Some dest <->
       In page pages /\
       exists before r after res p,
         rules = before ++ r :: after /\
         Forall (fun r' => matchUrl r' page = None) before /\
         matchUrl r page = Some res /\ toPath r res = Some p /\
         dest = JS.drop 1 p) /\
    (forall page dest, inv rw !! dest = Some page -> map rw !! page = Some dest) /\
    (forall l1 page l2 dest,
       pages = l1 ++ page :: l2 ->
       map rw !! page = Some dest ->
       (forall q, In q l2 -> map rw !! q <> Some dest) ->
       inv rw !! dest = Some page) /\
    ((forall p q d, map rw !! p = Some d -> map rw !! q = Some d -> p = q) ->
     roundTrip rules pages rw) /\
    (forall page,
       (forall r, In r rules -> matchUrl r page = None) ->
       map rw !! page = None /\ forall dest, inv rw !! dest <> Some page).
Proof.
  intros Htotal.
  destruct (rewriteLoop_total rules pages {| map := ∅; inv := ∅ |}) as [rw Hloop].
  { intros page _. apply rewriteTarget_total. intros r res Hr. apply Htotal, Hr. }
  exists rw. rewrite resolveRewrites_loop. split; [exact Hloop|].
  assert (forall page dest,
            map rw !! page = Some dest <->
            In page pages /\ rewriteTarget rules page = Some (Some dest)) as Hmap.
  { intros page dest. split.
    - intros H. destruct (rewriteLoop_map_sound _ _ _ _ _ _ Hloop H) as [H'|H'];
        [exact H'|]. cbn [map] in H'. rewrite lookup_empty in H'. discriminate.
    - intros [Hin Ht]. apply (rewriteLoop_map_complete _ _ _ _ _ _ Hloop Ht). left. exact Hin. }
  assert (forall page dest, inv rw !! dest = Some page -> map rw !! page = Some dest) as Hinv.
  { intros page dest H. apply Hmap.
    destruct (rewriteLoop_inv_sound _ _ _ _ _ _ Hloop H) as [H'|H']; [exact H'|].
    cbn [inv] in H'. rewrite lookup_empty in H'. discriminate. }
  assert (forall l1 page l2 dest,
            pages = l1 ++ page :: l2 ->
            map rw !! page = Some dest ->
            (forall q, In q l2 -> map rw !! q <> Some dest) ->
            inv rw !! dest = Some page) as Hlast.
  { intros l1 page l2 dest -> Hp Hno.
    apply (rewriteLoop_inv_last _ _ _ _ _ _ _ Hloop).
    - apply Hmap, Hp.
    - intros q Hq Ht. apply (Hno q Hq), Hmap. split; [|exact Ht].
      apply in_or_app. right. right. exact Hq. }
  split; [|split; [exact Hinv|split; [exact Hlast|split]]].
  - intros page dest. rewrite Hmap, rewriteTarget_first. reflexivity.
  - intros Hinj page Hin Hmatched.
    destruct (rewriteTarget rules page) as [[dest|]|] eqn:Ht.
    + exists dest. assert (map rw !! page = Some dest) as Hp by (apply Hmap; auto).
      split; [exact Hp|].
      apply list_elem_of_In, list_elem_of_split_r in Hin as (l1 & l2 & -> & Hnotin).
      apply (Hlast l1 page l2 dest eq_refl Hp).
      intros q Hq Hqd. apply Hnotin. rewrite (Hinj page q dest Hp Hqd).
      apply list_elem_of_In, Hq.
    + exfalso. exact (rewriteTarget_matched rules page Hmatched Ht).
    + exfalso. revert Ht. apply rewriteTarget_total. intros r res Hr. apply Htotal, Hr.
  - intros page Hnone. pose proof (rewriteTarget_unmatched rules page Hnone) as Ht.
    split.
    + destruct (map rw !! page) as [dest|] eqn:Hp; [|reflexivity].
      apply Hmap in Hp as [_ Hp]. congruence.
    + intros dest Hd. apply Hinv, Hmap in Hd as [_ Hd]. congruence.
Qed.

(** the amended statement on a rule that renames the pages of a directory *)
Lemma resolveRewrites_first_match_and_round_trip_witness :
  exists rw,
    resolveRewrites ["index.md"; "packages/a.md"; "packages/b.md"] [renamingRule]
    = Some rw /\
    map rw !! "packages/a.md" = Some "a.md" /\
    inv rw !! "a.md" = Some "packages/a.md".
Proof.
  destruct (resolveRewrites_first_match_and_round_trip [renamingRule]
              ["index.md"; "packages/a.md"; "packages/b.md"]) as (rw & Hrw & _).
  { intros r page res [<-|[]] _. discriminate. }
  exists rw. split; [exact Hrw|].
  vm_compute in Hrw. injection Hrw as <-. split; reflexivity.
Defined.

End RewritesFacts.

(** ** Page resolution *)

Module DynamicRoutesFacts.

Import DynamicRoutes DynamicRoutesSpec.

Lemma Forall_filter {A} (P : A -> Prop) (f : A -> bool) l :
  Forall P l -> Forall P (List.filter f l).
Proof.
  induction 1 as [|x l Hx Hl IH]; cbn [List.filter]; [constructor|].
  destruct (f x); [constructor|]; assumption.
Qed.

Lemma StronglySorted_filter {A} (R : relation A) (f : A -> bool) l :
  StronglySorted R l -> StronglySorted R (List.filter f l).
Proof.
  induction 1 as [|x l Hl IH Hx]; cbn [List.filter]; [constructor|].
  destruct (f x); [|exact IH]. constructor; [exact IH|apply Forall_filter, Hx].
Qed.

Lemma sortFiles_sorted files : Sorted String.le (sortFiles files).
Proof. apply Sorted_merge_sort, _. Qed.

Lemma sortFiles_permutation files : sortFiles files ≡ₚ files.
Proof. apply merge_sort_Permutation. Qed.

(** the order in which the files are found does not matter *)
Lemma sortFiles_stable files files' :
  files ≡ₚ files' -> sortFiles files = sortFiles files'.
Proof.
  intros Hperm. apply (Sorted_unique String.le); try apply sortFiles_sorted.
  rewrite !sortFiles_permutation. exact Hperm.
Qed.

Lemma sortFiles_filter_sorted (f : string -> bool) files :
  Sorted String.le (List.filter f (sortFiles files)).
Proof.
  apply StronglySorted_Sorted, StronglySorted_filter, Sorted_StronglySorted.
  - apply _.
  - apply sortFiles_sorted.
Qed.

Lemma filter_all {A} (f : A -> bool) l :
  (forall x, In x l -> f x = true) -> List.filter f l = l.
Proof.
  induction l as [|x l IH]; intros H; [reflexivity|]. cbn [List.filter].
  rewrite (H x) by (left; reflexivity). f_equal. apply IH.
  intros y Hy. apply H. right. exact Hy.
Qed.

Lemma filter_none {A} (f : A -> bool) l :
  (forall x, In x l -> f x = false) -> List.filter f l = [].
Proof.
  induction l as [|x l IH]; intros H; [reflexivity|]. cbn [List.filter].
  rewrite (H x) by (left; reflexivity). apply IH.
  intros y Hy. apply H. right. exact Hy.
Qed.

Section Cache.

Variable resolveInSrc resolveInCwd : string -> string.
Variable existsSync : string -> bool.
Variable loadConfigFromFile : string -> option RouteModule.

(** with a consistent cache a template contributes what its files say, and
    the cache stays consistent *)
Lemma resolveOne_consistent route st :
  cacheConsistent loadConfigFromFile st ->
  fst (resolveOne resolveInSrc resolveInCwd existsSync loadConfigFromFile route st)
  = routesOf resolveInSrc existsSync loadConfigFromFile route /\
  cacheConsistent loadConfigFromFile
    (snd (resolveOne resolveInSrc resolveInCwd existsSync loadConfigFromFile route st)).
Proof.
  intros Hst. unfold resolveOne, routesOf.
  destruct (List.find existsSync (pathsFiles (resolveInSrc route))) as [pathsFile|];
    [|split; [reflexivity|exact Hst]].
  assert (match routeModuleCache st !! pathsFile with
          | Some m => Some m
          | None => loadConfigFromFile pathsFile
          end = loadConfigFromFile pathsFile) as ->.
  { destruct (routeModuleCache st !! pathsFile) as [m|] eqn:Hc; [|reflexivity].
    symmetry. apply Hst, Hc. }
  destruct (loadConfigFromFile pathsFile) as [m|] eqn:Hload;
    [|split; [reflexivity|exact Hst]].
  assert (forall owners lg,
            cacheConsistent loadConfigFromFile
              {| routeModuleCache := <[pathsFile := m]> (routeModuleCache st);
                 routeFileToModulesMap := owners; logged := lg |}) as Hnew.
  { intros owners lg f m'. cbn [routeModuleCache].
    destruct (decide (pathsFile = f)) as [<-|Hne].
    - rewrite lookup_insert_eq. congruence.
    - rewrite lookup_insert_ne by exact Hne. apply Hst. }
  destruct (modPaths m) as [|[l|]]; split; try reflexivity; apply Hnew.
Qed.

Lemma resolveDynamicRoutes_consistent routes : forall st,
  cacheConsistent loadConfigFromFile st ->
  fst (resolveDynamicRoutes resolveInSrc resolveInCwd existsSync loadConfigFromFile
         routes st)
  = allRoutesOf resolveInSrc existsSync loadConfigFromFile routes /\
  cacheConsistent loadConfigFromFile
    (snd (resolveDynamicRoutes resolveInSrc resolveInCwd existsSync
            loadConfigFromFile routes st)).
Proof.
  induction routes as [|r routes IH]; intros st Hst; [split; [reflexivity|exact Hst]|].
  cbn [resolveDynamicRoutes allRoutesOf].
  destruct (resolveOne_consistent r st Hst) as [Hfst Hsnd].
  destruct (resolveOne resolveInSrc resolveInCwd existsSync loadConfigFromFile r st)
    as [here st1]. cbn [fst snd] in Hfst, Hsnd.
  destruct (IH st1 Hsnd) as [Hfst' Hsnd'].
  destruct (resolveDynamicRoutes resolveInSrc resolveInCwd existsSync
              loadConfigFromFile routes st1) as [others st2].
  cbn [fst snd] in Hfst', Hsnd'. rewrite <- Hfst, <- Hfst'.
  destruct here, others; split; try reflexivity; exact Hsnd'.
Qed.

(** the result of a run is a function of the files, and a run leaves the
    cache consistent *)
Lemma resolvePages_consistent {Params : Type}
    (rules : list (Rewrites.RewriteRule Params)) globbed st :
  cacheConsistent loadConfigFromFile st ->
  fst (resolvePages resolveInSrc resolveInCwd existsSync loadConfigFromFile
         globbed rules st)
  = match allRoutesOf resolveInSrc existsSync loadConfigFromFile
            (List.filter isDynamicRoute (sortFiles globbed)) with
    | None => None
    | Some routes =>
        let pages :=
          List.filter (fun f => negb (isDynamicRoute f)) (sortFiles globbed)
          ++ List.map path routes in
        match Rewrites.resolveRewrites pages rules with
        | None => None
        | Some rw =>
            Some {| pages := pages; dynamicRoutes := routes; rewrites := rw |}
        end
    end /\
  cacheConsistent loadConfigFromFile
    (snd (resolvePages resolveInSrc resolveInCwd existsSync loadConfigFromFile
            globbed rules st)).
Proof.
  intros Hst. unfold resolvePages.
  destruct (resolveDynamicRoutes_consistent
              (List.filter isDynamicRoute (sortFiles globbed)) st Hst) as [Hfst Hsnd].
  destruct (resolveDynamicRoutes resolveInSrc resolveInCwd existsSync
              loadConfigFromFile (List.filter isDynamicRoute (sortFiles globbed)) st)
    as [resolved st']. cbn [fst snd] in Hfst, Hsnd. rewrite <- Hfst.
  destruct resolved as [routes|]; [|split; [reflexivity|exact Hsnd]].
  cbv zeta.
  destruct (Rewrites.resolveRewrites _ rules); split; try reflexivity; exact Hsnd.
Qed.

End Cache.

(** C4, as the claim states it, fails: the pages of a dynamic route come
    after the static pages, here [post/1.md] after [zebra.md], so the final
    list is not in sorted order. *)
Lemma resolvePages_sorted_counterexample :
  resolvedPageList exampleResolveInSrc exampleResolveInSrc exampleExistsSync
    exampleLoad ["zebra.md"; "post/[id].md"; "index.md"]
    (@nil (Rewrites.RewriteRule unit)) exampleState
  = Some ["index.md"; "zebra.md"; "post/1.md"; "post/2.md"] /\
  ~ Sorted String.le ["index.md"; "zebra.md"; "post/1.md"; "post/2.md"].
Proof.
  split; [reflexivity|].
  intros H. inversion H as [|? ? H1 _]; subst.
  inversion H1 as [|? ? _ Hhd]; subst.
  inversion Hhd as [|? ? Hle]; subst. vm_compute in Hle. exact Hle.
Qed.

(** C4, amended: the content files are enumerated in sorted order, and the
    result of [resolvePages] does not depend on the order in which the glob
    returns them, nor, from one run to the next, on what the cache of paths
    modules holds of the files it was loaded from. When it returns, the page
    list is the static pages in sorted order followed by the pages of the
    dynamic routes, in the order of the sorted templates and of each
    template's path list; without route templates and rewrite rules it
    returns the sorted content files. *)
Theorem resolvePages_stable_and_static_sorted
    {Params : Type} (resolveInSrc resolveInCwd : string -> string)
    (existsSync : string -> bool) (loadConfigFromFile : string -> option RouteModule)
    (rules : list (Rewrites.RewriteRule Params)) (st : ResolveState)
    (globbed : list string) :
  Sorted String.le (sortFiles globbed) /\
  sortFiles globbed ≡ₚ globbed /\
  (forall globbed',
     globbed ≡ₚ globbed' ->
     resolvePages resolveInSrc resolveInCwd existsSync loadConfigFromFile
       globbed rules st
     = resolvePages resolveInSrc resolveInCwd existsSync loadConfigFromFile
         globbed' rules st) /\
  (forall globbed' st2,
     globbed ≡ₚ globbed' ->
     cacheConsistent loadConfigFromFile st ->
     cacheConsistent loadConfigFromFile st2 ->
     fst (resolvePages resolveInSrc resolveInCwd existsSync loadConfigFromFile
            globbed rules st)
     = fst (resolvePages resolveInSrc resolveInCwd existsSync loadConfigFromFile
              globbed' rules st2) /\
     cacheConsistent loadConfigFromFile
       (snd (resolvePages resolveInSrc resolveInCwd existsSync loadConfigFromFile
               globbed rules st))) /\
  (forall res st',
     resolvePages resolveInSrc resolveInCwd existsSync loadConfigFromFile
       globbed rules st = (Some res, st') ->
     let static := List.filter (fun f => negb (isDynamicRoute f)) (sortFiles globbed) in
     let templates := List.filter isDynamicRoute (sortFiles globbed) in
     Sorted String.le static /\ Sorted String.le templates /\
     fst (resolveDynamicRoutes resolveInSrc resolveInCwd existsSync
            loadConfigFromFile templates st) = Some (dynamicRoutes res) /\
     pages res = static ++ List.map path (dynamicRoutes res)) /\
  ((forall f, In f globbed -> isDynamicRoute f = false) ->
   resolvedPageList resolveInSrc resolveInCwd existsSync loadConfigFromFile
     globbed (@nil (Rewrites.RewriteRule Params)) st
   = Some (sortFiles globbed)).
Proof.
  split; [apply sortFiles_sorted|]. split; [apply sortFiles_permutation|].
  split; [|split; [|split]].
  - intros globbed' Hperm. unfold resolvePages.
    rewrite (sortFiles_stable globbed globbed' Hperm). reflexivity.
  - intros globbed' st2 Hperm Hst Hst2.
    destruct (resolvePages_consistent resolveInSrc resolveInCwd existsSync
                loadConfigFromFile rules globbed st Hst) as [-> Hsnd].
    destruct (resolvePages_consistent resolveInSrc resolveInCwd existsSync
                loadConfigFromFile rules globbed' st2 Hst2) as [-> _].
    rewrite (sortFiles_stable globbed globbed' Hperm). split; [reflexivity|exact Hsnd].
  - intros res st' Hres static templates.
    split; [apply sortFiles_filter_sorted|]. split; [apply sortFiles_filter_sorted|].
    unfold resolvePages in Hres. fold static templates in Hres.
    destruct (resolveDynamicRoutes resolveInSrc resolveInCwd existsSync
                loadConfigFromFile templates st) as [[routes|] st1]; [|discriminate].
    destruct (Rewrites.resolveRewrites (static ++ List.map path routes) rules)
      as [rw|]; [|discriminate].
    injection Hres as <- <-. split; reflexivity.
  - intros Hnone. unfold resolvedPageList, resolvePages.
    assert (forall f, In f (sortFiles globbed) -> isDynamicRoute f = false) as Hnone'.
    { intros f Hf. apply Hnone. apply list_elem_of_In.
      rewrite <- (sortFiles_permutation globbed). apply list_elem_of_In, Hf. }
    rewrite (filter_none isDynamicRoute _ Hnone').
    rewrite (filter_all (fun f => negb (isDynamicRoute f))).
    + cbn. rewrite app_nil_r. reflexivity.
    + intros f Hf. rewrite (Hnone' f Hf). reflexivity.
Qed.

(** the amended statement on the example tree *)
Lemma resolvePages_stable_and_static_sorted_witness :
  resolvedPageList exampleResolveInSrc exampleResolveInSrc exampleExistsSync
    exampleLoad ["zebra.md"; "index.md"] (@nil (Rewrites.RewriteRule unit))
    exampleState
  = Some (sortFiles ["zebra.md"; "index.md"]).
Proof.
  apply (proj2 (proj2 (proj2 (proj2 (proj2
           (resolvePages_stable_and_static_sorted exampleResolveInSrc
              exampleResolveInSrc exampleExistsSync exampleLoad
              (@nil (Rewrites.RewriteRule unit)) exampleState
              ["zebra.md"; "index.md"])))))).
  intros f [<-|[<-|[]]]; reflexivity.
Defined.

End DynamicRoutesFacts.

(** ** Bundle post-processing *)

Module PluginFacts.

Import Plugin PluginSpec JSFacts.

Lemma length_drop n : forall s, String.length (JS.drop n s) = String.length s - n.
Proof.
  induction n as [|n IH]; intros s; cbn [JS.drop]; [lia|].
  destruct s as [|c s]; [reflexivity|]. rewrite IH. reflexivity.
Qed.

Lemma eqb_length s t : String.eqb s t = true -> String.length s = String.length t.
Proof. intros H. apply String.eqb_eq in H. congruence. Qed.

(** the run of hash characters stops at a dot *)
Lemma hashRun_dot_le x y : hashRun (x +:+ "." +:+ y) <= String.length x.
Proof.
  induction x as [|c x IH].
  - rewrite append_nil_l, append_cons.
    assert (hashRun (String "." ("" +:+ y)) = 0) as -> by reflexivity.
    apply Nat.le_refl.
  - rewrite append_cons. cbn [hashRun String.length].
    destruct (isHashChar c); lia.
Qed.

Lemma hashRun_full h y :
  hashRun h = String.length h -> hashRun (h +:+ "." +:+ y) = String.length h.
Proof.
  induction h as [|c h IH]; intros H; [reflexivity|].
  rewrite append_cons. cbn [hashRun String.length] in H |- *.
  destruct (isHashChar c); [|discriminate]. f_equal. apply IH. lia.
Qed.

Lemma hashAt_here h :
  h <> "" -> hashRun h = String.length h ->
  hashAt ("." +:+ h +:+ ".js") = Some h.
Proof.
  intros Hne Hrun. rewrite append_cons, append_nil_l. unfold hashAt.
  assert (hashRun (h +:+ ".js") = String.length h) as Hk
    by exact (hashRun_full h "js" Hrun).
  rewrite Hk, drop_append, take_append, Ascii.eqb_refl, String.eqb_refl.
  destruct h as [|c h]; [congruence|]. reflexivity.
Qed.

Lemma hashAt_inside c x h :
  hashAt (String c x +:+ "." +:+ h +:+ ".js") = None.
Proof.
  rewrite append_cons. unfold hashAt.
  destruct (Ascii.eqb c "."); [|reflexivity].
  destruct (0 <? hashRun (x +:+ "." +:+ h +:+ ".js")); [|reflexivity].
  cbn [andb].
  destruct (String.eqb (JS.drop (hashRun (x +:+ "." +:+ h +:+ ".js"))
                          (x +:+ "." +:+ h +:+ ".js")) ".js") eqn:E; [|reflexivity].
  apply eqb_length in E. rewrite length_drop, !length_append in E.
  pose proof (hashRun_dot_le x (h +:+ ".js")). cbn [String.length] in E. lia.
Qed.

(** the hash of a file name [stem.hash.js] *)
Lemma hashRE_hashed stem h :
  h <> "" -> hashRun h = String.length h ->
  hashRE (stem +:+ "." +:+ h +:+ ".js") = Some h.
Proof.
  intros Hne Hrun. induction stem as [|c stem IH].
  - rewrite append_nil_l.
    destruct h as [|c h]; [congruence|].
    pose proof (hashAt_here (String c h) Hne Hrun) as Hh.
    rewrite append_cons in *. cbn [hashRE]. rewrite Hh. reflexivity.
  - pose proof (hashAt_inside c stem h) as Hin.
    rewrite append_cons in *. cbn [hashRE]. rewrite Hin. exact IH.
Qed.

Lemma leanName stem h :
  JS.replaceSuffix ".js" ".lean.js" (stem +:+ "." +:+ h +:+ ".js")
  = stem +:+ "." +:+ h +:+ ".lean.js".
Proof.
  rewrite <- !append_assoc. rewrite replaceSuffix_append. reflexivity.
Qed.

Lemma staticRegion_length q1 body q2 :
  String.length (staticRegion q1 body q2) = 20 + (String.length body + 18).
Proof.
  unfold staticRegion. cbn [String.length]. rewrite !length_append.
  cbn [String.length STATIC_START STATIC_END]. lia.
Qed.

Lemma staticRegion_append q1 body q2 post :
  staticRegion q1 body q2 +:+ post
  = String q1 (STATIC_START +:+ (body +:+ STATIC_END +:+ String q2 post)).
Proof.
  unfold staticRegion. rewrite append_cons, !append_assoc, append_cons, append_nil_l.
  reflexivity.
Qed.

(** the expression matches a region whose end marker is the first that a
    quote follows *)
Lemma staticStripRE_region q1 body q2 post :
  isQuote q1 = true ->
  staticEnd (body +:+ STATIC_END +:+ String q2 post)
  = Some (String.length body + 18) ->
  staticStripRE (staticRegion q1 body q2 +:+ post)
  = Some (String.length (staticRegion q1 body q2)).
Proof.
  intros Hq Hend. rewrite staticRegion_append, staticRegion_length.
  unfold staticStripRE. rewrite Hq, startsWith_append. cbn [andb].
  change 19 with (String.length STATIC_START).
  rewrite drop_append, Hend. reflexivity.
Qed.

(** a marked region becomes an empty string literal *)
Lemma stripStatic_region pre q1 body q2 post :
  isQuote q1 = true ->
  JS.noMatchWithin staticStripRE pre (staticRegion q1 body q2 +:+ post) = true ->
  staticEnd (body +:+ STATIC_END +:+ String q2 post)
  = Some (String.length body + 18) ->
  stripStatic (pre +:+ staticRegion q1 body q2 +:+ post)
  = pre +:+ emptyLiteral +:+ stripStatic post.
Proof.
  intros Hq Hpre Hend. unfold stripStatic.
  rewrite replaceAll_copy by (auto || exact Hpre). f_equal.
  rewrite replaceAll_match; [reflexivity|auto|discriminate|].
  apply staticStripRE_region; assumption.
Qed.

(** text without a marked region is left as it is *)
Lemma stripStatic_plain code :
  JS.noMatchWithin staticStripRE code "" = true -> stripStatic code = code.
Proof.
  intros H. unfold stripStatic. rewrite <- (append_nil_r code) at 1.
  rewrite replaceAll_copy by (auto || exact H). apply append_nil_r.
Qed.

(** a marker is removed *)
Lemma restoreStatic_marker pre marker post :
  marker = STATIC_START \/ marker = STATIC_END ->
  JS.noMatchWithin staticRestoreRE pre (marker +:+ post) = true ->
  restoreStatic (pre +:+ marker +:+ post) = pre +:+ restoreStatic post.
Proof.
  intros Hm Hpre. unfold restoreStatic.
  rewrite replaceAll_copy by (auto || exact Hpre). f_equal.
  rewrite replaceAll_match; [reflexivity|auto| |].
  - destruct Hm as [-> | ->]; discriminate.
  - destruct Hm as [-> | ->]; unfold staticRestoreRE.
    + rewrite startsWith_append. reflexivity.
    + rewrite startsWith_append.
      destruct (JS.startsWith (STATIC_END +:+ post) STATIC_START) eqn:E; [|reflexivity].
      exfalso. revert E. unfold STATIC_END, STATIC_START.
      rewrite !append_cons. cbn. discriminate.
Qed.

Lemma restoreStatic_plain code :
  JS.noMatchWithin staticRestoreRE code "" = true -> restoreStatic code = code.
Proof.
  intros H. unfold restoreStatic. rewrite <- (append_nil_r code) at 1.
  rewrite replaceAll_copy by (auto || exact H). apply append_nil_r.
Qed.

Lemma append_inj_l t : forall s s', s +:+ t = s' +:+ t -> s = s'.
Proof.
  intros s s' H.
  assert (String.length s = String.length s') as Hlen.
  { apply (f_equal String.length) in H. rewrite !length_append in H. lia. }
  rewrite <- (take_append s t), H, Hlen. apply take_append.
Qed.

Lemma key_ne_lean k : k <> k +:+ "-lean".
Proof.
  intros H. apply (f_equal String.length) in H. rewrite length_append in H.
  cbn [String.length] in H. lia.
Qed.

(** the three ways the body of the loop goes *)
Lemma processChunk_cases key st :
  (exists c h,
     bundle st !! key = Some (Chunk c) /\ isPageChunk (Chunk c) = true /\
     hashRE (fileName c) = Some h /\
     processChunk key st
     = Some {| bundle := <[key := Chunk (restoredChunk c)]>
                           (<[key +:+ "-lean" := Chunk (leanChunk c)]> (bundle st));
               pageToHashMap := <[JS.toLowerCase (name c) := h]> (pageToHashMap st);
               emitted := emitted st |}) \/
  (exists c,
     bundle st !! key = Some (Chunk c) /\ isPageChunk (Chunk c) = true /\
     hashRE (fileName c) = None /\ processChunk key st = None) \/
  ((forall c, bundle st !! key = Some (Chunk c) -> isPageChunk (Chunk c) = false) /\
   processChunk key st = Some st).
Proof.
  unfold processChunk. destruct (bundle st !! key) as [[f src|c]|] eqn:Hk.
  - right. right. split; [discriminate|reflexivity].
  - destruct (isPageChunk (Chunk c)) eqn:Hpage.
    + destruct (hashRE (fileName c)) as [h|] eqn:Hh.
      * left. exists c, h. auto.
      * right. left. exists c. auto.
    + right. right. split; [|reflexivity]. intros c' [= <-]. exact Hpage.
  - right. right. split; [discriminate|reflexivity].
Qed.

Lemma processChunks_spec keys : forall st,
  NoDup keys -> leanKeysFree keys -> pageChunksHashed keys (bundle st) ->
  exists st', processChunks keys st = Some st' /\ loopResult keys st st'.
Proof.
  induction keys as [|k0 rest IH]; intros st Hnodup Hfree Hhashed.
  { exists st. split; [reflexivity|]. unfold loopResult.
    split; [reflexivity|]. split; [reflexivity|].
    split; [intros k c []|]. split; [intros k []|reflexivity]. }
  apply NoDup_cons in Hnodup as [Hk0 Hnodup].
  assert (leanKeysFree rest) as Hfree'.
  { intros k k' Hk Hk'. apply Hfree; right; assumption. }
  assert (forall k, In k rest -> k <> k0 /\ k <> k0 +:+ "-lean") as Hrest.
  { intros k Hk. split.
    - intros ->. apply Hk0. apply list_elem_of_In, Hk.
    - apply Hfree; [right; exact Hk|left; reflexivity]. }
  assert (forall k, In k rest -> k0 <> k /\ k0 <> k +:+ "-lean") as Hk0rest.
  { intros k Hk. split.
    - intros ->. apply Hk0. apply list_elem_of_In, Hk.
    - apply Hfree; [left; reflexivity|right; exact Hk]. }
  assert (forall k, In k rest -> k0 +:+ "-lean" <> k /\ k0 +:+ "-lean" <> k +:+ "-lean")
    as Hleanrest.
  { intros k Hk. split.
    - intros Heq. apply (proj2 (Hrest k Hk)). symmetry. exact Heq.
    - intros Heq. apply append_inj_l in Heq. apply (proj1 (Hk0rest k Hk)), Heq. }
  cbn [processChunks].
  destruct (processChunk_cases k0 st)
    as [(c0 & h0 & Hc0 & Hpage0 & Hh0 & Hstep)|[(c0 & Hc0 & Hpage0 & Hh0 & _)|[Hnon Hstep]]].
  - (* a page chunk *)
    rewrite Hstep.
    set (st1 := {| bundle := _; pageToHashMap := _; emitted := _ |}).
    assert (forall x, x <> k0 -> x <> k0 +:+ "-lean" -> bundle st1 !! x = bundle st !! x)
      as Hother.
    { intros x Hx Hx'. cbn [st1 bundle].
      rewrite lookup_insert_ne by congruence. apply lookup_insert_ne. congruence. }
    assert (forall k, In k rest -> bundle st1 !! k = bundle st !! k) as Hsame.
    { intros k Hk. apply Hother; apply Hrest, Hk. }
    destruct (IH st1 Hnodup Hfree') as (st' & Hrun & Hfoot & Hmapkeep & Hpages & Hnons & Hem).
    { intros k c Hk Hkc. apply (Hhashed k c); [right; exact Hk|].
      rewrite <- Hkc. symmetry. apply Hsame, Hk. }
    exists st'. split; [exact Hrun|]. unfold loopResult.
    split; [|split; [|split; [|split]]].
    + intros x Hx. rewrite Hfoot by (intros k Hk; apply Hx; right; exact Hk).
      apply Hother; apply (Hx k0); left; reflexivity.
    + intros n Hn. rewrite Hmapkeep.
      * cbn [st1 pageToHashMap]. apply lookup_insert_ne.
        apply (Hn k0 c0); [left; reflexivity|assumption..].
      * intros k c Hk Hkc. apply (Hn k c); [right; exact Hk|].
        rewrite <- Hkc. symmetry. apply Hsame, Hk.
    + intros k c [<-|Hk] Hkc Hpage.
      * assert (c = c0) as -> by congruence.
        split; [|split].
        -- rewrite Hfoot by exact Hk0rest. cbn [st1 bundle].
           apply lookup_insert_eq.
        -- rewrite Hfoot by exact Hleanrest. cbn [st1 bundle].
           rewrite lookup_insert_ne by apply key_ne_lean.
           apply lookup_insert_eq.
        -- intros Huniq h Hh. rewrite Hmapkeep.
           ++ cbn [st1 pageToHashMap]. rewrite lookup_insert_eq. congruence.
           ++ intros k c Hk Hkc' Hpage'.
              apply (Huniq k c); [right; exact Hk| | |exact Hpage'].
              ** apply Hrest, Hk.
              ** rewrite <- Hkc'. symmetry. apply Hsame, Hk.
      * assert (bundle st1 !! k = Some (Chunk c)) as Hkc1
          by (rewrite Hsame; assumption).
        destruct (Hpages k c Hk Hkc1 Hpage) as (Hr & Hl & Hhash).
        split; [exact Hr|]. split; [exact Hl|].
        intros Huniq h Hh. apply Hhash; [|exact Hh].
        intros k' c' Hk' Hne Hk'c' Hpage'.
        apply (Huniq k' c'); [right; exact Hk'|exact Hne| |exact Hpage'].
        rewrite <- Hk'c'. symmetry. apply Hsame, Hk'.
    + intros k [<-|Hk] Hnonk.
      * rewrite (Hnonk c0 Hc0) in Hpage0. discriminate.
      * rewrite Hnons; [apply Hsame, Hk|exact Hk|].
        intros c Hkc. apply Hnonk. rewrite <- Hkc. symmetry. apply Hsame, Hk.
    + exact Hem.
  - (* a page chunk without a hash: excluded *)
    exfalso. apply (Hhashed k0 c0); [left; reflexivity|assumption..].
  - (* anything else *)
    rewrite Hstep.
    destruct (IH st Hnodup Hfree') as (st' & Hrun & Hfoot & Hmapkeep & Hpages & Hnons & Hem).
    { intros k c Hk. apply Hhashed. right. exact Hk. }
    exists st'. split; [exact Hrun|]. unfold loopResult.
    split; [|split; [|split; [|split]]].
    + intros x Hx. apply Hfoot. intros k Hk. apply Hx. right. exact Hk.
    + intros n Hn. apply Hmapkeep. intros k c Hk. apply Hn. right. exact Hk.
    + intros k c [<-|Hk] Hkc Hpage; [rewrite (Hnon c Hkc) in Hpage; discriminate|].
      destruct (Hpages k c Hk Hkc Hpage) as (Hr & Hl & Hhash).
      split; [exact Hr|]. split; [exact Hl|].
      intros Huniq h Hh. apply Hhash; [|exact Hh].
      intros k' c' Hk'. apply Huniq. right. exact Hk'.
    + intros k [<-|Hk] Hnonk.
      * apply Hfoot. exact Hk0rest.
      * apply Hnons; assumption.
    + exact Hem.
Qed.

(** C5: in the client build, for a bundle whose keys are distinct and free
    of lean keys and whose page chunks all have a hashed file name, the hook
    returns, and for every page chunk, named [stem.hash.js] with a hash of
    word characters and hyphens: the hash is recorded under the lower-cased
    chunk name (it stays there when no other page chunk has that name up to
    case); a lean chunk is added whose file name is [stem.hash.lean.js] and
    whose code is the code with every marked region replaced by an empty
    string literal; the chunk itself keeps its file name and has the markers
    removed from its code. *)
Theorem generateBundle_page_chunk
    (keys : list string) (st : BundleState) (key : string) (c : OutputChunk)
    (stem hash : string) :
  NoDup keys -> leanKeysFree keys -> pageChunksHashed keys (bundle st) ->
  In key keys -> bundle st !! key = Some (Chunk c) ->
  isPageChunk (Chunk c) = true ->
  fileName c = stem +:+ "." +:+ hash +:+ ".js" ->
  hash <> "" -> hashRun hash = String.length hash ->
  exists st',
    generateBundle false keys st = Some st' /\
    (nameUnique keys (bundle st) key c ->
     pageToHashMap st' !! JS.toLowerCase (name c) = Some hash) /\
    (exists lean,
       bundle st' !! (key +:+ "-lean") = Some (Chunk lean) /\
       name lean = name c /\
       fileName lean = stem +:+ "." +:+ hash +:+ ".lean.js" /\
       code lean = stripStatic (code c) /\
       (forall pre q1 body q2 post,
          code c = pre +:+ staticRegion q1 body q2 +:+ post ->
          isQuote q1 = true ->
          JS.noMatchWithin staticStripRE pre (staticRegion q1 body q2 +:+ post) = true ->
          staticEnd (body +:+ STATIC_END +:+ String q2 post)
          = Some (String.length body + 18) ->
          code lean = pre +:+ emptyLiteral +:+ stripStatic post)) /\
    (exists orig,
       bundle st' !! key = Some (Chunk orig) /\
       name orig = name c /\ fileName orig = fileName c /\
       code orig = restoreStatic (code c) /\
       (forall pre marker post,
          code c = pre +:+ marker +:+ post ->
          marker = STATIC_START \/ marker = STATIC_END ->
          JS.noMatchWithin staticRestoreRE pre (marker +:+ post) = true ->
          code orig = pre +:+ restoreStatic post)).
Proof.
  intros Hnodup Hfree Hhashed Hin Hkey Hpage Hname Hne Hrun.
  destruct (processChunks_spec keys st Hnodup Hfree Hhashed)
    as (st' & Hgen & _ & _ & Hpages & _ & _).
  destruct (Hpages key c Hin Hkey Hpage) as (Horig & Hlean & Hhash).
  exists st'. split; [exact Hgen|]. split; [|split].
  - intros Huniq. apply (Hhash Huniq). rewrite Hname. apply hashRE_hashed; assumption.
  - exists (leanChunk c). split; [exact Hlean|]. split; [reflexivity|].
    split; [cbn [leanChunk fileName]; rewrite Hname; apply leanName|].
    split; [reflexivity|].
    intros pre q1 body q2 post Hcode Hq Hpre Hend. cbn [leanChunk code].
    rewrite Hcode. apply stripStatic_region; assumption.
  - exists (restoredChunk c). split; [exact Horig|]. split; [reflexivity|].
    split; [reflexivity|]. split; [reflexivity|].
    intros pre marker post Hcode Hm Hpre. cbn [restoredChunk code].
    rewrite Hcode. apply restoreStatic_marker; assumption.
Qed.

(** the hook on a bundle of one page chunk and one style sheet *)
Lemma generateBundle_page_chunk_witness :
  exists st' lean orig,
    generateBundle false exampleKeys
      {| bundle := exampleBundle; pageToHashMap := ∅; emitted := [] |} = Some st' /\
    pageToHashMap st' !! "guide_intro.md" = Some "Dq3x-_9z" /\
    bundle st' !! "assets/Guide_Intro.md.Dq3x-_9z.js-lean" = Some (Chunk lean) /\
    fileName lean = "assets/Guide_Intro.md.Dq3x-_9z.lean.js" /\
    code lean = "const _hoisted_1 = createStaticVNode(" +:+ emptyLiteral +:+ ", 1)" /\
    bundle st' !! "assets/Guide_Intro.md.Dq3x-_9z.js" = Some (Chunk orig) /\
    code orig = "const _hoisted_1 = createStaticVNode(" +:+ JS.dq
                +:+ "<h1>Intro</h1>" +:+ JS.dq +:+ ", 1)".
Proof.
  destruct (generateBundle_page_chunk exampleKeys
              {| bundle := exampleBundle; pageToHashMap := ∅; emitted := [] |}
              "assets/Guide_Intro.md.Dq3x-_9z.js" examplePageChunk
              "assets/Guide_Intro.md" "Dq3x-_9z")
    as (st' & Hgen & Hhash & (lean & Hlean & _ & Hlname & Hlcode & _)
        & (orig & Horig & _ & _ & Hocode & _)).
  - apply NoDup_cons. split; [|apply NoDup_singleton].
    intros [H|[]]%list_elem_of_In. discriminate.
  - intros k k' [<-|[<-|[]]] [<-|[<-|[]]]; discriminate.
  - intros k c [<-|[<-|[]]] Hk _; vm_compute in Hk; [|discriminate].
    injection Hk as <-. discriminate.
  - left. reflexivity.
  - reflexivity.
  - reflexivity.
  - reflexivity.
  - discriminate.
  - reflexivity.
  - exists st', lean, orig. split; [exact Hgen|]. split.
    { apply Hhash. intros k' c' [<-|[<-|[]]] Hne Hk' _; [contradiction|].
      vm_compute in Hk'. discriminate. }
    split; [exact Hlean|]. split; [exact Hlname|]. split; [rewrite Hlcode; reflexivity|].
    split; [exact Horig|]. rewrite Hocode. reflexivity.
Defined.

End PluginFacts.

(** ** The page-module loader *)

Module ClientAppFacts.

Import ClientApp ClientAppSpec JSFacts.

(** once the first load is over the loader does not change its state *)
Lemma loadPageModule_later mode first file now :
  loadPageModule true mode file now
    {| isInitialPageLoad := false; initialPath := first |}
  = (laterRequest mode first (file, now),
     {| isInitialPageLoad := false; initialPath := first |}).
Proof.
  unfold loadPageModule, laterRequest. cbn [fst snd isInitialPageLoad initialPath orb].
  destruct file as [[|c file]|]; [reflexivity| |reflexivity].
  destruct first as [f|]; [|destruct mode; reflexivity].
  destruct (String.eqb f (String c file)); destruct mode; reflexivity.
Qed.

Lemma session_later mode first calls :
  session true mode calls {| isInitialPageLoad := false; initialPath := first |}
  = List.map (laterRequest mode first) calls.
Proof.
  induction calls as [|[file now] calls IH]; [reflexivity|].
  cbn [session List.map]. rewrite loadPageModule_later, IH. reflexivity.
Qed.

Lemma loadPageModule_first mode first now :
  first <> "" ->
  loadPageModule true mode (Some first) now (newRouter true)
  = (Some (requestFor mode (leanVariant first) now),
     {| isInitialPageLoad := false; initialPath := Some first |}).
Proof.
  intros Hne. destruct first as [|c first]; [congruence|].
  unfold loadPageModule, newRouter. cbn [isInitialPageLoad initialPath orb].
  destruct mode; reflexivity.
Qed.

(** outside the browser the first load is not marked: every request is for
    the full variant *)
Lemma session_server mode calls :
  session false mode calls (newRouter false)
  = List.map (laterRequest mode None) calls.
Proof.
  unfold newRouter. induction calls as [|[file now] calls IH]; [reflexivity|].
  cbn [session List.map].
  assert (loadPageModule false mode file now
            {| isInitialPageLoad := false; initialPath := None |}
          = (laterRequest mode None (file, now),
             {| isInitialPageLoad := false; initialPath := None |})) as ->.
  { unfold loadPageModule, laterRequest. cbn [fst snd isInitialPageLoad initialPath orb].
    destruct file as [[|c file]|]; [reflexivity| |reflexivity].
    destruct mode; reflexivity. }
  rewrite IH. reflexivity.
Qed.

Lemma leanVariant_js stem : leanVariant (stem +:+ ".js") = stem +:+ ".lean.js".
Proof. apply replaceSuffix_append. Qed.



End ClientAppFacts.

(** ** The router *)

Module RouterFacts.

Import Shared Router RouterSpec.

Section Steps.

Context {Component : Type}.
Variable inBrowser : bool.
Variable withBase : string -> string.
Variable pathnameOf : string -> string.
Variable fallbackComponent : option Component.

Local Abbreviation step' := (step inBrowser withBase pathnameOf fallbackComponent).
Local Abbreviation run' := (run inBrowser withBase pathnameOf fallbackComponent).

Implicit Types (st : RouterState Component) (t : Task).

Lemma taskState_Some st id s :
  taskState st id = Some s <-> exists t, tasks st !! id = Some t /\ state t = s.
Proof.
  unfold taskState. destruct (tasks st !! id) as [t|]; cbn.
  - split; [intros [= <-]; eauto|intros (t' & [= <-] & <-); reflexivity].
  - split; [discriminate|intros (t' & Habs & _); discriminate].
Qed.

Lemma run_app st es1 es2 :
  run' st (es1 ++ es2)
  = match run' st es1 with Some st' => run' st' es2 | None => None end.
Proof.
  revert st. induction es1 as [|e es1 IH]; intros st; [reflexivity|].
  cbn [app run]. destruct (step' st e); [apply IH|reflexivity].
Qed.

Lemma isPending_false latest p : latest <> Some p -> isPending latest p = false.
Proof.
  intros H. destruct latest as [q|]; [|reflexivity]. cbn.
  apply String.eqb_neq. congruence.
Qed.

Lemma isPending_true p : isPending (Some p) p = true.
Proof. apply String.eqb_refl. Qed.

(** a call is appended to the tasks *)
Lemma step_call st h s :
  step' st (Call h s)
  = Some {| route := route st; latestPendingPath := latestPendingPath st;
            tasks := tasks st ++ [{| href := h; scrollPosition := s;
                                     isRetry := false; state := AwaitHook |}];
            actions := actions st |}.
Proof. reflexivity. Qed.

(** the hook lets the call go on: the path is registered, the import starts *)
Lemma step_hook_proceed st id t :
  tasks st !! id = Some t -> state t = AwaitHook ->
  step' st (HookDone id HookProceed)
  = Some {| route := route st;
            latestPendingPath := Some (pathnameOf (href t));
            tasks := setState id (AwaitImport (pathnameOf (href t))) (tasks st);
            actions := actions st ++ [ImportRequested (pathnameOf (href t))] |}.
Proof. intros Ht Hs. cbn [step]. rewrite Ht, Hs. reflexivity. Qed.

(** the import of a superseded call resolves: nothing but the task changes *)
Lemma step_import_discarded st id t p m :
  tasks st !! id = Some t -> state t = AwaitImport p ->
  latestPendingPath st <> Some p ->
  step' st (ImportDone id (Loaded m))
  = Some {| route := route st; latestPendingPath := latestPendingPath st;
            tasks := setState id Returned (tasks st);
            actions := actions st |}.
Proof.
  intros Ht Hs Hp. cbn [step]. rewrite Ht, Hs, (isPending_false _ _ Hp). reflexivity.
Qed.

(** the import of the latest pending path resolves: the route is replaced *)
Lemma step_import_committed st id t p m comp :
  tasks st !! id = Some t -> state t = AwaitImport p ->
  latestPendingPath st = Some p -> default m = Some comp ->
  step' st (ImportDone id (Loaded m))
  = Some {| route := loadedRoute inBrowser withBase p comp m;
            latestPendingPath := None;
            tasks := setState id Returned (tasks st);
            actions := if inBrowser
                       then actions st ++ [NextTick p (scrollPosition t)]
                       else actions st |}.
Proof.
  intros Ht Hs Hp Hc. cbn [step]. rewrite Ht, Hs, Hp, isPending_true, Hc. reflexivity.
Qed.

(** a first load fails: the hash map is requested *)
Lemma step_import_failed_first st id t p r :
  tasks st !! id = Some t -> state t = AwaitImport p -> isRetry t = false ->
  isFailure r ->
  exists st',
    step' st (ImportDone id r) = Some st' /\
    route st' = route st /\ latestPendingPath st' = latestPendingPath st /\
    tasks st' = setState id (AwaitFetch p) (tasks st) /\
    requests (actions st') = requests (actions st) ++ [HashMapRequested].
Proof.
  intros Ht Hs Hr Hfail. cbn [step]. rewrite Ht, Hs.
  destruct r as [m| |msg]; [destruct Hfail| |]; eexists; (split; [reflexivity|]);
    unfold onError; rewrite Hr; cbn [negb route latestPendingPath tasks actions];
    repeat split;
    unfold requests; rewrite ?List.filter_app;
    match goal with |- context [if ?b then _ else _] => destruct b end;
    rewrite ?List.filter_app; cbn [List.filter isRequest]; rewrite ?app_nil_r; reflexivity.
Qed.

(** a retried load fails: the not-found route, when the path is still pending *)
Lemma step_import_failed_retry st id t p r :
  tasks st !! id = Some t -> state t = AwaitImport p -> isRetry t = true ->
  isFailure r -> latestPendingPath st = Some p ->
  exists st',
    step' st (ImportDone id r) = Some st' /\
    route st' = notFoundRoute inBrowser withBase fallbackComponent p /\
    latestPendingPath st' = None /\
    tasks st' = setState id Returned (tasks st) /\
    requests (actions st') = requests (actions st).
Proof.
  intros Ht Hs Hr Hfail Hp. cbn [step]. rewrite Ht, Hs.
  destruct r as [m| |msg]; [destruct Hfail| |]; eexists; (split; [reflexivity|]);
    unfold onError; rewrite Hr; cbn [negb]; unfold notFound;
    cbn [route latestPendingPath tasks actions]; rewrite Hp, isPending_true;
    cbn [route latestPendingPath tasks actions]; repeat split;
    unfold requests;
    match goal with |- context [if ?b then _ else _] => destruct b end;
    rewrite ?List.filter_app; cbn [List.filter isRequest]; rewrite ?app_nil_r; reflexivity.
Qed.


Lemma lookup_at0 {A} (l : list A) x l' : (l ++ x :: l') !! length l = Some x.
Proof. apply list_lookup_middle. reflexivity. Qed.

Lemma lookup_at1 {A} (l : list A) x y l' : (l ++ x :: y :: l') !! S (length l) = Some y.
Proof.
  change (l ++ x :: y :: l') with (l ++ [x] ++ y :: l'). rewrite app_assoc.
  apply list_lookup_middle. rewrite length_app. cbn. lia.
Qed.

Lemma setState_at0 (l : list Task) t l' s :
  setState (length l) s (l ++ t :: l') = l ++ withState t s :: l'.
Proof.
  unfold setState. rewrite <- (Nat.add_0_r (length l)), alter_app_r. reflexivity.
Qed.

Lemma setState_at1 (l : list Task) t u l' s :
  setState (S (length l)) s (l ++ t :: u :: l') = l ++ t :: withState u s :: l'.
Proof.
  unfold setState. replace (S (length l)) with (length l + 1) by lia.
  rewrite alter_app_r. reflexivity.
Qed.

Lemma snoc_snoc {A} (l : list A) x y : (l ++ [x]) ++ [y] = l ++ [x; y].
Proof. rewrite <- app_assoc. reflexivity. Qed.

(** two calls, the second registered after the first, both imports pending *)
Lemma run_two_calls st hA sA hB sB :
  run' st [Call hA sA; HookDone (length (tasks st)) HookProceed;
           Call hB sB; HookDone (S (length (tasks st))) HookProceed]
  = Some {| route := route st;
            latestPendingPath := Some (pathnameOf hB);
            tasks := tasks st ++
                     [{| href := hA; scrollPosition := sA; isRetry := false;
                         state := AwaitImport (pathnameOf hA) |};
                      {| href := hB; scrollPosition := sB; isRetry := false;
                         state := AwaitImport (pathnameOf hB) |}];
            actions := (actions st ++ [ImportRequested (pathnameOf hA)])
                       ++ [ImportRequested (pathnameOf hB)] |}.
Proof.
  cbn [run]. rewrite step_call.
  erewrite step_hook_proceed by (cbn [tasks]; first [apply lookup_at0|reflexivity]).
  cbn [route latestPendingPath tasks actions href]. rewrite setState_at0.
  rewrite step_call. cbn [route latestPendingPath tasks actions]. rewrite snoc_snoc.
  erewrite step_hook_proceed by (cbn [tasks]; first [apply lookup_at1|reflexivity]).
  cbn [route latestPendingPath tasks actions href]. rewrite setState_at1.
  reflexivity.
Qed.


Lemma taskState_at0 (r : Route Component) latest (l : list Task) t l' acts :
  taskState {| route := r; latestPendingPath := latest;
               tasks := l ++ t :: l'; actions := acts |} (length l)
  = Some (state t).
Proof. unfold taskState. cbn [tasks]. rewrite lookup_at0. reflexivity. Qed.

Lemma taskState_at1 (r : Route Component) latest (l : list Task) t u l' acts :
  taskState {| route := r; latestPendingPath := latest;
               tasks := l ++ t :: u :: l'; actions := acts |} (S (length l))
  = Some (state u).
Proof. unfold taskState. cbn [tasks]. rewrite lookup_at1. reflexivity. Qed.

Lemma taskState_setState st id s0 s :
  taskState st id = Some s0 ->
  state <$> (setState id s (tasks st) !! id) = Some s.
Proof.
  intros (t & Ht & _)%taskState_Some. unfold setState.
  rewrite list_lookup_alter_eq, Ht. reflexivity.
Qed.

(** a superseded import leaves everything but its own task alone *)
Lemma import_discarded st id p m :
  taskState st id = Some (AwaitImport p) ->
  latestPendingPath st <> Some p ->
  exists st',
    step' st (ImportDone id (Loaded m)) = Some st' /\
    route st' = route st /\ latestPendingPath st' = latestPendingPath st /\
    actions st' = actions st /\ taskState st' id = Some Returned.
Proof.
  intros Hid Hp. pose proof Hid as (t & Ht & Hs)%taskState_Some.
  eexists. split; [apply (step_import_discarded st id t p m Ht Hs Hp)|].
  repeat split. unfold taskState. cbn [tasks].
  apply (taskState_setState st id _ _ Hid).
Qed.

(** the import of the latest pending path replaces the route *)
Lemma import_committed st id p m comp :
  taskState st id = Some (AwaitImport p) ->
  latestPendingPath st = Some p -> default m = Some comp ->
  exists st',
    step' st (ImportDone id (Loaded m)) = Some st' /\
    route st' = loadedRoute inBrowser withBase p comp m /\
    latestPendingPath st' = None /\ taskState st' id = Some Returned.
Proof.
  intros Hid Hp Hc. pose proof Hid as (t & Ht & Hs)%taskState_Some.
  eexists. split; [apply (step_import_committed st id t p m comp Ht Hs Hp Hc)|].
  repeat split. unfold taskState. cbn [tasks].
  apply (taskState_setState st id _ _ Hid).
Qed.

(** two calls for different paths: the later one wins in either order *)
Lemma last_call_wins st hA sA hB sB mA mB compB order :
  pathnameOf hA <> pathnameOf hB -> default mB = Some compB ->
  order = [ImportDone (length (tasks st)) (Loaded mA);
           ImportDone (S (length (tasks st))) (Loaded mB)] \/
  order = [ImportDone (S (length (tasks st))) (Loaded mB);
           ImportDone (length (tasks st)) (Loaded mA)] ->
  exists st',
    run' st ([Call hA sA; HookDone (length (tasks st)) HookProceed;
              Call hB sB; HookDone (S (length (tasks st))) HookProceed] ++ order)
    = Some st' /\
    route st' = loadedRoute inBrowser withBase (pathnameOf hB) compB mB /\
    latestPendingPath st' = None /\
    taskState st' (length (tasks st)) = Some Returned /\
    taskState st' (S (length (tasks st))) = Some Returned.
Proof.
  intros Hne Hc Horder. rewrite run_app, run_two_calls.
  destruct Horder as [-> | ->]; cbn [run].
  - erewrite step_import_discarded
      by (cbn [tasks latestPendingPath]; first [apply lookup_at0|reflexivity|congruence]).
    cbn [route latestPendingPath tasks actions]. rewrite setState_at0.
    erewrite step_import_committed
      by (cbn [tasks latestPendingPath]; first [apply lookup_at1|reflexivity|exact Hc]).
    cbn [route latestPendingPath tasks actions]. rewrite setState_at1.
    eexists. split; [reflexivity|].
    split; [reflexivity|]. split; [reflexivity|].
    split; [apply taskState_at0|apply taskState_at1].
  - erewrite step_import_committed
      by (cbn [tasks latestPendingPath]; first [apply lookup_at1|reflexivity|exact Hc]).
    cbn [route latestPendingPath tasks actions]. rewrite setState_at1.
    erewrite step_import_discarded
      by (cbn [tasks latestPendingPath]; first [apply lookup_at0|reflexivity|discriminate]).
    cbn [route latestPendingPath tasks actions]. rewrite setState_at0.
    eexists. split; [reflexivity|].
    split; [reflexivity|]. split; [reflexivity|].
    split; [apply taskState_at0|apply taskState_at1].
Qed.


(** the request for the hash map fails: the not-found route, no retry *)
Lemma step_fetch_failed st id t p :
  tasks st !! id = Some t -> state t = AwaitFetch p ->
  latestPendingPath st = Some p ->
  step' st (FetchDone id false)
  = Some {| route := notFoundRoute inBrowser withBase fallbackComponent p;
            latestPendingPath := None;
            tasks := setState id Returned (tasks st);
            actions := actions st |}.
Proof.
  intros Ht Hs Hp. cbn [step]. rewrite Ht, Hs. unfold notFound.
  rewrite Hp, isPending_true. reflexivity.
Qed.

(** the hash map arrives: the load is called again, as a retry *)
Lemma step_fetch_ok st id t p :
  tasks st !! id = Some t -> state t = AwaitFetch p ->
  step' st (FetchDone id true)
  = Some {| route := route st; latestPendingPath := latestPendingPath st;
            tasks := setState id (AwaitRetry p (length (tasks st))) (tasks st)
                     ++ [{| href := href t; scrollPosition := scrollPosition t;
                            isRetry := true; state := AwaitHook |}];
            actions := actions st |}.
Proof. intros Ht Hs. cbn [step]. rewrite Ht, Hs. reflexivity. Qed.

(** the retry has returned: so does the call that was waiting for it *)
Lemma step_resume st id t p child c :
  tasks st !! id = Some t -> state t = AwaitRetry p child ->
  tasks st !! child = Some c -> state c = Returned ->
  step' st (Resume id)
  = Some {| route := route st; latestPendingPath := latestPendingPath st;
            tasks := setState id Returned (tasks st);
            actions := actions st |}.
Proof. intros Ht Hs Hc Hcs. cbn [step]. rewrite Ht, Hs, Hc, Hcs. reflexivity. Qed.

Lemma requests_snoc l a :
  requests (l ++ [a]) = requests l ++ (if isRequest a then [a] else []).
Proof. unfold requests. rewrite List.filter_app. cbn. destruct (isRequest a); reflexivity. Qed.

(** a call up to the failure of its first import *)
Lemma run_first_failure st h s r :
  isFailure r ->
  exists st',
    run' st [Call h s; HookDone (length (tasks st)) HookProceed;
             ImportDone (length (tasks st)) r] = Some st' /\
    route st' = route st /\
    latestPendingPath st' = Some (pathnameOf h) /\
    tasks st' = tasks st ++ [{| href := h; scrollPosition := s; isRetry := false;
                                state := AwaitFetch (pathnameOf h) |}] /\
    requests (actions st')
    = requests (actions st) ++ [ImportRequested (pathnameOf h); HashMapRequested].
Proof.
  intros Hfail. cbn [run]. rewrite step_call.
  erewrite step_hook_proceed by (cbn [tasks]; first [apply lookup_at0|reflexivity]).
  cbn [route latestPendingPath tasks actions href]. rewrite setState_at0.
  edestruct (step_import_failed_first) as (st' & Hstep & Hroute & Hlatest & Htasks & Hreq);
    [| | |exact Hfail|rewrite Hstep]; [cbn [tasks]; apply lookup_at0|reflexivity..|].
  exists st'. split; [reflexivity|]. split; [exact Hroute|]. split; [exact Hlatest|].
  split.
  - rewrite Htasks. cbn [tasks]. rewrite setState_at0. reflexivity.
  - rewrite Hreq. cbn [actions]. rewrite requests_snoc. cbn [isRequest].
    rewrite <- app_assoc. reflexivity.
Qed.


(** the hash map cannot be fetched: not found at once, the load is not retried *)
Lemma failure_without_hash_map st h s r :
  isFailure r ->
  exists st',
    run' st [Call h s; HookDone (length (tasks st)) HookProceed;
             ImportDone (length (tasks st)) r;
             FetchDone (length (tasks st)) false] = Some st' /\
    route st' = notFoundRoute inBrowser withBase fallbackComponent (pathnameOf h) /\
    taskState st' (length (tasks st)) = Some Returned /\
    length (tasks st') = S (length (tasks st)) /\
    requests (actions st')
    = requests (actions st) ++ [ImportRequested (pathnameOf h); HashMapRequested].
Proof.
  intros Hfail.
  destruct (run_first_failure st h s r Hfail)
    as (st1 & Hrun & Hroute & Hlatest & Htasks & Hreq).
  change [Call h s; HookDone (length (tasks st)) HookProceed;
          ImportDone (length (tasks st)) r; FetchDone (length (tasks st)) false]
    with ([Call h s; HookDone (length (tasks st)) HookProceed;
           ImportDone (length (tasks st)) r] ++ [FetchDone (length (tasks st)) false]).
  rewrite run_app, Hrun. cbn [run].
  erewrite step_fetch_failed
    by (first [rewrite Htasks; apply lookup_at0|reflexivity|exact Hlatest]).
  rewrite Htasks, setState_at0.
  eexists. split; [reflexivity|]. split; [reflexivity|].
  split; [apply taskState_at0|]. split; [|exact Hreq].
  cbn [tasks]. rewrite !length_app. cbn [length]. lia.
Qed.

(** the hash map arrives and the load is tried once more *)
Lemma run_retry_started st h s r :
  isFailure r ->
  exists st',
    run' st [Call h s; HookDone (length (tasks st)) HookProceed;
             ImportDone (length (tasks st)) r;
             FetchDone (length (tasks st)) true;
             HookDone (S (length (tasks st))) HookProceed] = Some st' /\
    route st' = route st /\
    latestPendingPath st' = Some (pathnameOf h) /\
    tasks st' = tasks st ++
                [{| href := h; scrollPosition := s; isRetry := false;
                    state := AwaitRetry (pathnameOf h) (S (length (tasks st))) |};
                 {| href := h; scrollPosition := s; isRetry := true;
                    state := AwaitImport (pathnameOf h) |}] /\
    requests (actions st')
    = requests (actions st)
      ++ [ImportRequested (pathnameOf h); HashMapRequested;
          ImportRequested (pathnameOf h)].
Proof.
  intros Hfail.
  destruct (run_first_failure st h s r Hfail)
    as (st1 & Hrun & Hroute & Hlatest & Htasks & Hreq).
  change [Call h s; HookDone (length (tasks st)) HookProceed;
          ImportDone (length (tasks st)) r; FetchDone (length (tasks st)) true;
          HookDone (S (length (tasks st))) HookProceed]
    with ([Call h s; HookDone (length (tasks st)) HookProceed;
           ImportDone (length (tasks st)) r]
          ++ [FetchDone (length (tasks st)) true;
              HookDone (S (length (tasks st))) HookProceed]).
  rewrite run_app, Hrun. cbn [run].
  erewrite step_fetch_ok by (first [rewrite Htasks; apply lookup_at0|reflexivity]).
  rewrite Htasks, setState_at0, snoc_snoc, length_app, Nat.add_1_r.
  cbn [href scrollPosition length].
  erewrite step_hook_proceed by (cbn [tasks]; first [apply lookup_at1|reflexivity]).
  cbn [route latestPendingPath tasks actions href]. rewrite setState_at1.
  eexists. split; [reflexivity|]. split; [exact Hroute|]. split; [reflexivity|].
  split; [reflexivity|].
  cbn [actions]. rewrite requests_snoc, Hreq. cbn [isRequest].
  rewrite <- app_assoc. reflexivity.
Qed.

(** the retried load fails as well: not found, after exactly one retry *)
Lemma failure_after_retry st h s r1 r2 :
  isFailure r1 -> isFailure r2 ->
  exists st',
    run' st [Call h s; HookDone (length (tasks st)) HookProceed;
             ImportDone (length (tasks st)) r1;
             FetchDone (length (tasks st)) true;
             HookDone (S (length (tasks st))) HookProceed;
             ImportDone (S (length (tasks st))) r2;
             Resume (length (tasks st))] = Some st' /\
    route st' = notFoundRoute inBrowser withBase fallbackComponent (pathnameOf h) /\
    taskState st' (length (tasks st)) = Some Returned /\
    taskState st' (S (length (tasks st))) = Some Returned /\
    length (tasks st') = S (S (length (tasks st))) /\
    requests (actions st')
    = requests (actions st)
      ++ [ImportRequested (pathnameOf h); HashMapRequested;
          ImportRequested (pathnameOf h)].
Proof.
  intros Hfail1 Hfail2.
  destruct (run_retry_started st h s r1 Hfail1)
    as (st1 & Hrun & Hroute & Hlatest & Htasks & Hreq).
  change [Call h s; HookDone (length (tasks st)) HookProceed;
          ImportDone (length (tasks st)) r1; FetchDone (length (tasks st)) true;
          HookDone (S (length (tasks st))) HookProceed;
          ImportDone (S (length (tasks st))) r2; Resume (length (tasks st))]
    with ([Call h s; HookDone (length (tasks st)) HookProceed;
           ImportDone (length (tasks st)) r1; FetchDone (length (tasks st)) true;
           HookDone (S (length (tasks st))) HookProceed]
          ++ [ImportDone (S (length (tasks st))) r2; Resume (length (tasks st))]).
  rewrite run_app, Hrun. cbn [run].
  edestruct (step_import_failed_retry st1 (S (length (tasks st))))
    as (st2 & Hstep & Hroute2 & Hlatest2 & Htasks2 & Hreq2);
    [rewrite Htasks; apply lookup_at1|reflexivity|reflexivity|exact Hfail2
    |exact Hlatest|].
  rewrite Hstep. rewrite Htasks, setState_at1 in Htasks2.
  erewrite step_resume
    by (first [rewrite Htasks2; apply lookup_at0|rewrite Htasks2; apply lookup_at1
              |reflexivity]).
  rewrite Htasks2, setState_at0.
  eexists. split; [reflexivity|]. split; [exact Hroute2|].
  split; [apply taskState_at0|]. split; [apply taskState_at1|].
  split; [cbn [tasks]; rewrite length_app; cbn [length]; lia|].
  cbn [actions]. rewrite Hreq2. exact Hreq.
Qed.

(** the retried load succeeds: the page is shown *)
Lemma success_after_retry st h s r m comp :
  isFailure r -> default m = Some comp ->
  exists st',
    run' st [Call h s; HookDone (length (tasks st)) HookProceed;
             ImportDone (length (tasks st)) r;
             FetchDone (length (tasks st)) true;
             HookDone (S (length (tasks st))) HookProceed;
             ImportDone (S (length (tasks st))) (Loaded m);
             Resume (length (tasks st))] = Some st' /\
    route st' = loadedRoute inBrowser withBase (pathnameOf h) comp m /\
    taskState st' (length (tasks st)) = Some Returned /\
    taskState st' (S (length (tasks st))) = Some Returned.
Proof.
  intros Hfail Hc.
  destruct (run_retry_started st h s r Hfail)
    as (st1 & Hrun & Hroute & Hlatest & Htasks & Hreq).
  change [Call h s; HookDone (length (tasks st)) HookProceed;
          ImportDone (length (tasks st)) r; FetchDone (length (tasks st)) true;
          HookDone (S (length (tasks st))) HookProceed;
          ImportDone (S (length (tasks st))) (Loaded m); Resume (length (tasks st))]
    with ([Call h s; HookDone (length (tasks st)) HookProceed;
           ImportDone (length (tasks st)) r; FetchDone (length (tasks st)) true;
           HookDone (S (length (tasks st))) HookProceed]
          ++ [ImportDone (S (length (tasks st))) (Loaded m);
              Resume (length (tasks st))]).
  rewrite run_app, Hrun. cbn [run].
  erewrite step_import_committed
    by (first [rewrite Htasks; apply lookup_at1|reflexivity|exact Hlatest|exact Hc]).
  rewrite Htasks, setState_at1.
  erewrite step_resume
    by (cbn [tasks]; first [apply lookup_at0|apply lookup_at1|reflexivity]).
  cbn [route latestPendingPath tasks actions]. rewrite setState_at0.
  eexists. split; [reflexivity|]. split; [reflexivity|].
  split; [apply taskState_at0|apply taskState_at1].
Qed.


Lemma lookup_setState (ts : list Task) id' s id t :
  setState id' s ts !! id = Some t ->
  ts !! id = Some t \/ (id = id' /\ state t = s).
Proof.
  unfold setState. rewrite list_lookup_alter. destruct (decide (id' = id)) as [->|Hne].
  - destruct (ts !! id) as [t0|]; [|discriminate]. intros [= <-]. right. auto.
  - auto.
Qed.

Lemma setState_ge (ts : list Task) id s : length ts <= id -> setState id s ts = ts.
Proof.
  intros H. unfold setState. apply list_eq. intros j. rewrite list_lookup_alter.
  destruct (decide (id = j)) as [->|]; [|reflexivity].
  rewrite (lookup_ge_None_2 ts j) by lia. reflexivity.
Qed.

Lemma notFound_tasks id p st :
  tasks (notFound inBrowser withBase fallbackComponent id p st)
  = setState id Returned (tasks st).
Proof. unfold notFound. destruct (isPending _ _); reflexivity. Qed.

Lemma onError_tasks id t p m st :
  tasks (onError inBrowser withBase fallbackComponent id t p m st)
  = setState id (if isRetry t then Returned else AwaitFetch p) (tasks st).
Proof.
  unfold onError. destruct (isRetry t); cbn [negb]; [|reflexivity].
  rewrite notFound_tasks. reflexivity.
Qed.

(** how one event changes the tasks: one task moves on, and a task may be
    added that waits for its hook *)
Lemma step_tasks st e st' :
  step' st e = Some st' ->
  exists id s extra,
    tasks st' = setState id s (tasks st) ++ extra /\
    Forall (fun t => state t = AwaitHook) extra /\
    (forall msg, s = Threw msg -> e = HookDone id (HookThrow msg)).
Proof.
  destruct e as [h sc|id r|id r|id ok|id]; cbn [step].
  - intros [= <-]. eexists (length (tasks st)), Returned, _. cbn [tasks].
    rewrite setState_ge by lia.
    split; [reflexivity|]. split; [repeat constructor|discriminate].
  - destruct (tasks st !! id) as [t|]; [|discriminate].
    destruct (state t); try discriminate.
    destruct r as [| |m]; intros [= <-]; cbn [tasks]; eexists id, _, [];
      rewrite app_nil_r; (split; [reflexivity|]); (split; [constructor|]);
      try discriminate.
    intros msg [= ->]. reflexivity.
  - destruct (tasks st !! id) as [t|]; [|discriminate].
    destruct (state t) as [|p| | | |]; try discriminate.
    destruct r as [m| |m].
    + destruct (isPending (latestPendingPath st) p).
      * destruct (default m); intros [= <-]; [cbn [tasks]|rewrite onError_tasks; cbn [tasks]];
          eexists id, _, []; rewrite app_nil_r; (split; [reflexivity|]);
          (split; [constructor|]); [discriminate|destruct (isRetry t); discriminate].
      * intros [= <-]. cbn [tasks]. eexists id, _, []. rewrite app_nil_r.
        split; [reflexivity|]. split; [constructor|discriminate].
    + intros [= <-]. rewrite onError_tasks. eexists id, _, []. rewrite app_nil_r.
      split; [reflexivity|]. split; [constructor|destruct (isRetry t); discriminate].
    + intros [= <-]. rewrite onError_tasks. eexists id, _, []. rewrite app_nil_r.
      split; [reflexivity|]. split; [constructor|destruct (isRetry t); discriminate].
  - destruct (tasks st !! id) as [t|]; [|discriminate].
    destruct (state t) as [| |p| | |]; try discriminate.
    destruct ok; intros [= <-].
    + cbn [tasks]. eexists id, _, _. split; [reflexivity|].
      split; [repeat constructor|discriminate].
    + rewrite notFound_tasks. eexists id, _, []. rewrite app_nil_r.
      split; [reflexivity|]. split; [constructor|discriminate].
  - destruct (tasks st !! id) as [t|]; [|discriminate].
    destruct (state t) as [| | |p child| |]; try discriminate.
    destruct (tasks st !! child) as [c|]; [|discriminate].
    destruct (state c); try discriminate; intros [= <-];
      [cbn [tasks]|rewrite notFound_tasks]; eexists id, _, []; rewrite app_nil_r;
      (split; [reflexivity|]); (split; [constructor|discriminate]).
Qed.

(** a call ends with an error only when its hook throws *)
Lemma no_rethrow st e st' id msg :
  step' st e = Some st' ->
  taskState st' id = Some (Threw msg) ->
  taskState st id = Some (Threw msg) \/ e = HookDone id (HookThrow msg).
Proof.
  intros Hstep Hthrew.
  destruct (step_tasks st e st' Hstep) as (id' & s & extra & Htasks & Hextra & Hs).
  apply taskState_Some in Hthrew as (t & Ht & Hst). rewrite Htasks in Ht.
  apply lookup_app_Some in Ht as [Ht|[_ Ht]].
  - apply lookup_setState in Ht as [Ht|[-> Hts]].
    + left. apply taskState_Some. eauto.
    + right. apply Hs. congruence.
  - apply list_elem_of_lookup_2 in Ht.
    rewrite Forall_forall in Hextra. apply Hextra in Ht. congruence.
Qed.

End Steps.




(** a superseded call whose import fails is not dropped: its retry
    registers its path again and, here, replaces the page of the later call *)
Example failed_import_of_superseded_call_retries :
  route <$>
    run true (fun p => p) (fun h => h) None createRouter
      [Call "/a" 0; HookDone 0 HookProceed; Call "/b" 0; HookDone 1 HookProceed;
       ImportDone 1 (Loaded examplePageA);
       ImportDone 0 (Rejected "Failed to fetch dynamically imported module");
       FetchDone 0 true; HookDone 2 HookProceed;
       ImportDone 2 (Loaded examplePageA); Resume 0]
  = Some (loadedRoute true (fun p => p) "/a" "A.vue" examplePageA).
Proof. reflexivity. Qed.




End RouterFacts.

(** * Further properties *)

(** ** Suffixes and single characters *)

Module StringFacts.

Import JS JSFacts JSString.

Lemma append_suffix_cases : forall x p y q,
  x +:+ p = y +:+ q -> String.length p <= String.length q ->
  exists z, q = z +:+ p /\ x = y +:+ z.
Proof.
  induction x as [|c x IH]; intros p y q H Hlen.
  - rewrite append_nil_l in H. subst p. rewrite length_append in Hlen.
    destruct y; [|cbn in Hlen; lia]. exists "". auto.
  - destruct y as [|d y].
    + rewrite append_nil_l in H. exists (String c x). auto.
    + rewrite !append_cons in H. injection H as -> H.
      destruct (IH p y q H Hlen) as (z & Hq & Hx).
      exists z. split; [exact Hq|]. rewrite append_cons, Hx. reflexivity.
Qed.

Lemma append_same_length x p y q :
  x +:+ p = y +:+ q -> String.length p = String.length q -> x = y /\ p = q.
Proof.
  intros H Hlen. destruct (append_suffix_cases x p y q H) as (z & Hq & Hx); [lia|].
  subst q. rewrite length_append in Hlen. destruct z; [|cbn in Hlen; lia].
  rewrite append_nil_r in Hx. auto.
Qed.

Lemma take_drop n : forall s, take n s +:+ drop n s = s.
Proof.
  induction n as [|n IH]; intros s; [reflexivity|].
  destruct s as [|c s]; [reflexivity|]. cbn [take drop]. rewrite append_cons, IH.
  reflexivity.
Qed.

(** a string is empty or has a last character *)
Lemma snoc_cases s : s = "" \/ exists s' c, s = s' +:+ String c "".
Proof.
  induction s as [|x s IH]; [left; reflexivity|right].
  destruct IH as [->|(s' & c & ->)].
  - exists "", x. reflexivity.
  - exists (String x s'), c. reflexivity.
Qed.

Lemma endsWith_iff s p : endsWith s p = true <-> exists x, s = x +:+ p.
Proof.
  unfold endsWith. split.
  - intros [Hlen Heq]%andb_true_iff. apply String.eqb_eq in Heq.
    exists (take (String.length s - String.length p) s).
    rewrite <- Heq at 2. symmetry. apply take_drop.
  - intros [x ->]. apply endsWith_append.
Qed.

Lemma endsWith_false s p : (forall x, s <> x +:+ p) -> endsWith s p = false.
Proof.
  intros H. destruct (endsWith s p) eqn:E; [|reflexivity].
  apply endsWith_iff in E as [x Hx]. destruct (H x Hx).
Qed.

(** a common suffix is cancelled *)
Lemma endsWith_cancel s p u : endsWith (s +:+ u) (p +:+ u) = endsWith s p.
Proof.
  destruct (endsWith s p) eqn:E.
  - apply endsWith_iff in E as [x ->]. rewrite append_assoc. apply endsWith_append.
  - apply endsWith_false. intros x Hx. rewrite <- append_assoc in Hx.
    apply append_same_length in Hx as [Hx _]; [|reflexivity].
    rewrite Hx, endsWith_append in E. discriminate.
Qed.

Lemma eqb_cancel s p u : String.eqb (s +:+ u) (p +:+ u) = String.eqb s p.
Proof.
  destruct (String.eqb s p) eqn:E.
  - apply String.eqb_eq in E as ->. apply String.eqb_refl.
  - apply String.eqb_neq. intros H. apply String.eqb_neq in E. apply E.
    apply (append_same_length s u p u H eq_refl).
Qed.

(** strings with different last characters *)
Lemma endsWith_last s a p b :
  a <> b -> endsWith (s +:+ String a "") (p +:+ String b "") = false.
Proof.
  intros Hab. apply endsWith_false. intros x Hx. rewrite <- append_assoc in Hx.
  apply append_same_length in Hx as [_ Hx]; [|reflexivity]. congruence.
Qed.

Lemma eqb_last s a p b :
  a <> b -> String.eqb (s +:+ String a "") (p +:+ String b "") = false.
Proof.
  intros Hab. apply String.eqb_neq. intros H.
  apply append_same_length in H as [_ H]; [|reflexivity]. congruence.
Qed.

Lemma includes_char_cons c a s :
  includes (String a s) (String c "") = Ascii.eqb c a || includes s (String c "").
Proof. rewrite includes_cons, startsWith_char. reflexivity. Qed.

Lemma includes_char_append c s t :
  includes (s +:+ t) (String c "") = includes s (String c "") || includes t (String c "").
Proof.
  induction s as [|a s IH]; [reflexivity|].
  rewrite append_cons, !includes_char_cons, IH, orb_assoc. reflexivity.
Qed.

(** behind a slash, a suffix without a slash lies in what follows *)
Lemma endsWith_behind_slash x s p :
  includes p "/" = false -> endsWith (x +:+ "/" +:+ s) p = endsWith s p.
Proof.
  intros Hp. destruct (endsWith s p) eqn:E.
  - apply endsWith_iff in E as [y ->]. rewrite <- !append_assoc. apply endsWith_append.
  - apply endsWith_false. intros y Hy. rewrite <- append_assoc in Hy.
    destruct (Nat.le_gt_cases (String.length p) (String.length s)) as [Hlen|Hlen].
    + symmetry in Hy. apply append_suffix_cases in Hy as (z & Hs & _); [|exact Hlen].
      rewrite Hs, endsWith_append in E. discriminate.
    + apply append_suffix_cases in Hy as (z & Hpz & Hx); [|lia].
      destruct (snoc_cases z) as [->|(z' & c & ->)].
      * rewrite append_nil_l in Hpz. subst. lia.
      * rewrite <- append_assoc in Hx.
        apply append_same_length in Hx as [_ Hx]; [|reflexivity].
        injection Hx as <-. rewrite Hpz, !includes_char_append in Hp.
        cbn in Hp. rewrite !orb_true_r in Hp. discriminate.
Qed.

(** a long enough tail decides *)
Lemma endsWith_long x s p :
  String.length p <= String.length s -> endsWith (x +:+ s) p = endsWith s p.
Proof.
  intros Hlen. destruct (endsWith s p) eqn:E.
  - apply endsWith_iff in E as [y ->]. rewrite <- append_assoc. apply endsWith_append.
  - apply endsWith_false. intros y Hy. symmetry in Hy.
    apply append_suffix_cases in Hy as (z & Hs & _); [|exact Hlen].
    rewrite Hs, endsWith_append in E. discriminate.
Qed.

Lemma eqb_behind_slash x s n :
  includes n "/" = false -> String.eqb (x +:+ "/" +:+ s) n = false.
Proof.
  intros Hn. apply String.eqb_neq. intros <-.
  rewrite !includes_char_append in Hn. cbn in Hn. rewrite orb_true_r in Hn. discriminate.
Qed.

(** behind a slash, a segment lies in what follows *)
Lemma endsWith_segment_behind_slash x s n :
  includes n "/" = false ->
  endsWith (x +:+ "/" +:+ s) ("/" +:+ n) = endsWithSegment s n.
Proof.
  intros Hn. unfold endsWithSegment.
  destruct (String.eqb s n) eqn:Es.
  { apply String.eqb_eq in Es as ->. apply endsWith_append. }
  destruct (endsWith s ("/" +:+ n)) eqn:E.
  { apply endsWith_iff in E as [y ->]. apply endsWith_iff.
    exists (x +:+ "/" +:+ y). rewrite !append_assoc. reflexivity. }
  apply endsWith_false. intros y Hy. rewrite <- !append_assoc in Hy.
  destruct (Nat.le_gt_cases (String.length s) (String.length n)) as [Hlen|Hlen].
  - apply append_suffix_cases in Hy as (z & Hnz & Hx); [|exact Hlen].
    destruct (snoc_cases z) as [->|(z' & c & ->)].
    + rewrite append_nil_l in Hnz. subst. rewrite String.eqb_refl in Es. discriminate.
    + rewrite <- append_assoc in Hx.
      apply append_same_length in Hx as [_ Hx]; [|reflexivity].
      injection Hx as <-. rewrite Hnz, !includes_char_append in Hn.
      cbn in Hn. rewrite !orb_true_r in Hn. discriminate.
  - rewrite (append_assoc y) in Hy. symmetry in Hy.
    apply append_suffix_cases in Hy as (z & Hs & _).
    + rewrite Hs, endsWith_append in E. discriminate.
    + rewrite length_append. cbn [String.length]. lia.
Qed.

Lemma endsWithSegment_cancel s n u :
  endsWithSegment (s +:+ u) (n +:+ u) = endsWithSegment s n.
Proof.
  unfold endsWithSegment. rewrite eqb_cancel, <- append_assoc, endsWith_cancel.
  reflexivity.
Qed.

(** what a segment at the end means *)
Lemma endsWithSegment_cases s n :
  endsWithSegment s n = true -> s = n \/ exists d, s = d +:+ "/" +:+ n.
Proof.
  unfold endsWithSegment. intros [H|H]%orb_true_iff.
  - left. apply String.eqb_eq, H.
  - right. apply endsWith_iff in H as [d ->]. exists d. reflexivity.
Qed.

Lemma endsWithSegment_last s a n b :
  a <> b -> endsWithSegment (s +:+ String a "") (n +:+ String b "") = false.
Proof.
  intros Hab. unfold endsWithSegment.
  rewrite eqb_last by exact Hab. rewrite <- append_assoc, endsWith_last by exact Hab.
  reflexivity.
Qed.

End StringFacts.

(** ** Trimming a character ([serve.ts]) *)

Module ServeFacts.

Import JS JSFacts JSString StringFacts Serve.

Lemma charAt_0_cons c s : charAt (String c s) 0 = String c "".
Proof. reflexivity. Qed.

Lemma one_char_eqb a c : String.eqb (String a "") (String c "") = Ascii.eqb a c.
Proof. cbn. destruct (Ascii.eqb a c); reflexivity. Qed.

Lemma trimStart_S f str char :
  trimStart (S f) str char
  = if String.eqb (charAt str 0) char then trimStart f (JS.drop 1 str) char else Some str.
Proof. reflexivity. Qed.

Lemma trimEnd_S f str char :
  trimEnd (S f) str char
  = if String.eqb (charAt str (String.length str - 1)) char
    then trimEnd f (JS.take (String.length str - 1) str) char else Some str.
Proof. reflexivity. Qed.

Lemma trimStart_spec c : forall str k,
  exists a r,
    trimStart (S (String.length str + k)) str (String c "") = Some r /\
    str = JSString.repeat c a +:+ r /\
    charAt r 0 <> String c "".
Proof.
  induction str as [|x s IH]; intros k.
  - exists 0, "". split; [reflexivity|]. split; [reflexivity|]. discriminate.
  - change (String.length (String x s) + k) with (S (String.length s + k)).
    rewrite trimStart_S, charAt_0_cons, one_char_eqb.
    destruct (Ascii.eqb x c) eqn:E.
    + apply Ascii.eqb_eq in E as ->. change (drop 1 (String c s)) with s.
      destruct (IH k) as (a & r & Hr & Hs & Hc).
      exists (S a), r. split; [exact Hr|]. split; [|exact Hc].
      cbn [JSString.repeat]. rewrite append_cons, <- Hs. reflexivity.
    + exists 0, (String x s). split; [reflexivity|]. split; [reflexivity|].
      rewrite charAt_0_cons. intros [= ->]. rewrite Ascii.eqb_refl in E. discriminate.
Qed.

(** the last character, and the string without it *)
Lemma get_last s c : String.get (String.length s) (s +:+ String c "") = Some c.
Proof. induction s as [|x s IH]; [reflexivity|]. rewrite append_cons. exact IH. Qed.

Lemma charAt_last s c :
  charAt (s +:+ String c "") (String.length (s +:+ String c "") - 1) = String c "".
Proof.
  rewrite length_append. cbn [String.length].
  replace (String.length s + 1 - 1) with (String.length s) by lia.
  unfold charAt. rewrite get_last. reflexivity.
Qed.

Lemma take_init s c :
  take (String.length (s +:+ String c "") - 1) (s +:+ String c "") = s.
Proof.
  rewrite length_append. cbn [String.length].
  replace (String.length s + 1 - 1) with (String.length s) by lia.
  apply take_append.
Qed.

Lemma repeat_snoc c n : JSString.repeat c n +:+ String c "" = String c (JSString.repeat c n).
Proof. induction n as [|n IH]; [reflexivity|]. cbn [JSString.repeat]. rewrite append_cons, IH. reflexivity. Qed.

Lemma trimEnd_spec c : forall n str k,
  String.length str = n ->
  exists b r,
    trimEnd (S (n + k)) str (String c "") = Some r /\
    str = r +:+ JSString.repeat c b /\
    charAt r (String.length r - 1) <> String c "".
Proof.
  induction n as [|n IH]; intros str k Hlen.
  - destruct str; [|discriminate]. exists 0, "".
    split; [reflexivity|]. split; [reflexivity|]. discriminate.
  - destruct (snoc_cases str) as [->|(s' & x & ->)]; [discriminate|].
    change (S n + k) with (S (n + k)).
    rewrite trimEnd_S, charAt_last, one_char_eqb, take_init.
    rewrite length_append in Hlen. cbn [String.length] in Hlen.
    destruct (Ascii.eqb x c) eqn:E.
    + apply Ascii.eqb_eq in E as ->.
      destruct (IH s' k ltac:(lia)) as (b & r & Hr & Hs & Hc).
      exists (S b), r. split; [exact Hr|]. split; [|exact Hc].
      cbn [JSString.repeat]. rewrite <- repeat_snoc, <- append_assoc, <- Hs. reflexivity.
    + exists 0, (s' +:+ String x ""). split; [reflexivity|].
      split; [rewrite append_nil_r; reflexivity|].
      rewrite charAt_last. intros [= ->]. rewrite Ascii.eqb_refl in E. discriminate.
Qed.

(** X1. trimChar, for a one-character [char]: with fuel beyond the length of
    the string it returns; the result is the string without the run of
    [char] at its head and the run at its tail, and neither starts nor
    ends with [char]. For the empty string and an empty [char] the first
    loop never ends. *)
Theorem trimChar_strips_both_ends (c : ascii) (str : string) (k : nat) :
  (exists a r b,
     trimChar (S (String.length str + k)) str (String c "") = Some r /\
     str = JSString.repeat c a +:+ r +:+ JSString.repeat c b /\
     charAt r 0 <> String c "" /\
     charAt r (String.length r - 1) <> String c "") /\
  (forall fuel, trimChar fuel "" "" = None).
Proof.
  split.
  - destruct (trimStart_spec c str k) as (a & r1 & Hstart & Hstr & Hhead).
    assert (String.length str = String.length r1 + a) as Hlen.
    { rewrite Hstr at 1. rewrite length_append.
      clear. induction a as [|a IH]; cbn [JSString.repeat String.length]; lia. }
    destruct (trimEnd_spec c (String.length r1) r1 (a + k) eq_refl)
      as (b & r & Hend & Hr1 & Htail).
    exists a, r, b. unfold trimChar. rewrite Hstart.
    replace (String.length str + k) with (String.length r1 + (a + k)) by lia.
    split; [exact Hend|]. split; [rewrite <- Hr1; exact Hstr|]. split; [|exact Htail].
    destruct r as [|x r]; [discriminate|].
    rewrite Hr1 in Hhead. exact Hhead.
  - intros fuel. unfold trimChar.
    assert (trimStart fuel "" "" = None) as ->; [|reflexivity].
    induction fuel as [|f IH]; [reflexivity|]. rewrite trimStart_S. exact IH.
Qed.

End ServeFacts.

(** ** Request addresses ([plugin.ts]) *)

Module DevServerFacts.

Import JS JSFacts StringFacts DevServer.

Lemma upTo_keeps_free c d s :
  includes s (String d "") = false -> includes (upTo c s) (String d "") = false.
Proof.
  induction s as [|a s IH]; [reflexivity|].
  rewrite includes_char_cons. intros [Ha Hs]%orb_false_elim.
  cbn [upTo]. destruct (Ascii.eqb a c); [reflexivity|].
  rewrite includes_char_cons, Ha. apply IH, Hs.
Qed.

Lemma upTo_spec c s :
  exists rest,
    s = upTo c s +:+ rest /\
    includes (upTo c s) (String c "") = false /\
    (rest = "" \/ startsWith rest (String c "") = true).
Proof.
  induction s as [|a s (rest & Hs & Hfree & Hrest)].
  - exists "". auto.
  - cbn [upTo]. destruct (Ascii.eqb a c) eqn:E.
    + exists (String a s). split; [reflexivity|]. split; [reflexivity|].
      right. rewrite startsWith_char, Ascii.eqb_sym. exact E.
    + exists rest. split; [rewrite append_cons, <- Hs; reflexivity|].
      split; [|exact Hrest].
      rewrite includes_char_cons, Hfree, Ascii.eqb_sym, E. reflexivity.
Qed.

(** X2. cleanUrl: the result is the longest prefix of the URL that holds
    neither a hash sign nor a question mark. *)
Theorem cleanUrl_longest_clean_prefix (url : string) :
  exists rest,
    url = cleanUrl url +:+ rest /\
    includes (cleanUrl url) "#" = false /\
    includes (cleanUrl url) "?" = false /\
    (rest = "" \/ startsWith rest "#" = true \/ startsWith rest "?" = true).
Proof.
  unfold cleanUrl.
  destruct (upTo_spec "#" url) as (r1 & H1 & Hfree1 & Hrest1).
  destruct (upTo_spec "?" (upTo "#" url)) as (r2 & H2 & Hfree2 & Hrest2).
  exists (r2 +:+ r1). split; [|split; [|split]].
  - rewrite <- append_assoc, <- H2. exact H1.
  - apply upTo_keeps_free, Hfree1.
  - exact Hfree2.
  - destruct Hrest2 as [->|Hq].
    + rewrite append_nil_l. destruct Hrest1 as [->|Hh]; auto.
    + right. right. destruct r2 as [|x r2]; [discriminate|].
      rewrite append_cons, startsWith_char. rewrite startsWith_char in Hq. exact Hq.
Qed.

End DevServerFacts.

(** ** Tags in the indexed text ([localSearchPlugin.ts]) *)

Module LocalSearchFacts.

Import JS JSFacts StringFacts LocalSearch LocalSearchSpec.

Local Abbreviation out := (replaceGo tagRE (fun _ _ _ => "")).

Lemma tagEnd_None s : tagEnd s = None <-> includes s ">" = false.
Proof.
  induction s as [|c s IH]; [split; reflexivity|].
  cbn [tagEnd]. rewrite includes_char_cons, (Ascii.eqb_sym ">" c).
  destruct (Ascii.eqb c ">"); cbn [orb]; [split; discriminate|].
  rewrite <- IH. destruct (tagEnd s); cbn; split; congruence.
Qed.

(** the scan only drops characters *)
Lemma out_keeps_free d : forall s pre skip,
  includes s (String d "") = false -> includes (out pre skip s) (String d "") = false.
Proof.
  induction s as [|c s IH]; intros pre skip; [reflexivity|].
  rewrite includes_char_cons. intros [Hc Hs]%orb_false_elim.
  destruct skip as [|k]; [|cbn [replaceGo]; apply IH, Hs].
  rewrite replaceGo_head. destruct (tagRE (String c s)) as [[|n]|].
  - rewrite includes_char_cons, Hc. apply IH, Hs.
  - rewrite append_nil_l. apply IH, Hs.
  - rewrite includes_char_cons, Hc. apply IH, Hs.
Qed.

Lemma out_noTag : forall s pre skip, noTag (out pre skip s) = true.
Proof.
  induction s as [|c s IH]; intros pre skip; [reflexivity|].
  destruct skip as [|k]; [|cbn [replaceGo]; apply IH].
  rewrite replaceGo_head. destruct (tagRE (String c s)) as [[|n]|] eqn:Hm.
  - cbn [tagRE] in Hm. destruct (Ascii.eqb c "<"); [|discriminate].
    destruct (tagEnd s); discriminate.
  - rewrite append_nil_l. apply IH.
  - cbn [noTag]. rewrite IH, andb_true_r.
    cbn [tagRE] in Hm. destruct (Ascii.eqb c "<"); [|reflexivity].
    destruct (tagEnd s) eqn:He; [discriminate|].
    apply tagEnd_None in He. rewrite out_keeps_free by exact He. reflexivity.
Qed.

Lemma noTag_split : forall pre post,
  noTag (pre +:+ "<" +:+ post) = true -> includes post ">" = false.
Proof.
  induction pre as [|c pre IH]; intros post H.
  - rewrite append_nil_l in H. cbn in H. apply andb_true_iff in H as [H _].
    destruct (includes post ">"); [discriminate|reflexivity].
  - rewrite append_cons in H. cbn [noTag] in H.
    apply andb_true_iff in H as [_ H]. apply IH, H.
Qed.

Lemma noTag_fixed : forall s, noTag s = true -> clearHtmlTags s = s.
Proof.
  unfold clearHtmlTags, replaceAll.
  induction s as [|c s IH]; intros H; [reflexivity|].
  cbn [noTag] in H. apply andb_true_iff in H as [Hc Hs].
  rewrite replaceGo_keep.
  - f_equal. rewrite (replaceGo_pre tagRE (fun _ _ _ => "") ltac:(reflexivity) _ _ ""). apply IH, Hs.
  - cbn [tagRE]. destruct (Ascii.eqb c "<"); [|reflexivity].
    apply negb_true_iff, tagEnd_None in Hc. rewrite Hc. reflexivity.
Qed.

(** X3. clearHtmlTags: in the result no [<] has a [>] anywhere behind it, so
    that nothing of the form of a tag is left, and clearing again changes
    nothing. *)
Theorem clearHtmlTags_leaves_no_tag (str : string) :
  (forall pre post,
     clearHtmlTags str = pre +:+ "<" +:+ post -> includes post ">" = false) /\
  clearHtmlTags (clearHtmlTags str) = clearHtmlTags str.
Proof.
  assert (noTag (clearHtmlTags str) = true) as H by apply out_noTag.
  split.
  - intros pre post Heq. rewrite Heq in H. apply noTag_split in H. exact H.
  - apply noTag_fixed, H.
Qed.

End LocalSearchFacts.

(** ** File names and expression text ([shared.ts]) *)

Module FileNamesFacts.

Import JS JSFacts StringFacts FileNames FileNamesSpec.

(** the first replacement works character by character *)
Lemma invalid_replaced_go s : forall pre,
  replaceGo INVALID_CHAR_REGEX (fun _ _ _ => "_") pre 0 s = sanitizeChars s.
Proof.
  induction s as [|c s IH]; intros pre; [reflexivity|].
  rewrite replaceGo_head. cbn [INVALID_CHAR_REGEX sanitizeChars].
  destruct (isInvalidChar c).
  - rewrite IH. reflexivity.
  - rewrite IH. reflexivity.
Qed.

Lemma invalid_replaced s :
  replaceAll INVALID_CHAR_REGEX (fun _ _ _ => "_") s = sanitizeChars s.
Proof. apply invalid_replaced_go. Qed.

Lemma sanitizeChars_valid s : allValid (sanitizeChars s) = true.
Proof.
  induction s as [|c s IH]; [reflexivity|]. cbn [sanitizeChars allValid].
  rewrite IH, andb_true_r. destruct (isInvalidChar c) eqn:E; [reflexivity|].
  rewrite E. reflexivity.
Qed.

Lemma sanitizeChars_fixed s : allValid s = true -> sanitizeChars s = s.
Proof.
  induction s as [|c s IH]; [reflexivity|]. cbn [sanitizeChars allValid].
  intros [Hc Hs]%andb_true_iff. apply negb_true_iff in Hc. rewrite Hc, IH by exact Hs.
  reflexivity.
Qed.

Lemma dropUnderscores_valid s : allValid s = true -> allValid (dropUnderscores s) = true.
Proof.
  induction s as [|c s IH]; [reflexivity|]. intros H. cbn [dropUnderscores].
  destruct (Ascii.eqb c "_"); [|exact H].
  cbn [allValid] in H. apply andb_true_iff in H as [_ H]. apply IH, H.
Qed.

Lemma trimUnderscores_valid : forall s b,
  allValid s = true -> allValid (trimUnderscores b s) = true.
Proof.
  induction s as [|c s IH]; intros b H; [reflexivity|]. cbn [trimUnderscores].
  destruct (b && Ascii.eqb c "_" && negb (includes (String c s) "/")).
  - apply dropUnderscores_valid, H.
  - cbn [allValid] in *. apply andb_true_iff in H as [Hc H].
    rewrite Hc. apply IH, H.
Qed.

Lemma dropUnderscores_slash s :
  includes (dropUnderscores s) "/" = includes s "/".
Proof.
  induction s as [|c s IH]; [reflexivity|]. cbn [dropUnderscores].
  destruct (Ascii.eqb c "_") eqn:E; [|reflexivity].
  apply Ascii.eqb_eq in E as ->. rewrite IH, includes_char_cons. reflexivity.
Qed.

Lemma trimUnderscores_slash : forall s b,
  includes (trimUnderscores b s) "/" = includes s "/".
Proof.
  induction s as [|c s IH]; intros b; [reflexivity|]. cbn [trimUnderscores].
  destruct (b && Ascii.eqb c "_" && negb (includes (String c s) "/")).
  - apply dropUnderscores_slash.
  - rewrite !includes_char_cons, IH. reflexivity.
Qed.

Lemma dropUnderscores_head s :
  match dropUnderscores s with
  | String c _ => Ascii.eqb c "_" = false
  | EmptyString => True
  end.
Proof.
  induction s as [|c s IH]; [exact I|]. cbn [dropUnderscores].
  destruct (Ascii.eqb c "_") eqn:E; [exact IH|exact E].
Qed.

(** without a slash and away from a start nothing is dropped *)
Lemma trimUnderscores_no_slash : forall s,
  includes s "/" = false -> trimUnderscores false s = s.
Proof.
  induction s as [|c s IH]; [reflexivity|]. rewrite includes_char_cons.
  intros [Hc Hs]%orb_false_elim. cbn [trimUnderscores andb].
  rewrite Ascii.eqb_sym, Hc, IH by exact Hs. reflexivity.
Qed.

Lemma trimUnderscores_idem : forall s b,
  trimUnderscores b (trimUnderscores b s) = trimUnderscores b s.
Proof.
  induction s as [|c s IH]; intros b; [reflexivity|]. cbn [trimUnderscores].
  destruct (b && Ascii.eqb c "_" && negb (includes (String c s) "/")) eqn:E.
  - apply andb_true_iff in E as [_ Hs]. apply negb_true_iff in Hs.
    pose proof (dropUnderscores_head (String c s)) as Hh.
    pose proof (dropUnderscores_slash (String c s)) as Hsl. rewrite Hs in Hsl.
    destruct (dropUnderscores (String c s)) as [|d r]; [reflexivity|].
    cbn [trimUnderscores]. rewrite Hh, andb_false_r. cbn [andb].
    rewrite includes_char_cons in Hsl. apply orb_false_elim in Hsl as [Hd Hr].
    rewrite Ascii.eqb_sym, Hd, trimUnderscores_no_slash by exact Hr. reflexivity.
  - cbn [trimUnderscores].
    assert (b && Ascii.eqb c "_"
            && negb (includes (String c (trimUnderscores (Ascii.eqb c "/") s)) "/")
            = false) as ->.
    { rewrite includes_char_cons, trimUnderscores_slash, <- includes_char_cons. exact E. }
    rewrite IH. reflexivity.
Qed.

Lemma allValid_no_colon : forall s c d r,
  allValid s = true -> s = String c (String d r) -> Ascii.eqb d ":" = false.
Proof.
  intros s c d r H ->. cbn [allValid] in H.
  apply andb_true_iff in H as [_ H]. apply andb_true_iff in H as [H _].
  destruct (Ascii.eqb d ":") eqn:E; [|reflexivity].
  apply Ascii.eqb_eq in E as ->. discriminate.
Qed.

Lemma drive_cases name :
  (DRIVE_LETTER_REGEX name = None) \/
  (exists c rest, name = String c (String ":" rest) /\ Shared.isLetter c = true /\
                  DRIVE_LETTER_REGEX name = Some (String c ":")).
Proof.
  destruct name as [|c [|d rest]]; [left; reflexivity..|]. cbn [DRIVE_LETTER_REGEX].
  destruct (Shared.isLetter c) eqn:Hc; [|left; reflexivity].
  destruct (Ascii.eqb d ":") eqn:Hd; [|left; reflexivity].
  apply Ascii.eqb_eq in Hd as ->. right. exists c, rest. auto.
Qed.

(** the part behind the drive letter, sanitized *)
Lemma tail_fixed t :
  allValid t = true -> trimUnderscores true t = t ->
  trimUnderscores true (replaceAll INVALID_CHAR_REGEX (fun _ _ _ => "_") t) = t.
Proof. intros Hv Ht. rewrite invalid_replaced, sanitizeChars_fixed by exact Hv. exact Ht. Qed.

Lemma sanitizeFileName_shape name :
  exists driveLetter tail,
    sanitizeFileName name = driveLetter +:+ tail /\
    allValid tail = true /\ trimUnderscores true tail = tail /\
    (driveLetter = "" \/
     exists c, Shared.isLetter c = true /\ driveLetter = String c ":" /\
               startsWith name driveLetter = true).
Proof.
  unfold sanitizeFileName.
  destruct (drive_cases name) as [->|(c & rest & -> & Hc & ->)].
  - eexists "", _. split; [reflexivity|]. rewrite invalid_replaced.
    split; [apply trimUnderscores_valid, sanitizeChars_valid|].
    split; [apply trimUnderscores_idem|left; reflexivity].
  - eexists (String c ":"), _. split; [reflexivity|]. rewrite invalid_replaced.
    split; [apply trimUnderscores_valid, sanitizeChars_valid|].
    split; [apply trimUnderscores_idem|].
    right. exists c. split; [exact Hc|]. split; [reflexivity|].
    cbn [startsWith]. rewrite !Ascii.eqb_refl. reflexivity.
Qed.

(** X4. sanitizeFileName: the result is a drive letter taken over from the
    name, if it starts with one, followed by a text without any invalid
    character. *)
Theorem sanitizeFileName_valid (name : string) :
  exists driveLetter tail,
    sanitizeFileName name = driveLetter +:+ tail /\
    allValid tail = true /\
    (driveLetter = "" \/
     exists c, Shared.isLetter c = true /\ driveLetter = String c ":" /\
               startsWith name driveLetter = true).
Proof.
  destruct (sanitizeFileName_shape name) as (d & t & Heq & Hv & _ & Hd).
  exists d, t. auto.
Qed.

(** X5. sanitizeFileName: sanitizing a sanitized name changes nothing. *)
Theorem sanitizeFileName_idempotent (name : string) :
  sanitizeFileName (sanitizeFileName name) = sanitizeFileName name.
Proof.
  destruct (sanitizeFileName_shape name) as (d & t & -> & Hv & Ht & Hd).
  destruct Hd as [->|(c & Hc & -> & _)].
  - rewrite append_nil_l. unfold sanitizeFileName.
    assert (DRIVE_LETTER_REGEX t = None) as ->.
    { destruct t as [|x [|y r]] eqn:Et; [reflexivity..|]. cbn [DRIVE_LETTER_REGEX].
      rewrite (allValid_no_colon _ x y r Hv eq_refl), andb_false_r. reflexivity. }
    rewrite append_nil_l. cbn [String.length drop]. apply tail_fixed; assumption.
  - unfold sanitizeFileName. rewrite !append_cons, append_nil_l.
    cbn [DRIVE_LETTER_REGEX]. rewrite Hc, Ascii.eqb_refl. cbn [andb String.length drop].
    rewrite !append_cons, append_nil_l. do 2 f_equal. apply tail_fixed; assumption.
Qed.

Local Abbreviation sub1 :=
  (fun before matched after : string => getSubstitution before matched after "\$&").
Local Abbreviation sub2 :=
  (fun before matched after : string => getSubstitution before matched after "\x2d").

Lemma sub1_value b m a : sub1 b m a = String "\" m.
Proof. cbn. rewrite append_nil_r. reflexivity. Qed.

Lemma hyphen_not_special c : isRegExpSpecial c = true -> Ascii.eqb c "-" = false.
Proof.
  destruct (Ascii.eqb c "-") eqn:E; [|reflexivity].
  apply Ascii.eqb_eq in E as ->. discriminate.
Qed.

Lemma hyphen_go_cons c t pre :
  replaceGo (literal "-") sub2 pre 0 (String c t)
  = (if Ascii.eqb c "-" then "\x2d" else String c "")
    +:+ replaceGo (literal "-") sub2 (pre +:+ String c "") 0 t.
Proof.
  rewrite replaceGo_head. unfold literal. rewrite startsWith_char, Ascii.eqb_sym.
  destruct (Ascii.eqb c "-"); reflexivity.
Qed.

Lemma escape_go : forall s pre pre',
  replaceGo (literal "-") sub2 pre' 0 (replaceGo SPECIAL_RE sub1 pre 0 s)
  = escapeChars s.
Proof.
  induction s as [|c s IH]; intros pre pre'; [reflexivity|].
  rewrite replaceGo_head. cbn [SPECIAL_RE escapeChars]. unfold escapeChar.
  destruct (isRegExpSpecial c) eqn:Hc.
  - cbn [take drop]. rewrite sub1_value, !append_cons, append_nil_l.
    rewrite hyphen_go_cons. cbn [Ascii.eqb Bool.eqb]. rewrite append_cons, append_nil_l.
    rewrite hyphen_go_cons, (hyphen_not_special c Hc), append_cons, append_nil_l, IH.
    reflexivity.
  - rewrite hyphen_go_cons, IH. reflexivity.
Qed.

Lemma escapeRegExp_chars s : escapeRegExp s = escapeChars s.
Proof. apply escape_go. Qed.

Lemma escapeChars_inj : forall s t, escapeChars s = escapeChars t -> s = t.
Proof.
  induction s as [|c s IH]; intros [|d t]; cbn [escapeChars]; unfold escapeChar.
  - reflexivity.
  - destruct (isRegExpSpecial d); [|destruct (Ascii.eqb d "-")];
      rewrite ?append_cons; discriminate.
  - destruct (isRegExpSpecial c); [|destruct (Ascii.eqb c "-")];
      rewrite ?append_cons; discriminate.
  - destruct (isRegExpSpecial c) eqn:Hc; [|destruct (Ascii.eqb c "-") eqn:Hh];
      (destruct (isRegExpSpecial d) eqn:Hd; [|destruct (Ascii.eqb d "-") eqn:Hk]);
      rewrite ?append_cons, ?append_nil_l; intros H; injection H as H;
      repeat match goal with
             | H : String _ _ = String _ _ |- _ => injection H as H
             end;
      subst; try discriminate;
      try (apply Ascii.eqb_eq in Hh as ->); try (apply Ascii.eqb_eq in Hk as ->);
      try (f_equal; apply IH; assumption).
Qed.

(** X6. escapeRegExp: a text without special characters and hyphens is returned
    as it is; the result never holds a hyphen; and different texts have
    different results. *)
Theorem escapeRegExp_faithful :
  (forall str, isPlain str = true -> escapeRegExp str = str) /\
  (forall str, includes (escapeRegExp str) "-" = false) /\
  (forall s t, escapeRegExp s = escapeRegExp t -> s = t).
Proof.
  split; [|split].
  - intros str. rewrite escapeRegExp_chars.
    induction str as [|c s IH]; [reflexivity|]. cbn [isPlain escapeChars].
    intros [[Hc Hh]%andb_true_iff Hs]%andb_true_iff.
    apply negb_true_iff in Hc, Hh. unfold escapeChar. rewrite Hc, Hh, IH by exact Hs.
    reflexivity.
  - intros str. rewrite escapeRegExp_chars.
    induction str as [|c s IH]; [reflexivity|]. cbn [escapeChars]. unfold escapeChar.
    destruct (isRegExpSpecial c) eqn:Hc; [|destruct (Ascii.eqb c "-") eqn:Hh];
      rewrite ?append_cons, ?append_nil_l, !includes_char_cons, IH.
    + rewrite (Ascii.eqb_sym "-" c), (hyphen_not_special c Hc). reflexivity.
    + reflexivity.
    + rewrite (Ascii.eqb_sym "-" c), Hh. reflexivity.
  - intros s t. rewrite !escapeRegExp_chars. apply escapeChars_inj.
Qed.

(** X6 on a plain text, and on two equal results *)
Lemma escapeRegExp_faithful_witness :
  escapeRegExp "guide" = "guide" /\ "a.b" = "a.b".
Proof.
  split.
  - apply (proj1 escapeRegExp_faithful). reflexivity.
  - apply (proj2 (proj2 escapeRegExp_faithful)). reflexivity.
Defined.

End FileNamesFacts.

(** ** Addresses ([client/app/router.ts], [config.ts]) *)

Module RouterPathsFacts.

Import JS JSFacts JSString StringFacts SiteConfig RouterPaths.

(** the base of the site data ends with a slash *)
Lemma resolveBase_slash b : exists b', resolveBase b = b' +:+ "/".
Proof.
  destruct b as [[|c b]|]; [exists ""; reflexivity| |exists ""; reflexivity].
  cbn [resolveBase]. destruct (endsWith (String c b) "/") eqn:E.
  - apply endsWith_iff in E as [x ->]. exists x. reflexivity.
  - exists (String c b). reflexivity.
Qed.

Lemma dropEnd_suffix s p n :
  n = String.length p -> dropEnd n (s +:+ p) = s.
Proof. intros ->. apply dropEnd_append. Qed.

Lemma stripIndex_cases p :
  (endsWithSegment p "index.html" = false /\ endsWithSegment p "index" = false /\
   stripIndex p = p) \/
  stripIndex p = "" \/ exists d, stripIndex p = d +:+ "/".
Proof.
  unfold stripIndex. destruct (endsWithSegment p "index.html") eqn:E1.
  { right. apply endsWithSegment_cases in E1 as [->|[d ->]]; [left; reflexivity|right].
    exists d. rewrite <- append_assoc. apply dropEnd_suffix. reflexivity. }
  destruct (endsWithSegment p "index") eqn:E2.
  { right. apply endsWithSegment_cases in E2 as [->|[d ->]]; [left; reflexivity|right].
    exists d. rewrite <- append_assoc. apply dropEnd_suffix. reflexivity. }
  left. auto.
Qed.

Lemma stripIndex_slash d : stripIndex (d +:+ "/") = d +:+ "/".
Proof.
  unfold stripIndex.
  change "index.html" with ("index.htm" +:+ "l").
  rewrite (endsWithSegment_last d "/" "index.htm" "l") by discriminate.
  change "index" with ("inde" +:+ "x").
  rewrite (endsWithSegment_last d "/" "inde" "x") by discriminate.
  reflexivity.
Qed.

Lemma normalizePathname_slash d : normalizePathname false (d +:+ "/") = d +:+ "/".
Proof. unfold normalizePathname. rewrite stripIndex_slash, endsWith_append. reflexivity. Qed.

(** X7. normalizeHref: without clean URLs the pathname it leaves ends with a
    slash or with [.html], and normalizing it again changes nothing. *)
Theorem normalizePathname_canonical (pathname : string) :
  (endsWith (normalizePathname false pathname) "/"
   || endsWith (normalizePathname false pathname) ".html") = true /\
  normalizePathname false (normalizePathname false pathname)
  = normalizePathname false pathname.
Proof.
  destruct (stripIndex_cases pathname) as [(E1 & E2 & E)|[E|[d E]]].
  - destruct (endsWith pathname "/") eqn:Hs.
    { apply endsWith_iff in Hs as [x ->].
      rewrite !normalizePathname_slash, endsWith_append. split; reflexivity. }
    destruct (endsWith pathname ".html") eqn:Hh.
    { assert (normalizePathname false pathname = pathname) as Hn.
      { unfold normalizePathname. rewrite E, Hs, Hh. reflexivity. }
      rewrite !Hn, Hh, orb_true_r. split; reflexivity. }
    assert (normalizePathname false pathname = pathname +:+ ".html") as Hn.
    { unfold normalizePathname. rewrite E, Hs, Hh. reflexivity. }
    rewrite !Hn, endsWith_append, orb_true_r. split; [reflexivity|].
    unfold normalizePathname, stripIndex.
    assert (endsWithSegment (pathname +:+ ".html") "index.html" = false) as ->.
    { exact (eq_trans (endsWithSegment_cancel pathname "index" ".html") E2). }
    assert (endsWithSegment (pathname +:+ ".html") "index" = false) as ->.
    { change ".html" with (".htm" +:+ "l"). rewrite <- append_assoc.
      change "index" with ("inde" +:+ "x"). apply endsWithSegment_last. discriminate. }
    rewrite endsWith_append, andb_false_r. reflexivity.
  - assert (normalizePathname false pathname = ".html") as Hn.
    { unfold normalizePathname. rewrite E. reflexivity. }
    rewrite !Hn. split; reflexivity.
  - assert (normalizePathname false pathname = d +:+ "/") as Hn.
    { unfold normalizePathname. rewrite E, endsWith_append. reflexivity. }
    rewrite !Hn, normalizePathname_slash, endsWith_append. split; reflexivity.
Qed.

Lemma segment_md s : endsWithSegment (s +:+ ".md") "index.md" = endsWithSegment s "index".
Proof. exact (endsWithSegment_cancel s "index" ".md"). Qed.

Lemma segment_html s :
  endsWithSegment (s +:+ ".html") "index.html" = endsWithSegment s "index".
Proof. exact (endsWithSegment_cancel s "index" ".html"). Qed.

(** the stem of a page and what is left of its path *)
Lemma stripIndexMd_stem stem :
  (endsWithSegment stem "index" = false /\ stripIndexMd (stem +:+ ".md") = stem) \/
  (stem = "index" /\ stripIndexMd (stem +:+ ".md") = "") \/
  (exists d, stem = d +:+ "/index" /\ stripIndexMd (stem +:+ ".md") = d +:+ "/").
Proof.
  unfold stripIndexMd.
  assert (endsWithSegment (stem +:+ ".md") "index.md" = endsWithSegment stem "index") as ->
    by apply (endsWithSegment_cancel stem "index" ".md").
  destruct (endsWithSegment stem "index") eqn:E.
  - right. apply endsWithSegment_cases in E as [->|[d ->]].
    + left. split; reflexivity.
    + right. exists d. split; [reflexivity|].
      rewrite !append_assoc. rewrite <- (append_assoc d "/").
      apply dropEnd_suffix. reflexivity.
  - left. split; [reflexivity|]. rewrite endsWith_append. apply dropEnd_suffix. reflexivity.
Qed.

Lemma endsWith_slash_html d : endsWith (d +:+ "/") ".html" = false.
Proof.
  change ".html" with (".htm" +:+ "l"). apply endsWith_last. discriminate.
Qed.

Lemma endsWith_index_html d : endsWith (d +:+ "index") ".html" = false.
Proof.
  change "index" with ("inde" +:+ "x"). rewrite <- append_assoc.
  change ".html" with (".htm" +:+ "l"). apply endsWith_last. discriminate.
Qed.

Lemma endsWith_slash_nonempty x s :
  s <> "" -> endsWith (x +:+ s) "/" = endsWith s "/".
Proof.
  intros Hs. apply endsWith_long. destruct s; [congruence|]. cbn. lia.
Qed.

Lemma endsWith_behind_root s p :
  includes p "/" = false -> endsWith ("/" +:+ s) p = endsWith s p.
Proof. exact (endsWith_behind_slash "" s p). Qed.

(** the path of the not-found data, for a pathname behind the root *)
Lemma notFoundRelativePath_html stem :
  stem <> "" -> endsWith stem "/" = false ->
  Router.notFoundRelativePath true ("/" +:+ stem +:+ ".html") = stem +:+ ".md".
Proof.
  intros Hne Hs. unfold Router.notFoundRelativePath.
  assert (endsWith ("/" +:+ stem +:+ ".html") "/" = false) as ->.
  { change ".html" with (".htm" +:+ "l"). rewrite <- !append_assoc.
    apply (endsWith_last _ "l" "" "/"). discriminate. }
  rewrite orb_false_r. change (String.eqb ("/" +:+ stem +:+ ".html") "") with false.
  cbv iota. rewrite <- (append_assoc "/" stem), endsWith_append.
  rewrite (dropEnd_suffix ("/" +:+ stem) ".html" 5 eq_refl). reflexivity.
Qed.

Lemma notFoundRelativePath_plain stem :
  stem <> "" -> endsWith stem "/" = false -> endsWith stem ".html" = false ->
  Router.notFoundRelativePath true ("/" +:+ stem) = stem +:+ ".md".
Proof.
  intros Hne Hs Hh. unfold Router.notFoundRelativePath.
  rewrite (endsWith_slash_nonempty "/" stem Hne), Hs.
  change (String.eqb ("/" +:+ stem) "") with false. cbn [orb].
  rewrite (endsWith_behind_root stem ".html" eq_refl), Hh. reflexivity.
Qed.

Lemma notFoundRelativePath_dir d :
  Router.notFoundRelativePath true ("/" +:+ d +:+ "/") = d +:+ "/index.md".
Proof.
  unfold Router.notFoundRelativePath.
  rewrite <- (append_assoc "/" d), endsWith_append, orb_true_r.
  rewrite endsWith_index_html. unfold replacePrefix.
  rewrite !append_assoc. reflexivity.
Qed.


(** behind a slash, a segment at the end lies in what follows *)
Lemma endsWithSegment_behind_slash x s n :
  includes n "/" = false -> endsWithSegment (x +:+ "/" +:+ s) n = endsWithSegment s n.
Proof.
  intros Hn. unfold endsWithSegment at 1.
  rewrite (eqb_behind_slash x s n Hn), (endsWith_segment_behind_slash x s n Hn).
  reflexivity.
Qed.

Lemma stripIndexMd_behind_slash x stem :
  stripIndexMd (x +:+ "/" +:+ stem +:+ ".md")
  = x +:+ "/" +:+ stripIndexMd (stem +:+ ".md").
Proof.
  destruct (stripIndexMd_stem stem) as [(E & ->)|[(-> & ->)|(d & -> & ->)]].
  - unfold stripIndexMd.
    assert (endsWithSegment (x +:+ "/" +:+ stem +:+ ".md") "index.md" = false) as ->.
    { rewrite <- !append_assoc, segment_md.
      rewrite append_assoc, endsWithSegment_behind_slash by reflexivity. exact E. }
    rewrite <- !append_assoc, endsWith_append.
    apply dropEnd_suffix. reflexivity.
  - unfold stripIndexMd.
    assert (endsWithSegment (x +:+ "/" +:+ "index" +:+ ".md") "index.md" = true) as ->.
    { unfold endsWithSegment. rewrite endsWith_append. apply orb_true_r. }
    rewrite <- (append_assoc x "/"). apply dropEnd_suffix. reflexivity.
  - unfold stripIndexMd.
    assert (endsWithSegment (x +:+ "/" +:+ (d +:+ "/index") +:+ ".md") "index.md" = true) as ->.
    { unfold endsWithSegment. apply orb_true_iff. right. apply endsWith_iff.
      exists (x +:+ "/" +:+ d). rewrite !append_assoc. reflexivity. }
    transitivity (dropEnd 8 ((x +:+ "/" +:+ d +:+ "/") +:+ "index.md")).
    { f_equal. rewrite !append_assoc. reflexivity. }
    apply dropEnd_suffix. reflexivity.
Qed.

Lemma stripIndexHtml_slash d : stripIndexHtml (d +:+ "/") = d +:+ "/".
Proof.
  unfold stripIndexHtml. change "index.html" with ("index.htm" +:+ "l").
  rewrite (endsWithSegment_last d "/" "index.htm" "l") by discriminate.
  rewrite endsWith_slash_html. reflexivity.
Qed.

Lemma endsWithSegment_html s n :
  endsWithSegment s (n +:+ ".html") = true -> endsWith s ".html" = true.
Proof.
  intros [-> |[d ->]]%endsWithSegment_cases; apply endsWith_iff.
  - exists n. reflexivity.
  - exists (d +:+ "/" +:+ n). rewrite !append_assoc. reflexivity.
Qed.

(** the address of a page, with the extension and the index taken off again *)
Lemma stripIndexHtml_actualPathname b cleanUrls stem :
  (cleanUrls = true -> endsWith stem ".html" = false) ->
  stripIndexHtml (actualPathname (b +:+ "/") cleanUrls (stem +:+ ".md"))
  = (b +:+ "/") +:+ stripIndexMd (stem +:+ ".md").
Proof.
  intros Hh. unfold actualPathname.
  destruct (stripIndexMd_stem stem) as [(E & ->)|[(-> & ->)|(d & -> & ->)]].
  - destruct (endsWith ((b +:+ "/") +:+ stem) "/") eqn:Hs.
    { rewrite andb_false_r. apply endsWith_iff in Hs as [y Hy]. rewrite Hy.
      apply stripIndexHtml_slash. }
    rewrite andb_true_r. destruct cleanUrls; cbn [negb].
    + unfold stripIndexHtml. rewrite !append_assoc.
      rewrite (endsWithSegment_behind_slash b stem "index.html" eq_refl).
      rewrite (endsWith_behind_slash b stem ".html" eq_refl), (Hh eq_refl).
      destruct (endsWithSegment stem "index.html") eqn:E'; [|reflexivity].
      apply (endsWithSegment_html stem "index") in E'. rewrite Hh in E' by reflexivity.
      discriminate.
    + unfold stripIndexHtml.
      rewrite segment_html.
      rewrite append_assoc, (endsWithSegment_behind_slash b stem "index" eq_refl), E.
      rewrite <- append_assoc, endsWith_append. apply dropEnd_suffix. reflexivity.
  - rewrite append_nil_r, endsWith_append, andb_false_r. apply stripIndexHtml_slash.
  - rewrite <- (append_assoc (b +:+ "/") d), endsWith_append, andb_false_r.
    apply stripIndexHtml_slash.
Qed.

Lemma sliceBase_behind b s : sliceBase (b +:+ "/") ((b +:+ "/") +:+ s) = "/" +:+ s.
Proof.
  unfold sliceBase. rewrite length_append. cbn [String.length].
  replace (String.length b + 1) with (S (String.length b)) by lia.
  rewrite append_assoc. apply drop_append.
Qed.




End RouterPathsFacts.

(** ** Identifiers in the search index ([localSearchPlugin.ts]) *)

Module LocalSearchIdsFacts.

Import JS JSFacts JSString StringFacts SiteConfig RouterPaths RouterPathsFacts LocalSearch.

(** X10. getDocId: the identifier under which a page is indexed is the address
    loadPage leaves for it, when the name of the page is not empty and does
    not end with a slash, and the base is joined by putting it in front. *)
Theorem getDocId_is_page_address
    (relativeToSrc : string -> string) (rewritesMap : gmap string string)
    (joinBase : string -> string) (cleanUrls : bool)
    (base : option string) (file relFile stem : string) :
  relativeToSrc file = relFile ->
  (rewritesMap !! relFile = None /\ relFile = stem +:+ ".md" \/
   rewritesMap !! relFile = Some (stem +:+ ".md")) ->
  joinBase (stem +:+ ".md") = resolveBase base +:+ stem +:+ ".md" ->
  stem <> "" -> endsWith stem "/" = false ->
  getDocId relativeToSrc rewritesMap joinBase cleanUrls file
  = actualPathname (resolveBase base) cleanUrls (stem +:+ ".md").
Proof.
  intros Hrel Hmap Hjoin Hne Hs. unfold getDocId. rewrite Hrel.
  assert (match rewritesMap !! relFile with
          | Some r => if String.eqb r "" then relFile else r
          | None => relFile
          end = stem +:+ ".md") as ->.
  { destruct Hmap as [[-> ->]| ->]; [reflexivity|].
    destruct stem; [congruence|reflexivity]. }
  rewrite Hjoin. destruct (resolveBase_slash base) as [b ->].
  unfold actualPathname.
  assert (endsWithSegment ((b +:+ "/") +:+ stem +:+ ".md") "index.md"
          = endsWithSegment stem "index") as ->.
  { rewrite <- append_assoc, segment_md.
    rewrite append_assoc. apply endsWithSegment_behind_slash. reflexivity. }
  destruct (stripIndexMd_stem stem) as [(E & ->)|[(-> & ->)|(d & -> & ->)]].
  - rewrite E, <- append_assoc, replaceSuffix_append.
    rewrite (endsWith_slash_nonempty (b +:+ "/") stem Hne), Hs, andb_true_r.
    destruct cleanUrls; cbn [negb]; [apply append_nil_r|reflexivity].
  - change (endsWithSegment "index" "index") with true. cbv iota.
    change ("index" +:+ ".md") with "index.md".
    rewrite (dropEnd_suffix (b +:+ "/") "index.md" 8 eq_refl).
    rewrite append_nil_r, endsWith_append, andb_false_r.
    unfold replaceSuffix. change ".md" with (".m" +:+ "d").
    rewrite (endsWith_last b "/" ".m" "d") by discriminate. reflexivity.
  - assert (endsWithSegment (d +:+ "/index") "index" = true) as ->.
    { unfold endsWithSegment. rewrite endsWith_append. apply orb_true_r. }
    transitivity (replaceSuffix ".md" (if cleanUrls then "" else ".html")
                    (dropEnd 8 (((b +:+ "/") +:+ d +:+ "/") +:+ "index.md"))).
    { do 2 f_equal. rewrite !append_assoc. reflexivity. }
    rewrite (dropEnd_suffix _ "index.md" 8 eq_refl).
    rewrite <- (append_assoc (b +:+ "/") d), endsWith_append, andb_false_r.
    unfold replaceSuffix. change ".md" with (".m" +:+ "d").
    rewrite (endsWith_last ((b +:+ "/") +:+ d) "/" ".m" "d") by discriminate.
    rewrite append_assoc. reflexivity.
Qed.

(** X10 on the page [guide/intro.md] of a site served under [/docs] *)
Lemma getDocId_is_page_address_witness :
  getDocId (fun _ => "guide/intro.md") ∅ (fun p => "/docs/" +:+ p) true
    "/src/guide/intro.md"
  = actualPathname (resolveBase (Some "/docs")) true ("guide/intro" +:+ ".md").
Proof.
  apply (getDocId_is_page_address (fun _ => "guide/intro.md") ∅
           (fun p => "/docs/" +:+ p) true (Some "/docs")
           "/src/guide/intro.md" "guide/intro.md" "guide/intro").
  - reflexivity.
  - left. split; reflexivity.
  - reflexivity.
  - discriminate.
  - reflexivity.
Defined.

End LocalSearchIdsFacts.
(** ** The parameters of a dynamic route ([dynamicRoutesPlugin.ts],
    [markdownToVue.ts]) *)

Module RouteParamsFacts.

Import JS JSFacts JSString StringFacts DynamicRoutes RouteParams.

Lemma startsWith_iff s p : startsWith s p = true <-> exists t, s = p +:+ t.
Proof.
  revert s. induction p as [|a p IH]; intros s.
  - split; [intros _; exists s; reflexivity|reflexivity].
  - destruct s as [|b s]; cbn [startsWith].
    + split; [discriminate|intros [t Ht]; discriminate].
    + destruct (Ascii.eqb a b) eqn:E.
      * apply Ascii.eqb_eq in E as ->. rewrite IH. split; intros [t Ht]; exists t.
        -- rewrite append_cons, Ht. reflexivity.
        -- rewrite append_cons in Ht. injection Ht as ->. reflexivity.
      * split; [discriminate|]. intros [t Ht]. rewrite append_cons in Ht.
        injection Ht as -> _. rewrite Ascii.eqb_refl in E. discriminate.
Qed.

(** a prefix of a concatenation lies in the first part, or the first part
    is a prefix of it *)
Lemma startsWith_append_cases : forall v t p,
  startsWith (v +:+ t) p = true -> startsWith v p = true \/ startsWith p v = true.
Proof.
  induction v as [|a v IH]; intros t p H.
  - right. destruct p; reflexivity.
  - destruct p as [|b p]; [left; reflexivity|].
    rewrite append_cons in H. cbn [startsWith] in *.
    rewrite (Ascii.eqb_sym a b).
    destruct (Ascii.eqb b a); [|discriminate]. apply (IH t p H).
Qed.

Lemma includes_startsWith s p : startsWith s p = true -> includes s p = true.
Proof. destruct s; intros H; cbn [includes]; rewrite H; reflexivity. Qed.

Lemma includes_suffix : forall u v p, includes v p = true -> includes (u +:+ v) p = true.
Proof.
  induction u as [|a u IH]; intros v p H; [exact H|].
  rewrite append_cons, includes_cons, (IH v p H). apply orb_true_r.
Qed.

Lemma includes_prefix_of : forall p v c,
  startsWith p v = true -> includes v (String c "") = true ->
  includes p (String c "") = true.
Proof.
  intros p v c [t ->]%startsWith_iff H. rewrite includes_char_append, H. reflexivity.
Qed.

(** the end marker is first found behind the parameters *)
Lemma indexOf_end : forall v u rest,
  v = "" \/ endsWith v "}" = true ->
  includes (u +:+ v) PARAMS_END = false ->
  indexOf PARAMS_END (v +:+ PARAMS_END +:+ rest) = Some (String.length v).
Proof.
  induction v as [|a v IH]; intros u rest Hv H.
  - rewrite append_nil_l. destruct rest; reflexivity.
  - destruct Hv as [Hv|Hv]; [discriminate|].
    rewrite append_cons. cbn [indexOf].
    destruct (startsWith (String a (v +:+ PARAMS_END +:+ rest)) PARAMS_END) eqn:E.
    + exfalso.
      change (String a (v +:+ PARAMS_END +:+ rest))
        with (String a v +:+ PARAMS_END +:+ rest) in E.
      apply startsWith_append_cases in E as [E|E].
      * apply includes_startsWith, (includes_suffix u) in E. congruence.
      * apply (includes_prefix_of _ _ "}") in E; [discriminate|].
        apply endsWith_iff in Hv as [x ->]. rewrite includes_char_append.
        apply orb_true_r.
    + rewrite (IH (u +:+ String a "")).
      * reflexivity.
      * destruct v as [|b v]; [left; reflexivity|right].
        rewrite <- (endsWith_long (String a "") (String b v) "}") by (cbn; lia).
        exact Hv.
      * rewrite append_assoc. exact H.
Qed.

(** what the compiler takes from a source that starts with the
    parameters *)
Lemma extractParams_source body rest :
  includes (body +:+ "}") PARAMS_END = false ->
  extractParams (PARAMS_START +:+ (body +:+ "}") +:+ PARAMS_END +:+ rest)
  = (Some (body +:+ "}"), rest).
Proof.
  intros H. unfold extractParams. rewrite startsWith_append.
  change 17 with (String.length PARAMS_START) at 1. rewrite drop_append.
  assert (exists c v, body +:+ "}" = String c v /\ (v = "" \/ endsWith v "}" = true))
    as (c & v & Hcv & Hv).
  { destruct body as [|a body].
    - exists "}"%char, "". split; [reflexivity|left; reflexivity].
    - exists a, (body +:+ "}"). split; [reflexivity|right; apply endsWith_append]. }
  rewrite Hcv in *. rewrite append_cons. cbv iota.
  rewrite (indexOf_end v (String c "") rest Hv H), take_append.
  replace (String.length v + 17) with (String.length (v +:+ PARAMS_END))
    by (rewrite length_append; reflexivity).
  rewrite <- append_assoc, drop_append. reflexivity.
Qed.

(** X11. load and the compiler: when the hook returns the source of a page,
    the page belongs to a route with the identifier asked for, and if the
    text of the parameters of that route ends with a closing brace and does
    not hold the end marker, the compiler takes exactly that text from the
    source and is left with the rest of it. *)
Theorem load_source_gives_params_back
    (resolveInSrc : string -> string) (readFileSync : string -> string)
    (stringify : list (string * string) -> string)
    (routes : list ResolvedRouteConfig) (id : string) (sets : ModuleSets)
    (code : string) :
  fst (load resolveInSrc readFileSync stringify routes id sets) = Source code ->
  exists matched,
    In matched routes /\ fullPath matched = id /\
    code = pageSource resolveInSrc readFileSync stringify matched /\
    forall body,
      stringify (routeParams matched) = body +:+ "}" ->
      includes (body +:+ "}") PARAMS_END = false ->
      exists rest,
        code = PARAMS_START +:+ (body +:+ "}") +:+ PARAMS_END +:+ rest /\
        extractParams code = (Some (body +:+ "}"), rest).
Proof.
  unfold load.
  destruct (find (fun r => String.eqb (fullPath r) id) routes) as [matched|] eqn:Hfind;
    [|discriminate].
  destruct (owners sets !! resolveInSrc (route matched)); [|discriminate].
  cbn [fst]. intros [= <-]. apply find_some in Hfind as [Hin Hid].
  apply String.eqb_eq in Hid. exists matched. split; [exact Hin|].
  split; [exact Hid|]. split; [reflexivity|].
  intros body Hjson Hclean. unfold pageSource. rewrite Hjson.
  eexists. split; [reflexivity|]. apply extractParams_source, Hclean.
Qed.

(** X11 on the first page of the route [post/[id].md] *)
Lemma load_source_gives_params_back_witness :
  exists matched,
    In matched [RouteParamsSpec.exampleRoute] /\
    fullPath matched = "/src/post/1.md" /\
    extractParams
      (pageSource (fun p => "/src/" +:+ p) (fun _ => "# Post")
         RouteParamsSpec.exampleStringify matched)
    = (Some "{id:1}", "# Post").
Proof.
  destruct (load_source_gives_params_back (fun p => "/src/" +:+ p)
              (fun _ => "# Post") RouteParamsSpec.exampleStringify
              [RouteParamsSpec.exampleRoute]
              "/src/post/1.md" RouteParamsSpec.exampleSets
              (pageSource (fun p => "/src/" +:+ p) (fun _ => "# Post")
                 RouteParamsSpec.exampleStringify RouteParamsSpec.exampleRoute)
              eq_refl)
    as (matched & Hin & Hfull & Hcode & Hparams).
  exists matched. split; [exact Hin|]. split; [exact Hfull|].
  destruct Hin as [<-|[]].
  destruct (Hparams "{id:1" eq_refl eq_refl) as (rest & Hsrc & Hextract).
  rewrite Hextract. cbv in Hsrc. assert (rest = "# Post") as -> by congruence.
  reflexivity.
Defined.

End RouteParamsFacts.

(** ** Paths of dynamic routes ([dynamicRoutesPlugin.ts]) *)

Module RoutePathFacts.

Import JS JSFacts JSString StringFacts DynamicRoutes.

Lemma dynamicRouteRE_bracket s :
  dynamicRouteRE s <> None -> startsWith s "[" = true.
Proof.
  destruct s as [|c s]; [intros H; destruct H; reflexivity|].
  cbn [dynamicRouteRE]. rewrite startsWith_char, (Ascii.eqb_sym "[" c).
  destruct (Ascii.eqb c "["); [reflexivity|]. intros H. destruct H. reflexivity.
Qed.

(** a text without an opening bracket holds no parameter *)
Lemma no_bracket_no_match : forall pre rest,
  includes pre "[" = false -> noMatchWithin dynamicRouteRE pre rest = true.
Proof.
  induction pre as [|c pre IH]; intros rest H; [reflexivity|].
  rewrite includes_char_cons in H. apply orb_false_elim in H as [Hc Hpre].
  cbn [noMatchWithin]. rewrite append_cons.
  destruct (dynamicRouteRE (String c (pre +:+ rest))) eqn:E.
  - assert (startsWith (String c (pre +:+ rest)) "[" = true) as Hb
      by (apply dynamicRouteRE_bracket; congruence).
    rewrite startsWith_char, Hc in Hb. discriminate.
  - apply IH, Hpre.
Qed.

Lemma wordRun_key key rest :
  wordRun key = String.length key -> wordRun (key +:+ "]" +:+ rest) = String.length key.
Proof.
  revert rest. induction key as [|c key IH]; intros rest H; [reflexivity|].
  rewrite append_cons. cbn [wordRun String.length] in *.
  destruct (isWord c); [|discriminate]. f_equal. apply IH. lia.
Qed.

Lemma dynamicRouteRE_param key rest :
  key <> "" -> wordRun key = String.length key ->
  dynamicRouteRE (("[" +:+ key +:+ "]") +:+ rest)
  = Some (String.length ("[" +:+ key +:+ "]")).
Proof.
  intros Hne Hkey.
  change (("[" +:+ key +:+ "]") +:+ rest) with (String "[" ((key +:+ "]") +:+ rest)).
  cbn [dynamicRouteRE]. rewrite append_assoc, (wordRun_key key rest Hkey).
  rewrite drop_append, startsWith_append, andb_true_r.
  destruct key as [|c key]; [congruence|]. cbn [String.length Nat.ltb Nat.leb andb].
  change ("[" +:+ String c key +:+ "]") with (String "[" (String c key +:+ "]")).
  cbn [String.length]. rewrite (length_append (String c key) "]"). cbn [String.length].
  do 2 f_equal. lia.
Qed.

Lemma resolvedPath_plain post ps :
  includes post "[" = false -> resolvedPath post ps = post.
Proof.
  intros H. unfold resolvedPath. rewrite <- (append_nil_r post) at 1.
  rewrite replaceAll_copy; [apply append_nil_r|reflexivity|].
  apply no_bracket_no_match, H.
Qed.


Section Provenance.

Variable resolveInSrc : string -> string.
Variable resolveInCwd : string -> string.
Variable existsSync : string -> bool.
Variable loadConfigFromFile : string -> option RouteModule.

Lemma resolveRoute_fields route paths r :
  In r (resolveRoute resolveInSrc route paths) ->
  DynamicRoutes.route r = route /\
  path r = resolvedPath route (routeParams r) /\
  fullPath r = resolveInSrc (path r).
Proof.
  unfold resolveRoute. intros (userConfig & <- & _)%in_map_iff.
  split; [reflexivity|]. split; reflexivity.
Qed.

Lemma resolveOne_fields route st rs r :
  fst (resolveOne resolveInSrc resolveInCwd existsSync loadConfigFromFile route st)
  = Some rs ->
  In r rs ->
  DynamicRoutes.route r = route /\
  path r = resolvedPath route (routeParams r) /\
  fullPath r = resolveInSrc (path r).
Proof.
  unfold resolveOne.
  destruct (find existsSync (pathsFiles (resolveInSrc route))) as [pathsFile|];
    [|cbn [fst]; intros [= <-] []].
  destruct (match routeModuleCache st !! pathsFile with
            | Some m => Some m
            | None => loadConfigFromFile pathsFile
            end) as [m|]; [|cbn [fst]; intros [= <-] []].
  destruct (modPaths m) as [|[l|]]; cbn [fst].
  - intros [= <-] [].
  - intros [= <-]. apply resolveRoute_fields.
  - discriminate.
Qed.


End Provenance.



End RoutePathFacts.

(** ** The second import of the development loader ([client/app/index.ts]) *)

Module ClientAppDevFacts.

Import JS JSFacts JSString StringFacts ClientAppDev.

Lemma endsWith_index_md s : endsWith (s +:+ ".md") "/index.md" = endsWith s "/index".
Proof. exact (endsWith_cancel s "/index" ".md"). Qed.

(** X14. newRouter: in development, the path tried second is the path tried
    first with the directory form exchanged for the file form, or the other
    way round; from a path that names a page and does not end with
    [/index/index.md], exchanging twice gives the path back. *)
Theorem devFallbackPathname_involutive (stem : string) :
  endsWith (stem +:+ ".md") "/index/index.md" = false ->
  devFallbackPathname (devFallbackPathname (stem +:+ ".md")) = stem +:+ ".md".
Proof.
  intros H. unfold devFallbackPathname at 2. rewrite endsWith_index_md.
  destruct (endsWith stem "/index") eqn:E.
  - apply endsWith_iff in E as [t ->].
    rewrite (append_assoc t "/index" ".md").
    change ("/index" +:+ ".md") with "/index.md".
    rewrite (dropEnd_append t "/index.md" : dropEnd 9 _ = _).
    unfold devFallbackPathname. rewrite endsWith_index_md.
    assert (endsWith t "/index" = false) as ->.
    { destruct (endsWith t "/index") eqn:Et; [|reflexivity].
      apply endsWith_iff in Et as [x ->].
      assert (endsWith (((x +:+ "/index") +:+ "/index") +:+ ".md") "/index/index.md"
              = true) as Hc.
      { apply endsWith_iff. exists x. rewrite !append_assoc. reflexivity. }
      rewrite Hc in H. discriminate. }
    rewrite (dropEnd_append t ".md" : dropEnd 3 _ = _). reflexivity.
  - rewrite (dropEnd_append stem ".md" : dropEnd 3 _ = _).
    unfold devFallbackPathname. rewrite endsWith_append.
    rewrite (dropEnd_append stem "/index.md" : dropEnd 9 _ = _). reflexivity.
Qed.

(** X14 on the page [guide/intro.md] *)
Lemma devFallbackPathname_involutive_witness :
  devFallbackPathname (devFallbackPathname ("guide/intro" +:+ ".md"))
  = "guide/intro" +:+ ".md".
Proof. apply devFallbackPathname_involutive. reflexivity. Defined.

End ClientAppDevFacts.
(** ** Links with a query string or an anchor ([markdownToVue.ts]) *)

Module LinkCheckFacts.

Import JS JSFacts JSString StringFacts Shared MarkdownToVue MarkdownFacts.

Lemma stripQueryHash_plain u :
  includes u "?" = false -> includes u "#" = false -> stripQueryHash u = u.
Proof.
  induction u as [|c u IH]; [reflexivity|].
  rewrite !includes_char_cons. intros [Hq Hu]%orb_false_elim [Hh Hu']%orb_false_elim.
  cbn [stripQueryHash]. rewrite (Ascii.eqb_sym c "?"), (Ascii.eqb_sym c "#"), Hq, Hh.
  cbn [orb andb]. rewrite IH by assumption. reflexivity.
Qed.

Lemma stripQueryHash_tail u c rest :
  includes u "?" = false -> includes u "#" = false ->
  Ascii.eqb c "?" || Ascii.eqb c "#" = true ->
  noLineTerminator rest = true ->
  stripQueryHash (u +:+ String c rest) = u.
Proof.
  intros Hq Hh Hc Hrest. induction u as [|a u IH].
  - rewrite append_nil_l. cbn [stripQueryHash]. rewrite Hc, Hrest. reflexivity.
  - rewrite !includes_char_cons in *.
    apply orb_false_elim in Hq as [Hq Hu]. apply orb_false_elim in Hh as [Hh Hu'].
    rewrite append_cons. cbn [stripQueryHash].
    rewrite (Ascii.eqb_sym a "?"), (Ascii.eqb_sym a "#"), Hq, Hh. cbn [orb andb].
    rewrite IH by assumption. reflexivity.
Qed.

(** X15. the dead-link check: a link followed by a query string or an anchor on
    the same line is checked, and reported, as the link alone, given that
    the URL parser finds the same pathname in both. *)
Theorem checkLink_ignores_query_and_anchor
    (extraExts : string) (pathnameOf relativeToSrc : string -> string)
    (decodeURIComponent : string -> option string)
    (publicHtmlExists : string -> bool) (pages : list string)
    (inv : gmap string string) (policy : IgnoreDeadLinks) (fileRel : string)
    (u : string) (c : ascii) (rest : string) :
  includes u "?" = false -> includes u "#" = false ->
  Ascii.eqb c "?" || Ascii.eqb c "#" = true ->
  noLineTerminator rest = true ->
  pathnameOf (u +:+ String c rest) = pathnameOf u ->
  normalizeLink (u +:+ String c rest) = normalizeLink u /\
  checkLink extraExts pathnameOf relativeToSrc decodeURIComponent
    publicHtmlExists pages inv policy fileRel (u +:+ String c rest)
  = checkLink extraExts pathnameOf relativeToSrc decodeURIComponent
      publicHtmlExists pages inv policy fileRel u.
Proof.
  intros Hq Hh Hc Hrest Hpath.
  assert (normalizeLink (u +:+ String c rest) = normalizeLink u) as Hn.
  { unfold normalizeLink.
    rewrite (stripQueryHash_tail u c rest Hq Hh Hc Hrest), (stripQueryHash_plain u Hq Hh).
    reflexivity. }
  split; [exact Hn|]. unfold checkLink. rewrite Hpath, Hn. reflexivity.
Qed.

(** X16. treatAsHtml: with no extra extensions configured, a file name that
    ends with [.md] or [.html], in whatever case of the letters m, d, h, t
    and l, is treated as HTML. *)
Theorem treatAsHtml_pages (stem ext : string) :
  toLowerCase ext = "md" \/ toLowerCase ext = "html" ->
  includes ext "." = false ->
  treatAsHtml "" (stem +:+ "." +:+ ext) = true.
Proof.
  intros Hext Hdot. unfold treatAsHtml.
  rewrite (splitPop_extension "." stem ext "" Hdot).
  destruct Hext as [-> | ->]; vm_compute; reflexivity.
Qed.

(** X15 on the link [/guide#top] *)
Lemma checkLink_ignores_query_and_anchor_witness :
  normalizeLink ("/guide" +:+ String "#" "top") = normalizeLink "/guide" /\
  checkLink "" (fun _ => "/guide") (fun u => u) Some (fun _ => false) [] ∅
    IgnoreUnset "index.md" ("/guide" +:+ String "#" "top")
  = checkLink "" (fun _ => "/guide") (fun u => u) Some (fun _ => false) [] ∅
      IgnoreUnset "index.md" "/guide".
Proof.
  apply checkLink_ignores_query_and_anchor; reflexivity.
Defined.

(** X16 on an extension in capitals *)
Lemma treatAsHtml_pages_witness :
  treatAsHtml "" ("guide/intro" +:+ "." +:+ "MD") = true.
Proof. apply treatAsHtml_pages; [left; reflexivity | reflexivity]. Defined.

End LinkCheckFacts.
(** ** The head and the links of a rendered page ([render.ts]) *)

Module RenderFacts.

Import JS JSFacts JSString StringFacts Shared Plugin PluginSpec PluginFacts Render.

(** X17. renderPage: a description tag in the head before the transform hook
    never comes from the frontmatter of the page: it is one of the tags the
    build adds, one of the link tags, or a tag of the head of the site. *)
Theorem description_never_from_page_head
    (additionalHeadTags preloadHeadTags prefetchHeadTags siteHead pageHead
       : list HeadConfig) (t : HeadConfig) :
  In t (headBeforeTransform additionalHeadTags preloadHeadTags prefetchHeadTags
          siteHead pageHead) ->
  isMetaNamed "description" t = true ->
  In t (additionalHeadTags ++ preloadHeadTags ++ prefetchHeadTags ++ siteHead).
Proof.
  unfold headBeforeTransform, mergeHead, filterOutHeadDescription.
  rewrite !in_app_iff. intros [H|[H|[H|[H|H]]]] Ht; auto.
  - apply filter_In in H as [H _]. auto.
  - apply filter_In in H as [_ H]. rewrite Ht in H. discriminate.
Qed.

Lemma existsb_eqb_In_iff x l : existsb (String.eqb x) l = true <-> In x l.
Proof.
  rewrite existsb_exists. split.
  - intros (y & Hy & ->%String.eqb_eq). exact Hy.
  - intros H. exists x. split; [exact H|apply String.eqb_refl].
Qed.

Lemma dedupe_In : forall l seen x,
  In x (dedupe seen l) <-> In x l /\ ~ In x seen.
Proof.
  induction l as [|y l IH]; intros seen x; cbn [dedupe].
  - split; [intros []|intros [[] _]].
  - destruct (existsb (String.eqb y) seen) eqn:E.
    + apply existsb_eqb_In_iff in E. rewrite IH. cbn [In]. split.
      * intros [H Hn]. auto.
      * intros [[->|H] Hn]; [contradiction|auto].
    + assert (~ In y seen) as Hy.
      { intros H. apply existsb_eqb_In_iff in H. congruence. }
      cbn [In]. rewrite IH. cbn [In]. split.
      * intros [->|[H Hn]]; [auto|]. split; [auto|]. intros Hx. apply Hn. auto.
      * intros [[->|H] Hn]; [auto|].
        destruct (String.eqb_spec y x) as [->|Hne]; [auto|].
        right. split; [exact H|]. intros [Hx|Hx]; auto.
Qed.

Lemma dedupe_NoDup : forall l seen, NoDup (dedupe seen l).
Proof.
  induction l as [|y l IH]; intros seen; cbn [dedupe]; [constructor|].
  destruct (existsb (String.eqb y) seen); [apply IH|].
  apply NoDup_cons. split; [|apply IH].
  rewrite list_elem_of_In, dedupe_In. intros [_ H]. apply H. left. reflexivity.
Qed.

Lemma NoDup_List_filter {A} (f : A -> bool) l :
  NoDup l -> NoDup (List.filter f l).
Proof.
  induction 1 as [|x l Hx Hl IH]; cbn [List.filter]; [constructor|].
  destruct (f x); [|exact IH]. apply NoDup_cons. split; [|exact IH].
  rewrite list_elem_of_In, filter_In. intros [H _]. apply Hx, list_elem_of_In, H.
Qed.

Lemma filter_split_NoDup {A} (f : A -> bool) l :
  NoDup l -> NoDup (List.filter f l ++ List.filter (fun x => negb (f x)) l).
Proof.
  intros H. apply NoDup_app. split; [|split].
  - apply NoDup_List_filter, H.
  - intros x. rewrite !list_elem_of_In, !filter_In. intros [_ Hf] [_ Hn].
    rewrite Hf in Hn. discriminate.
  - apply NoDup_List_filter, H.
Qed.

Lemma filter_split_In {A} (f : A -> bool) l x :
  In x (List.filter f l ++ List.filter (fun x => negb (f x)) l) <-> In x l.
Proof.
  rewrite in_app_iff, !filter_In. destruct (f x); cbn [negb]; tauto.
Qed.

(** X18. renderPage: outside the multi-page mode, and unless the page is the
    not-found page without a source of its own, the links of a page built
    with a client bundle are the imports of the entry and of the chunk of
    the page together with the lean chunk of the page, each of them once,
    among the links to preload or among the links to prefetch. *)
Theorem pageLinks_each_import_once
    (inv : gmap string string) (srcPathOf : string -> string)
    (hasCustom404 : bool) (page : string) (output : list ChunkImports)
    (appChunk : ChunkImports) (pageClientJs : string)
    (shouldPreload : option (string -> string -> bool))
    (preload prefetch : list string) :
  hasCustom404 = true \/ page <> "404.md" ->
  pageLinks inv srcPathOf false hasCustom404 page (Some output) (Some appChunk)
    pageClientJs shouldPreload = Some (preload, prefetch) ->
  exists l,
    resolvePageImports inv srcPathOf page output appChunk = Some l /\
    NoDup (preload ++ prefetch) /\
    forall x, In x (preload ++ prefetch) <-> In x l \/ x = pageClientJs.
Proof.
  intros Hpage. unfold pageLinks.
  assert (false || (negb hasCustom404 && String.eqb page "404.md") = false) as ->.
  { destruct Hpage as [->|Hne]; [reflexivity|].
    apply String.eqb_neq in Hne. rewrite Hne, andb_false_r. reflexivity. }
  destruct (resolvePageImports inv srcPathOf page output appChunk) as [l|];
    [|discriminate].
  intros H. exists l. split; [reflexivity|].
  assert (forall x, In x (dedupe [] (l ++ [pageClientJs])) <-> In x l \/ x = pageClientJs)
    as Hin.
  { intros x. rewrite dedupe_In, in_app_iff. cbn [In]. split.
    - intros [[H1|[H1|[]]] _]; auto.
    - intros [H1| ->]; (split; [auto|intros []]). }
  destruct shouldPreload as [f|]; injection H as <- <-.
  - split; [apply filter_split_NoDup, dedupe_NoDup|].
    intros x. rewrite filter_split_In. apply Hin.
  - rewrite app_nil_r. split; [apply dedupe_NoDup|exact Hin].
Qed.

(** X19. renderPage and generateBundle: when the chunk of a page carries the
    name under which renderPage looks the page up, and the bundler named
    its file after the pattern of the entry chunks, the lean chunk that
    generateBundle adds has the very file name that renderPage puts among
    the links of the page. *)
Theorem lean_chunk_is_the_one_linked
    (keys : list string) (st : BundleState) (key : string) (c : OutputChunk)
    (assetsDir page hash : string) :
  NoDup keys -> leanKeysFree keys -> pageChunksHashed keys (bundle st) ->
  In key keys -> bundle st !! key = Some (Chunk c) ->
  isPageChunk (Chunk c) = true ->
  nameUnique keys (bundle st) key c ->
  name c = pageName page ->
  fileName c = assetsDir +:+ "/" +:+ pageName page +:+ "." +:+ hash +:+ ".js" ->
  hash <> "" -> hashRun hash = String.length hash ->
  exists st' lean,
    generateBundle false keys st = Some st' /\
    bundle st' !! (key +:+ "-lean") = Some (Chunk lean) /\
    fileName lean = pageClientJsFileName assetsDir page (pageToHashMap st').
Proof.
  intros Hnodup Hfree Hhashed Hin Hkey Hpage Huniq Hname Hfile Hne Hrun.
  destruct (processChunks_spec keys st Hnodup Hfree Hhashed)
    as (st' & Hgen & _ & _ & Hpages & _ & _).
  destruct (Hpages key c Hin Hkey Hpage) as (_ & Hlean & Hhash).
  assert (fileName c = (assetsDir +:+ "/" +:+ pageName page) +:+ "." +:+ hash +:+ ".js")
    as Hfile' by (rewrite Hfile, !append_assoc; reflexivity).
  exists st', (leanChunk c). split; [exact Hgen|]. split; [exact Hlean|].
  unfold pageClientJsFileName. rewrite <- Hname, (Hhash Huniq hash).
  - cbn [leanChunk fileName]. rewrite Hfile', Hname, leanName, !append_assoc.
    reflexivity.
  - rewrite Hfile'. apply hashRE_hashed; assumption.
Qed.

(** X17 on a site and a page that both set a description *)
Lemma description_never_from_page_head_witness :
  In (RenderSpec.exampleDescription "site")
     ([] ++ [] ++ [] ++ [RenderSpec.exampleDescription "site"]).
Proof.
  apply (description_never_from_page_head [] [] []
           [RenderSpec.exampleDescription "site"]
           [RenderSpec.exampleDescription "page"]
           (RenderSpec.exampleDescription "site")).
  - vm_compute. left. reflexivity.
  - reflexivity.
Defined.

(** X18 on a page whose chunk imports the framework chunk a second time;
    only the framework chunk is to be preloaded *)
Lemma pageLinks_each_import_once_witness :
  exists l,
    resolvePageImports ∅ (fun p => "/src/" +:+ p) "guide/intro.md"
      [RenderSpec.exampleAppChunk; RenderSpec.exampleIntroChunk]
      RenderSpec.exampleAppChunk = Some l /\
    NoDup (["assets/framework.js"]
           ++ ["assets/theme.js"; "assets/guide_intro.md.Dq3x-_9z.lean.js"]) /\
    forall x,
      In x (["assets/framework.js"]
            ++ ["assets/theme.js"; "assets/guide_intro.md.Dq3x-_9z.lean.js"]) <->
      In x l \/ x = "assets/guide_intro.md.Dq3x-_9z.lean.js".
Proof.
  apply (pageLinks_each_import_once ∅ (fun p => "/src/" +:+ p) false
           "guide/intro.md"
           [RenderSpec.exampleAppChunk; RenderSpec.exampleIntroChunk]
           RenderSpec.exampleAppChunk
           "assets/guide_intro.md.Dq3x-_9z.lean.js"
           (Some (fun link _ => String.eqb link "assets/framework.js"))).
  - right. discriminate.
  - reflexivity.
Defined.

(** X19 on a bundle of one page chunk and one style sheet *)
Lemma lean_chunk_is_the_one_linked_witness :
  exists st' lean,
    generateBundle false RenderSpec.linkedKeys
      {| bundle := RenderSpec.linkedBundle; pageToHashMap := ∅; emitted := [] |}
    = Some st' /\
    bundle st' !! "assets/guide_intro.md.Dq3x-_9z.js-lean" = Some (Chunk lean) /\
    fileName lean
    = pageClientJsFileName "assets" "guide/intro.md" (pageToHashMap st').
Proof.
  apply (lean_chunk_is_the_one_linked RenderSpec.linkedKeys
           {| bundle := RenderSpec.linkedBundle; pageToHashMap := ∅;
              emitted := [] |}
           "assets/guide_intro.md.Dq3x-_9z.js" RenderSpec.linkedPageChunk
           "assets" "guide/intro.md" "Dq3x-_9z").
  - apply NoDup_cons. split; [|apply NoDup_singleton].
    intros [H|[]]%list_elem_of_In. discriminate.
  - intros k k' [<-|[<-|[]]] [<-|[<-|[]]]; discriminate.
  - intros k c [<-|[<-|[]]] Hk _; vm_compute in Hk; [|discriminate].
    injection Hk as <-. discriminate.
  - left. reflexivity.
  - reflexivity.
  - reflexivity.
  - intros k' c' [<-|[<-|[]]] Hne Hk' _; [contradiction|].
    vm_compute in Hk'. discriminate.
  - reflexivity.
  - reflexivity.
  - discriminate.
  - reflexivity.
Defined.

End RenderFacts.

(** ** What a run of the router asks for *)

Module RouterTraceFacts.

Import Shared Router RouterTrace.

Section Runs.

Context {Component : Type}.
Variable inBrowser : bool.
Variable withBase : string -> string.
Variable pathnameOf : string -> string.
Variable fallbackComponent : option Component.

Local Abbreviation step' := (step inBrowser withBase pathnameOf fallbackComponent).
Local Abbreviation run' := (run inBrowser withBase pathnameOf fallbackComponent).
Local Abbreviation notFound' := (notFound inBrowser withBase fallbackComponent).
Local Abbreviation onError' := (onError inBrowser withBase fallbackComponent).
Local Abbreviation Effect' := (Effect pathnameOf).
Local Abbreviation continues := (continues inBrowser withBase pathnameOf).

Lemma notFound_continues id t p (st st0 : RouterState Component) acts :
  tasks st0 !! id = Some t ->
  tasks st = tasks st0 -> route st = route st0 ->
  actions st = actions st0 ++ acts ->
  pendingPathOf (state t) = Some p ->
  Effect' t Returned [] acts ->
  continues st0 (notFound' id p st).
Proof.
  intros Ht Hts Hr Ha Hp He. exists id, t, Returned, [], acts.
  unfold notFound. destruct (isPending _ _); cbn [tasks actions route path];
    rewrite Hts, app_nil_r, Ha; repeat split; auto.
  right. exists p. auto.
Qed.

Lemma onError_continues id t p m (st st0 : RouterState Component) :
  tasks st0 !! id = Some t ->
  tasks st = tasks st0 -> route st = route st0 -> actions st = actions st0 ->
  state t = AwaitImport p ->
  continues st0 (onError' id t p m st).
Proof.
  intros Ht Hts Hr Ha Hs. unfold onError.
  set (logged := if _ && _ then _ else _).
  assert (exists acts, logged = actions st0 ++ acts /\
            Forall (fun a => RouterSpec.isRequest a = false) acts)
    as (acts & Hl & Hacts).
  { subst logged. destruct (_ && _).
    - exists [ConsoleError m]. rewrite Ha. split; [reflexivity|].
      constructor; [reflexivity | constructor].
    - exists []. rewrite Ha, app_nil_r. split; [reflexivity | constructor]. }
  destruct (isRetry t) eqn:Hretry; cbn [negb].
  - apply (notFound_continues id t p _ st0 acts); cbn [tasks actions route]; auto.
    + rewrite Hs. reflexivity.
    + apply (ImportEnds pathnameOf t p); assumption.
  - exists id, t, (AwaitFetch p), [], (acts ++ [HashMapRequested]).
    cbn [tasks actions route]. rewrite Hts, Hl, app_nil_r, app_assoc.
    repeat split; auto.
    apply ImportFails; assumption.
Qed.

Lemma step_continues (st st' : RouterState Component) e :
  step' st e = Some st' ->
  match e with
  | Call h scroll =>
      tasks st' = tasks st ++ [{| href := h; scrollPosition := scroll;
                                  isRetry := false; state := AwaitHook |}] /\
      actions st' = actions st /\ route st' = route st
  | _ => continues st st'
  end.
Proof.
  destruct e as [h scroll | id r | id r | id ok | id]; cbn [step].
  - intros [= <-]. cbn. auto.
  - destruct (tasks st !! id) as [t|] eqn:Ht; [|discriminate].
    destruct (state t) eqn:Hs; try discriminate.
    destruct r as [| | m]; intros [= <-].
    + exists id, t, (AwaitImport (pathnameOf (href t))), [],
        [ImportRequested (pathnameOf (href t))].
      cbn [tasks actions route]. rewrite app_nil_r. repeat split; auto.
      apply HookProceeds. assumption.
    + exists id, t, Returned, [], []. cbn [tasks actions route].
      rewrite !app_nil_r. repeat split; auto.
      apply HookEnds; auto.
    + exists id, t, (Threw m), [], []. cbn [tasks actions route].
      rewrite !app_nil_r. repeat split; auto.
      apply HookEnds; eauto.
  - destruct (tasks st !! id) as [t|] eqn:Ht; [|discriminate].
    destruct (state t) as [|p| | | |] eqn:Hs; try discriminate.
    destruct r as [page| |m].
    + destruct (isPending _ _).
      * destruct (default page) as [comp|]; intros [= <-].
        -- exists id, t, Returned, [],
             (if inBrowser then [NextTick p (scrollPosition t)] else []).
           cbn [tasks actions route path]. rewrite app_nil_r.
           repeat split; auto.
           ++ destruct inBrowser; [reflexivity | rewrite app_nil_r; reflexivity].
           ++ apply (ImportEnds pathnameOf t p); [assumption|].
              destruct inBrowser; repeat constructor.
           ++ right. exists p. rewrite Hs. auto.
        -- apply onError_continues; auto.
      * intros [= <-]. exists id, t, Returned, [], [].
        cbn [tasks actions route]. rewrite !app_nil_r. repeat split; auto.
        apply (ImportEnds pathnameOf t p); [assumption | constructor].
    + intros [= <-]. apply onError_continues; auto.
    + intros [= <-]. apply onError_continues; auto.
  - destruct (tasks st !! id) as [t|] eqn:Ht; [|discriminate].
    destruct (state t) as [| |p| | |] eqn:Hs; try discriminate.
    destruct ok; intros [= <-].
    + exists id, t, (AwaitRetry p (length (tasks st))),
        [{| href := href t; scrollPosition := scrollPosition t;
            isRetry := true; state := AwaitHook |}], [].
      cbn [tasks actions route]. rewrite app_nil_r. repeat split; auto.
      apply FetchOk. assumption.
    + apply (notFound_continues id t p st st []); auto.
      * rewrite app_nil_r. reflexivity.
      * rewrite Hs. reflexivity.
      * apply (FetchFails pathnameOf t p). assumption.
  - destruct (tasks st !! id) as [t|] eqn:Ht; [|discriminate].
    destruct (state t) as [| | |p child| |] eqn:Hs; try discriminate.
    destruct (tasks st !! child) as [c|]; [|discriminate].
    destruct (state c); try discriminate; intros [= <-].
    + exists id, t, Returned, [], []. cbn [tasks actions route].
      rewrite !app_nil_r. repeat split; auto.
      apply (Resumes pathnameOf t p child). assumption.
    + apply (notFound_continues id t p st st []); auto.
      * rewrite app_nil_r. reflexivity.
      * rewrite Hs. reflexivity.
      * apply (Resumes pathnameOf t p child). assumption.
Qed.

Lemma setState_lookup_href (ts : list Task) id s j t' :
  setState id s ts !! j = Some t' ->
  exists t0, ts !! j = Some t0 /\ href t' = href t0 /\
    (state t' = state t0 \/ (j = id /\ state t' = s)).
Proof.
  unfold setState. rewrite list_lookup_alter.
  destruct (decide (id = j)) as [->|Hne].
  - destruct (ts !! j) as [t0|]; [|discriminate]. intros [= <-].
    exists t0. cbn. auto.
  - intros H. exists t'. auto.
Qed.

Lemma continues_fromCalls hs (st st' : RouterState Component) :
  continues st st' ->
  fromCalls inBrowser withBase pathnameOf hs st ->
  fromCalls inBrowser withBase pathnameOf hs st'.
Proof.
  intros (id & t & s & extra & acts & Ht & Hts & _ & He & Hr) [Htasks Hroute].
  destruct (Htasks id t Ht) as [Hin Hpath].
  split.
  - intros j t' Hj. rewrite Hts in Hj. apply lookup_app_Some in Hj.
    destruct Hj as [Hj | [_ Hj]].
    + apply setState_lookup_href in Hj.
      destruct Hj as (t0 & Ht0 & Hh & Hst). rewrite Hh.
      destruct (Htasks j t0 Ht0) as [Hin0 Hpath0]. split; [assumption|].
      destruct Hst as [-> | [-> ->]]; [assumption|].
      rewrite Ht in Ht0. injection Ht0 as <-.
      intros p Hp.
      inversion He as [s0 _ [?|[m ?]]| |? ? Hs|? ? Hs|? ? Hs| |]; subst;
        cbn in Hp; try discriminate;
        injection Hp as <-; try reflexivity;
        apply Hpath; rewrite Hs; reflexivity.
    + inversion He; subst; try (rewrite lookup_nil in Hj; discriminate).
      destruct (j - _) as [|n]; [|rewrite lookup_cons, lookup_nil in Hj; discriminate].
      cbn in Hj. injection Hj as <-. cbn. split; [assumption | discriminate].
  - destruct Hr as [-> | (p & Hp & ->)]; [assumption|].
    right. exists (href t). split; [assumption|].
    rewrite (Hpath p Hp). reflexivity.
Qed.

Lemma run_fromCalls es : forall hs (st st' : RouterState Component),
  run' st es = Some st' ->
  fromCalls inBrowser withBase pathnameOf hs st ->
  fromCalls inBrowser withBase pathnameOf (hs ++ calledHrefs es) st'.
Proof.
  induction es as [|e es IH]; intros hs st st' Hrun Hinv; cbn [run] in Hrun.
  - injection Hrun as <-. cbn. rewrite app_nil_r. assumption.
  - destruct (step' st e) as [st1|] eqn:Hstep; [|discriminate].
    pose proof (step_continues _ _ _ Hstep) as Hshape.
    destruct e as [h scroll| | | |];
      try (apply (IH hs st1 st' Hrun), (continues_fromCalls hs st); assumption).
    destruct Hshape as (Hts & _ & Hr).
    change (calledHrefs (Call h scroll :: es)) with ([h] ++ calledHrefs es).
    rewrite app_assoc. apply (IH (hs ++ [h]) st1 st' Hrun).
    destruct Hinv as [Htasks Hroute]. split.
    + intros j t Hj. rewrite Hts in Hj. apply lookup_app_Some in Hj.
      destruct Hj as [Hj | [_ Hj]].
      * destruct (Htasks j t Hj). split; [apply in_or_app; auto | assumption].
      * destruct (j - _) as [|n]; [|rewrite lookup_cons, lookup_nil in Hj; discriminate].
        cbn in Hj. injection Hj as <-. cbn.
        split; [apply in_or_app; right; left; reflexivity | discriminate].
    + rewrite Hr. destruct Hroute as [?|(h0 & ? & ?)]; [left; assumption|].
      right. exists h0. split; [apply in_or_app; auto | assumption].
Qed.

(** X20. Every route the router ever shows is the initial one or carries the
    pathname of an address that [go] or the initial load asked for: the
    retry after a failed import and the not-found fallback never invent a
    path, whatever the order in which the promises settle. *)
Theorem route_path_was_asked_for es (st : RouterState Component) :
  run' createRouter es = Some st ->
  route st = getDefaultRoute \/
  exists h, In h (calledHrefs es) /\
    path (route st) = routePath inBrowser withBase (pathnameOf h).
Proof.
  intros Hrun.
  apply (run_fromCalls es [] createRouter st Hrun).
  split; [|left; reflexivity].
  intros id t Ht. cbn in Ht. rewrite lookup_nil in Ht. discriminate.
Qed.

Lemma count_app {A : Type} (f : A -> bool) l l' :
  count f (l ++ l') = count f l + count f l'.
Proof. unfold count. rewrite List.filter_app, length_app. reflexivity. Qed.

Lemma count_cons {A : Type} (f : A -> bool) x l :
  count f (x :: l) = Nat.b2n (f x) + count f l.
Proof. unfold count. cbn. destruct (f x); reflexivity. Qed.

Lemma count_setState (f : Task -> bool) s : forall (ts : list Task) id t,
  ts !! id = Some t ->
  count f (setState id s ts) + Nat.b2n (f t)
  = count f ts + Nat.b2n (f (withState t s)).
Proof.
  unfold setState.
  induction ts as [|x ts IH]; intros [|id] t Ht; cbn in Ht; try discriminate.
  - injection Ht as ->. cbn [alter list_alter]. rewrite !count_cons. lia.
  - cbn [alter list_alter]. rewrite !count_cons.
    specialize (IH id t Ht). cbn [alter] in IH. lia.
Qed.

Lemma length_setState id s (ts : list Task) :
  length (setState id s ts) = length ts.
Proof. unfold setState. apply length_alter. Qed.

Lemma count_no_request (f : Action -> bool) acts :
  (forall a, f a = true -> RouterSpec.isRequest a = true) ->
  Forall (fun a => RouterSpec.isRequest a = false) acts ->
  count f acts = 0.
Proof.
  intros Hf. induction 1 as [|a acts Ha _ IH]; [reflexivity|].
  rewrite count_cons, IH. destruct (f a) eqn:E; [|reflexivity].
  apply Hf in E. congruence.
Qed.

Lemma hashMap_isRequest a :
  isHashMapRequested a = true -> RouterSpec.isRequest a = true.
Proof. destruct a; cbn; auto. Qed.

Lemma import_isRequest a :
  isImportRequested a = true -> RouterSpec.isRequest a = true.
Proof. destruct a; cbn; auto. Qed.

Lemma continues_balanced c (st st' : RouterState Component) :
  continues st st' -> balanced c st -> balanced c st'.
Proof.
  intros (id & t & s & extra & acts & Ht & Hts & Ha & He & _).
  unfold balanced. rewrite Hts, Ha, !count_app, length_app, length_setState.
  pose proof (count_setState mayFetch s _ _ _ Ht) as H1.
  pose proof (count_setState isRetry s _ _ _ Ht) as H2.
  pose proof (count_setState inFetch s _ _ _ Ht) as H3.
  pose proof (count_setState inHook s _ _ _ Ht) as H4.
  revert H1 H2 H3 H4. unfold mayFetch, inFetch, inHook. cbn [withState isRetry state].
  inversion He as [s0 Hs [?|[m ?]]|Hs|p acts0 Hs Hacts|p acts0 Hs Hr Hacts
                   |p child Hs|p Hs|p child Hs]; subst;
    rewrite Hs; try rewrite Hr;
    try rewrite !count_app;
    try rewrite (count_no_request isHashMapRequested _ hashMap_isRequest Hacts);
    try rewrite (count_no_request isImportRequested _ import_isRequest Hacts);
    unfold count; cbn; destruct (isRetry t); cbn; lia.
Qed.

Lemma run_balanced es : forall c (st st' : RouterState Component),
  run' st es = Some st' -> balanced c st ->
  balanced (c + length (calledHrefs es)) st'.
Proof.
  induction es as [|e es IH]; intros c st st' Hrun Hinv; cbn [run] in Hrun.
  - injection Hrun as <-. cbn. rewrite Nat.add_0_r. assumption.
  - destruct (step' st e) as [st1|] eqn:Hstep; [|discriminate].
    pose proof (step_continues _ _ _ Hstep) as Hshape.
    destruct e as [h scroll| | | |];
      try (apply (IH c st1 st' Hrun), (continues_balanced c st); assumption).
    destruct Hshape as (Hts & Ha & _).
    change (calledHrefs (Call h scroll :: es)) with ([h] ++ calledHrefs es).
    rewrite length_app, Nat.add_assoc. apply (IH (c + 1) st1 st' Hrun).
    revert Hinv. unfold balanced.
    rewrite Hts, Ha, !count_app, length_app. unfold count. cbn. lia.
Qed.

(** X21. A schedule with [n] calls of [loadPage] from outside fetches the hash
    map at most [n] times and imports a page module at most [2 * n] times:
    each navigation retries at most once, and a retry never retries. *)
Theorem requests_bounded_by_calls es (st : RouterState Component) :
  run' createRouter es = Some st ->
  count isHashMapRequested (actions st) <= length (calledHrefs es) /\
  count isImportRequested (actions st) <= 2 * length (calledHrefs es).
Proof.
  intros Hrun.
  assert (balanced 0 (@createRouter Component)) as H0.
  { unfold balanced, count. cbn. lia. }
  pose proof (run_balanced es 0 createRouter st Hrun H0) as H.
  unfold balanced in H. cbn [Nat.add] in H. lia.
Qed.

End Runs.

(** X20 on two navigations: the import of [/b] fails and the hash map
    cannot be fetched, the import of [/a] arrives too late *)
Lemma route_path_was_asked_for_witness :
  exists st,
    run true (fun p => p) (fun h => h) None createRouter
      [Call "/a" 0; HookDone 0 HookProceed; Call "/b" 0; HookDone 1 HookProceed;
       ImportDone 1 (Rejected "Failed to fetch");
       ImportDone 0 (Loaded RouterSpec.examplePageA); FetchDone 1 false]
    = Some st /\
    (route st = getDefaultRoute \/
     exists h, In h ["/a"; "/b"] /\
       path (route st) = routePath true (fun p => p) h).
Proof.
  eexists. split; [reflexivity|].
  apply (route_path_was_asked_for true (fun p => p) (fun h => h) (@None string)
           [Call "/a" 0; HookDone 0 HookProceed; Call "/b" 0; HookDone 1 HookProceed;
            ImportDone 1 (Rejected "Failed to fetch");
            ImportDone 0 (Loaded RouterSpec.examplePageA); FetchDone 1 false]).
  reflexivity.
Defined.

(** X21 on one navigation whose import fails twice *)
Lemma requests_bounded_by_calls_witness :
  exists st,
    run true (fun p => p) (fun h => h) None createRouter
      [Call "/a" 0; HookDone 0 HookProceed;
       ImportDone 0 (Rejected "Failed to fetch"); FetchDone 0 true;
       HookDone 1 HookProceed; ImportDone 1 (@LoadedNull string); Resume 0]
    = Some st /\
    count isHashMapRequested (actions st) <= 1 /\
    count isImportRequested (actions st) <= 2.
Proof.
  eexists. split; [reflexivity|].
  apply (requests_bounded_by_calls true (fun p => p) (fun h => h) (@None string)
           [Call "/a" 0; HookDone 0 HookProceed;
            ImportDone 0 (Rejected "Failed to fetch"); FetchDone 0 true;
            HookDone 1 HookProceed; ImportDone 1 (@LoadedNull string); Resume 0]).
  reflexivity.
Defined.

End RouterTraceFacts.

(** ** Merging configurations *)

Module ConfigFacts.

Import Config ConfigSpec.

Section Merge.

Variable mergeViteConfig :
  list (string * Value) -> list (string * Value) -> Value.

Local Abbreviation mergeConfig' := (mergeConfig mergeViteConfig).
Local Abbreviation mergeKey' :=
  (mergeKey mergeViteConfig (fun e v => mergeInto mergeViteConfig e v false)).
Local Abbreviation mergedValue' := (mergedValue mergeViteConfig).

Lemma getField_setField key v fields : getField key (setField key v fields) = v.
Proof.
  induction fields as [|[k x] rest IH]; cbn.
  - rewrite String.eqb_refl. reflexivity.
  - destruct (String.eqb k key) eqn:E; cbn; rewrite E; auto.
Qed.

Lemma getField_setField_other key k v fields :
  k <> key -> getField k (setField key v fields) = getField k fields.
Proof.
  intros Hne. induction fields as [|[k0 x] rest IH]; cbn.
  - destruct (String.eqb_spec key k); congruence.
  - destruct (String.eqb_spec k0 key) as [->|]; cbn.
    + destruct (String.eqb_spec key k); congruence.
    + rewrite IH. reflexivity.
Qed.

Lemma getField_absent key fields :
  ~ In key (map fst fields) -> getField key fields = VUndefined.
Proof.
  induction fields as [|[k x] rest IH]; cbn; [reflexivity|].
  intros Hn. destruct (String.eqb_spec k key); [tauto|]. apply IH. tauto.
Qed.

Lemma mergeKey_field isRoot merged key value :
  getField key (mergeKey' isRoot merged (key, value))
  = mergedValue' isRoot key (getField key merged) value.
Proof.
  unfold mergeKey, mergedValue, mergeConfig.
  destruct value; try reflexivity;
    destruct (getField key merged); try destruct (_ && _);
    rewrite getField_setField; reflexivity.
Qed.

Lemma mergeKey_other isRoot merged key value k :
  k <> key ->
  getField k (mergeKey' isRoot merged (key, value)) = getField k merged.
Proof.
  intros Hne. unfold mergeKey.
  destruct value; try reflexivity;
    destruct (getField key merged); try destruct (_ && _);
    rewrite getField_setField_other; auto.
Qed.

Lemma fold_other isRoot k : forall b merged,
  ~ In k (map fst b) ->
  getField k (fold_left (mergeKey' isRoot) b merged) = getField k merged.
Proof.
  induction b as [|[key value] b IH]; intros merged Hn; cbn [fold_left].
  - reflexivity.
  - cbn in Hn. rewrite IH by tauto. apply mergeKey_other.
    intros ->. tauto.
Qed.

(** the loop settles every key on its own *)
Lemma mergeConfig_field isRoot k a b :
  List.NoDup (map fst b) ->
  getField k (mergeConfig' a b isRoot)
  = mergedValue' isRoot k (getField k a) (getField k b).
Proof.
  unfold mergeConfig. cbn [mergeInto]. revert a.
  induction b as [|[key value] b IH]; intros a Hnd; cbn [fold_left].
  - reflexivity.
  - cbn in Hnd. apply List.NoDup_cons_iff in Hnd as [Hnin Hnd].
    cbn [getField]. destruct (String.eqb_spec key k) as [->|Hne].
    + rewrite fold_other by assumption. apply mergeKey_field.
    + rewrite IH by assumption. rewrite mergeKey_other by congruence.
      reflexivity.
Qed.

(** X22. A setting of the extending configuration that is neither an object nor
    an array, [null] or [undefined] ends up in the merged configuration at
    the same path, whatever the base holds there; only what lies below the
    key [vite] of the root is left to [mergeViteConfig]. *)
Theorem mergeConfig_setting_wins path : forall a b isRoot text,
  path <> [] ->
  (isRoot = true -> hd "" path <> "vite") ->
  distinctAlong (VObject b) path ->
  getPath (VObject b) path = VAtom text ->
  getPath (VObject (mergeConfig' a b isRoot)) path = VAtom text.
Proof.
  induction path as [|k rest IH]; intros a b isRoot text Hne Hvite Hd Hb;
    [congruence|].
  cbn [getPath distinctAlong] in *. destruct Hd as [Hnd Hd].
  rewrite mergeConfig_field by assumption.
  assert (isRoot && String.eqb k "vite" = false) as Hv.
  { destruct isRoot; [|reflexivity]. cbn.
    destruct (String.eqb_spec k "vite"); [|reflexivity].
    exfalso. apply Hvite; auto. }
  destruct rest as [|k2 rest].
  - cbn [getPath] in *. rewrite Hb. unfold mergedValue.
    destruct (getField k a); reflexivity.
  - destruct (getField k b) as [| | | |v] eqn:Hkb;
      try (cbn in Hb; discriminate).
    unfold mergedValue. rewrite Hv.
    destruct (getField k a) as [| | | |e]; try exact Hb.
    apply IH; try assumption; congruence.
Qed.

(** X23. A key that the extending configuration leaves out or sets to [null] or
    [undefined] keeps the value of the base, and where both hold an array
    the merged one is the base array followed by the extending one. *)
Theorem mergeConfig_keeps_and_appends a b isRoot k :
  List.NoDup (map fst b) ->
  ((~ In k (map fst b) \/ getField k b = VNull \/ getField k b = VUndefined) ->
   getField k (mergeConfig' a b isRoot) = getField k a) /\
  (forall x y, getField k a = VArray x -> getField k b = VArray y ->
   getField k (mergeConfig' a b isRoot) = VArray (x ++ y)).
Proof.
  intros Hnd. rewrite mergeConfig_field by assumption. split.
  - intros [Hn | [-> | ->]]; try reflexivity.
    rewrite (getField_absent k b Hn). reflexivity.
  - intros x y -> ->. reflexivity.
Qed.

End Merge.

(** X22 on the logo of the theme *)
Lemma mergeConfig_setting_wins_witness :
  getPath (VObject (mergeConfig (fun _ _ => VNull) exampleBase exampleChild true))
    ["themeConfig"; "logo"] = VAtom "/child.svg".
Proof.
  apply mergeConfig_setting_wins.
  - discriminate.
  - discriminate.
  - cbn. repeat split; repeat constructor; cbn; intuition discriminate.
  - reflexivity.
Defined.

(** X23 on a title set to [null] and on the head tags *)
Lemma mergeConfig_keeps_and_appends_witness :
  getField "title" (mergeConfig (fun _ _ => VNull) exampleBase exampleChild true)
  = getField "title" exampleBase /\
  getField "head" (mergeConfig (fun _ _ => VNull) exampleBase exampleChild true)
  = VArray ([VAtom "icon"] ++ [VAtom "font"]).
Proof.
  assert (List.NoDup (map fst exampleChild)) as Hnd.
  { repeat constructor; cbn; intuition discriminate. }
  split.
  - apply (proj1 (mergeConfig_keeps_and_appends (fun _ _ => VNull) exampleBase
                    exampleChild true "title" Hnd)).
    right. left. reflexivity.
  - apply (proj2 (mergeConfig_keeps_and_appends (fun _ _ => VNull) exampleBase
                    exampleChild true "head" Hnd)); reflexivity.
Defined.

End ConfigFacts.

(** ** Chunks loaded with the entry *)

Module ChunksFacts.

Import Chunks ChunksSpec.

Section Graph.

Variable getModuleInfo : string -> option ModuleInfo.
Variable entryRE : option (string -> bool).

Local Abbreviation importedByEntry' := (importedByEntry getModuleInfo entryRE).
Local Abbreviation cacheSound' := (cacheSound getModuleInfo entryRE).
Local Abbreviation check' := (staticImportedByEntry getModuleInfo entryRE).

Lemma cacheSound_insert cache id (b : bool) :
  cacheSound' cache -> (b = true -> importedByEntry' id) ->
  cacheSound' (<[id := b]> cache).
Proof.
  intros Hc Hb x Hx. destruct (decide (id = x)) as [->|Hne].
  - rewrite lookup_insert_eq in Hx. injection Hx as ->. auto.
  - rewrite lookup_insert_ne in Hx by assumption. auto.
Qed.

Lemma someImporter_sound check l :
  (forall importer cache b cache',
     check importer cache = Some (b, cache') -> cacheSound' cache ->
     cacheSound' cache' /\ (b = true -> importedByEntry' importer)) ->
  forall cache b cache',
    someImporter check l cache = Some (b, cache') -> cacheSound' cache ->
    cacheSound' cache' /\
    (b = true -> exists importer, In importer l /\ importedByEntry' importer).
Proof.
  intros Hcheck. induction l as [|importer rest IH]; intros cache b cache' H Hc;
    cbn [someImporter] in H.
  - injection H as <- <-. split; [assumption | discriminate].
  - destruct (check importer cache) as [[[] c1]|] eqn:E; [| |discriminate].
    + injection H as <- <-. destruct (Hcheck _ _ _ _ E Hc) as [Hc1 Hi].
      split; [assumption|]. intros _. exists importer. split; [left|]; auto.
    + destruct (Hcheck _ _ _ _ E Hc) as [Hc1 _].
      destruct (IH _ _ _ H Hc1) as [Hc' Hi]. split; [assumption|].
      intros Hb. destruct (Hi Hb) as (i & Hin & Hr). exists i. split; [right|]; auto.
Qed.

Lemma check_sound fuel : forall id cache importStack b cache',
  check' fuel id cache importStack = Some (b, cache') -> cacheSound' cache ->
  cacheSound' cache' /\ (b = true -> importedByEntry' id).
Proof.
  induction fuel as [|f IH]; intros id cache importStack b cache' H Hc;
    cbn [staticImportedByEntry] in H; [discriminate|].
  destruct (cache !! id) as [b0|] eqn:Hcache.
  { injection H as <- <-. split; [assumption|]. intros ->. apply Hc, Hcache. }
  destruct (existsb _ importStack).
  { injection H as <- <-. split; [|discriminate].
    apply cacheSound_insert; [assumption | discriminate]. }
  destruct (getModuleInfo id) as [info|] eqn:Hmod.
  2:{ injection H as <- <-. split; [|discriminate].
      apply cacheSound_insert; [assumption | discriminate]. }
  destruct (isEntryModule entryRE id info) eqn:Hentry.
  { injection H as <- <-.
    assert (importedByEntry' id) by (eapply IsEntry; eassumption).
    split; [apply cacheSound_insert|]; auto. }
  destruct (someImporter _ (importers info) cache) as [[b1 c1]|] eqn:Hsome;
    [|discriminate].
  injection H as <- <-.
  destruct (someImporter_sound _ (importers info)
              (fun importer cache b cache' => IH importer cache _ b cache')
              cache b1 c1 Hsome Hc) as [Hc1 Hi].
  assert (b1 = true -> importedByEntry' id) as Hid.
  { intros Hb. destruct (Hi Hb) as (i & Hin & Hr).
    eapply ViaImporter; eassumption. }
  split; [apply cacheSound_insert|]; assumption.
Qed.

Lemma someImporter_returns check l :
  (forall importer cache, check importer cache <> None) ->
  forall cache, someImporter check l cache <> None.
Proof.
  intros Hcheck. induction l as [|importer rest IH]; intros cache;
    cbn [someImporter]; [discriminate|].
  destruct (check importer cache) as [[[] c1]|] eqn:E.
  - discriminate.
  - apply IH.
  - destruct (Hcheck _ _ E).
Qed.

Lemma NoDup_snoc (l : list string) x :
  List.NoDup l -> ~ In x l -> List.NoDup (l ++ [x]).
Proof.
  intros Hl Hx.
  apply (Permutation.Permutation_NoDup (l := x :: l)).
  - apply Permutation.Permutation_cons_append.
  - constructor; assumption.
Qed.

Lemma check_returns mods :
  (forall id info, getModuleInfo id = Some info -> In id mods) ->
  forall fuel id cache importStack,
    List.NoDup importStack -> (forall x, In x importStack -> In x mods) ->
    length mods < fuel + length importStack ->
    check' fuel id cache importStack <> None.
Proof.
  intros Hmods. induction fuel as [|f IH]; intros id cache importStack Hnd Hin Hlen.
  - pose proof (List.NoDup_incl_length Hnd Hin). cbn in Hlen. lia.
  - cbn [staticImportedByEntry].
    destruct (cache !! id); [discriminate|].
    destruct (existsb _ importStack) eqn:Hstack; [discriminate|].
    destruct (getModuleInfo id) as [info|] eqn:Hmod; [|discriminate].
    destruct (isEntryModule entryRE id info); [discriminate|].
    assert (~ In id importStack) as Hnin.
    { intros Hi. apply Bool.not_true_iff_false in Hstack. apply Hstack.
      apply existsb_exists. exists id. split; [assumption | apply String.eqb_refl]. }
    pose proof (someImporter_returns
                  (fun importer cache =>
                     check' f importer cache (importStack ++ [id]))
                  (importers info)) as Hsome.
    destruct (someImporter _ (importers info) cache) as [[b1 c1]|] eqn:E;
      [discriminate|].
    exfalso. apply (fun H => Hsome H cache E).
    intros importer c. apply IH.
    + apply NoDup_snoc; assumption.
    + intros x [Hx|[<-|[]]]%in_app_or; [auto | eapply Hmods; eassumption].
    + rewrite length_app. cbn. lia.
Qed.

(** X24. staticImportedByEntry: when the bundler knows finitely many modules,
    the call returns, with fuel beyond their number; an answer of [true]
    is right, in that a chain of importers leads from the module to an
    entry, also when the cache is the one earlier calls left; and the
    cache it leaves holds [true] for such modules only. *)
Theorem staticImportedByEntry_sound mods id cache :
  (forall id info, getModuleInfo id = Some info -> In id mods) ->
  cacheSound getModuleInfo entryRE cache ->
  exists b cache',
    staticImportedByEntry getModuleInfo entryRE (S (length mods)) id cache []
    = Some (b, cache') /\
    cacheSound getModuleInfo entryRE cache' /\
    (b = true -> importedByEntry getModuleInfo entryRE id).
Proof.
  intros Hmods Hc.
  destruct (check' (S (length mods)) id cache []) as [[b cache']|] eqn:E.
  - exists b, cache'. split; [reflexivity|]. eapply check_sound; eassumption.
  - exfalso. apply (check_returns mods Hmods (S (length mods)) id cache []);
      [constructor | intros x [] | cbn; lia | exact E].
Qed.

End Graph.

(** X24 on two modules that import each other *)
Lemma staticImportedByEntry_sound_witness :
  exists cache',
    staticImportedByEntry exampleGraph None 4 "b.js" ∅ [] = Some (true, cache') /\
    importedByEntry exampleGraph None "b.js".
Proof.
  destruct (staticImportedByEntry_sound exampleGraph None
              ["entry.js"; "a.js"; "b.js"] "b.js" ∅)
    as (b & cache' & Hrun & _ & Hb).
  - intros id info. unfold exampleGraph.
    destruct (String.eqb_spec id "entry.js") as [->|]; [intros _; cbn; tauto|].
    destruct (String.eqb_spec id "a.js") as [->|]; [intros _; cbn; tauto|].
    destruct (String.eqb_spec id "b.js") as [->|]; [intros _; cbn; tauto|].
    discriminate.
  - intros id Hid. rewrite lookup_empty in Hid. discriminate.
  - exists cache'. vm_compute in Hrun. injection Hrun as <- <-.
    split; [vm_compute; reflexivity | apply Hb; reflexivity].
Defined.

End ChunksFacts.
